(** * GHEJ-Index: extreme-heat exposure index, verified model of [utils.py]

  The development embeds the functions of [src/utils.py] that the
  specification talks about and proves the specification's statements
  about them.

  Numeric convention.  The arrays of the program hold IEEE doubles.  A
  double is modelled by [f64]: an exact rational, one of the two
  infinities, or NaN.  The special values, which decide how comparisons,
  sums and divisions behave on missing data, are kept.  Rounding is
  abstracted away in the sums and quotients of the aggregation; it is
  modelled in the longitude formula of [align_data] (module [B64]),
  whose properties depend on it. *)

From Stdlib Require Import QArith Qabs Qcanon Qround Qfield Lqa Ascii String.
From stdpp Require Import base option list strings gmap sorting.

Local Open Scope Z_scope.

(** ** Doubles *)

Module F.

Inductive f64 : Type :=
| Fin (q : Qc)
| PInf
| NInf
| NaN.

#[global] Instance f64_eq_dec : EqDecision f64.
Proof. solve_decision. Defined.

#[global] Instance f64_inhabited : Inhabited f64 := populate NaN.

Definition of_Z (z : Z) : f64 := Fin (Q2Qc (inject_Z z)).
Definition of_Q (q : Q) : f64 := Fin (Q2Qc q).

(** [numpy.isnan] / [Series.isna] *)
Definition isnan (x : f64) : bool :=
  match x with NaN => true | _ => false end.

Definition Qc_ltb (a b : Qc) : bool := bool_decide (a < b)%Qc.
Definition Qc_eqb (a b : Qc) : bool := bool_decide (a = b).
Definition Qc_sign (a : Qc) : comparison := (a ?= 0)%Qc.

(** [x < y]; every comparison with NaN is false *)
Definition ltb (x y : f64) : bool :=
  match x, y with
  | NaN, _ | _, NaN => false
  | Fin a, Fin b => Qc_ltb a b
  | NInf, NInf => false
  | NInf, _ => true
  | _, PInf => match x with PInf => false | _ => true end
  | _, _ => false
  end.

(** [x > y] *)
Definition gtb (x y : f64) : bool := ltb y x.

(** [x <= y] *)
Definition leb (x y : f64) : bool :=
  match x, y with
  | NaN, _ | _, NaN => false
  | _, _ => negb (ltb y x)
  end.

Definition opp (x : f64) : f64 :=
  match x with
  | Fin a => Fin (- a)%Qc
  | PInf => NInf
  | NInf => PInf
  | NaN => NaN
  end.

Definition add (x y : f64) : f64 :=
  match x, y with
  | NaN, _ | _, NaN => NaN
  | Fin a, Fin b => Fin (a + b)%Qc
  | PInf, NInf | NInf, PInf => NaN
  | PInf, _ | _, PInf => PInf
  | NInf, _ | _, NInf => NInf
  end.

Definition sub (x y : f64) : f64 := add x (opp y).

Definition inf_of_sign (c : comparison) : f64 :=
  match c with Gt => PInf | Lt => NInf | Eq => NaN end.

Definition sign (x : f64) : comparison :=
  match x with
  | Fin a => Qc_sign a
  | PInf => Gt
  | NInf => Lt
  | NaN => Eq
  end.

Definition sign_mul (c d : comparison) : comparison :=
  match c, d with
  | Eq, _ | _, Eq => Eq
  | Gt, Gt | Lt, Lt => Gt
  | _, _ => Lt
  end.

Definition mul (x y : f64) : f64 :=
  match x, y with
  | NaN, _ | _, NaN => NaN
  | Fin a, Fin b => Fin (a * b)%Qc
  | _, _ => inf_of_sign (sign_mul (sign x) (sign y))
  end.

(** Division of doubles: [0/0] and [inf/inf] are NaN, [a/0] is an
    infinity, nothing raises. *)
Definition div (x y : f64) : f64 :=
  match x, y with
  | NaN, _ | _, NaN => NaN
  | Fin a, Fin b =>
      if Qc_eqb b 0 then inf_of_sign (Qc_sign a) else Fin (a / b)%Qc
  | Fin _, _ => Fin 0
  | _, Fin b =>
      inf_of_sign (sign_mul (sign x)
                     (match Qc_sign b with Eq => Gt | c => c end))
  | _, _ => NaN
  end.

Definition zero : f64 := Fin 0.

End F.

Import F.

(** ** Gridded fields *)

(** A two-dimensional field: rows by latitude, entries by longitude. *)
Abbreviation grid A := (list (list A)) (only parsing).

Definition cell {A} (g : grid A) (i j : nat) : option A :=
  g !! i ≫= (.!! j).

Definition shape {A} (g : grid A) : list nat := length <$> g.

(** Element-wise operation on two fields of the same grid. *)
Definition grid_zip_with {A B C} (f : A → B → C)
    (a : grid A) (b : grid B) : grid C :=
  zip_with (zip_with f) a b.

Definition grid_map {A B} (f : A → B) (g : grid A) : grid B :=
  fmap (M:=list) (fmap (M:=list) f) g.

(** [.values.flatten()]: row-major order. *)
Definition flatten {A} (g : grid A) : list A := concat g.


(** ** Rounding to binary64 *)

Module B64.

(** [2^z] as a rational. *)
Definition pow2 (z : Z) : Q :=
  if 0 <=? z then inject_Z (2 ^ z) else (/ inject_Z (2 ^ (- z)))%Q.

(** The binary exponent of a non-zero rational: the [e] with
[2^e <= |q| < 2^(e+1)]. *)
Definition exponent (q : Q) : Z :=
  let n := Z.abs (Qnum q) in
  let d := Z.pos (Qden q) in
  let e0 := Z.log2 n - Z.log2 d in
  if 2 ^ Z.max e0 0 * d <=? n * 2 ^ Z.max (- e0) 0 then e0 else e0 - 1.

(** Rounding to the nearest integer, ties to the even one. *)
Definition round_half_even (x : Q) : Z :=
  let f := Qfloor x in
  match (x - inject_Z f ?= 1 # 2)%Q with
  | Lt => f
  | Gt => f + 1
  | Eq => if Z.even f then f else f + 1
  end.

(** The exponent of the spacing of the doubles at [q]: 52 binary places
below the leading bit, and never below [2^-1074] (subnormal numbers). *)
Definition ulp_exponent (q : Q) : Z := Z.max (exponent q - 52) (-1074).

(** The double nearest to [q], ties to even (overflow apart). *)
Definition round_Q (q : Q) : Q :=
  if Qeq_bool q 0 then 0%Q
  else
    let u := ulp_exponent q in
    (inject_Z (round_half_even (q * pow2 (- u))) * pow2 u)%Q.

(** Rounding of an exact result; a magnitude that rounds to [2^1024]
overflows to an infinity. *)
Definition round (x : f64) : f64 :=
  match x with
  | Fin q =>
      let r := round_Q (this q) in
      if Qle_bool (pow2 1024) (Qabs r)
      then (if Qle_bool 0 r then PInf else NInf)
      else Fin (Q2Qc r)
  | _ => x
  end.

(** [x + y] and [x - y] on doubles. *)
Definition add (x y : f64) : f64 := round (F.add x y).
Definition sub (x y : f64) : f64 := round (F.sub x y).

(** C's [fmod(a, m)] for a positive [m]: the quotient is truncated, the
result has the sign of [a] and is exact. *)
Definition fmod_Q (a m : Q) : Q :=
  let t := (a / m)%Q in
  (a - m * inject_Z (Z.quot (Qnum t) (Z.pos (Qden t))))%Q.

(** [x % m] of numpy on doubles, for a positive [m]: [fmod], and one
rounded addition of [m] where the remainder is negative. *)
Definition remainder (x : f64) (m : Q) : f64 :=
  match x with
  | Fin a =>
      let r := fmod_Q (this a) m in
      if Qle_bool 0 r then Fin (Q2Qc r) else round (Fin (Q2Qc (r + m)))
  | _ => NaN
  end.

(** The numbers with at most 43 binary places.  Below 1024 in magnitude
they are doubles. *)
Definition dyadic (q : Q) : Prop :=
  ∃ k : Z, (q == inject_Z k / inject_Z (2 ^ 43))%Q.


End B64.
(** ** Exceedance counter (the counting lines of [temperature_index]) *)

Module Exceedance.

(** One label of the daily time axis. *)
Record date : Type := Date { d_year : Z; d_month : Z; d_day : Z }.

#[global] Instance date_eq_dec : EqDecision date.
Proof. solve_decision. Defined.

Definition is_leap (y : Z) : bool :=
  (y mod 4 =? 0) && (negb (y mod 100 =? 0) || (y mod 400 =? 0)).

Definition days_in_month (y m : Z) : Z :=
  match m with
  | 2 => if is_leap y then 29 else 28
  | 4 | 6 | 9 | 11 => 30
  | _ => 31
  end.

Definition valid_date (d : date) : Prop :=
  1 ≤ d_month d ≤ 12 ∧ 1 ≤ d_day d ≤ days_in_month (d_year d) (d_month d).

(** Chronological order of labels. *)
Definition date_leb (a b : date) : bool :=
  (d_year a <? d_year b)
  || ((d_year a =? d_year b)
      && ((d_month a <? d_month b)
          || ((d_month a =? d_month b) && (d_day a <=? d_day b)))).

(** A model field: one latitude-longitude field per label of the time
    axis. *)
Abbreviation field := (list (date * grid f64)) (only parsing).

Definition in_slice (lo hi : date) (s : date * grid f64) : bool :=
  date_leb lo s.1 && date_leb s.1 hi.

(** [tas_max.sel(valid_time=slice(f'{year}-01-01', f'{year}-12-31'))] on a
time axis in ascending order, as the model files have it: the steps
whose date lies between the two bounds.  (On an axis that is out of
order the label slice of the array library raises; that case is not
modelled.) *)
Definition sel_year (year : Z) (tas_max : field) : field :=
  filter (λ s, in_slice (Date year 1 1) (Date year 12 31) s) tas_max.

(** [tas_max_year > p95_hist]: the threshold is broadcast along time. *)
Definition gt (tas_max_year : field) (p95_hist : grid f64)
    : list (grid bool) :=
  (λ s, grid_zip_with F.gtb s.2 p95_hist) <$> tas_max_year.

Definition Z_of_bool (b : bool) : Z := if b then 1 else 0.

(** [.sum(dim='valid_time')] of a boolean field: an integer field on
    the latitude-longitude grid [like]. *)
Definition sum_time {A} (like : grid A) (flags : list (grid bool))
    : grid Z :=
  foldl (λ acc g, grid_zip_with Z.add acc (grid_map Z_of_bool g))
        (grid_map (λ _, 0) like) flags.

(** [excedance_count = (tas_max_year > p95_hist).sum(dim='valid_time')] *)
Definition excedance_count (tas_max_year : field) (p95_hist : grid f64)
    : grid Z :=
  sum_time p95_hist (gt tas_max_year p95_hist).

(** Does the day [s] exceed the threshold [t] at cell [(i, j)]? *)
Definition exceeds_at (i j : nat) (t : f64) (s : date * grid f64) : bool :=
  match cell s.2 i j with
  | Some v => F.gtb v t
  | None => false
  end.

(** All days of the calendar year [y]. *)
Definition year_dates (y : Z) : list date :=
  m ← seqZ 1 12; d ← seqZ 1 (days_in_month y m); [Date y m d].

(** The flag of a boolean field at one cell. *)
Definition flag_at (i j : nat) (g : grid bool) : bool :=
  default false (cell g i j).

(** Sample inputs: one cell, five days around the year 2025. *)
Definition sample_day (y m d : Z) (v : Z) : date * grid f64 :=
  (Date y m d, [[F.of_Z v]]).

Definition sample_field : field :=
  [ sample_day 2024 12 31 40; sample_day 2025 1 1 31;
    sample_day 2025 1 2 30; sample_day 2025 7 14 35;
    sample_day 2026 1 1 50 ].

(** Sample input with missing values: two cells, three days. *)
Definition nan_field : field :=
  [ (Date 2025 1 1, [[NaN; F.of_Z 31]]);
    (Date 2025 1 2, [[NaN; NaN]]);
    (Date 2025 1 3, [[NaN; F.of_Z 29]]) ].

End Exceedance.

(** ** Historical percentile engine ([calculate_historical_percentiles]) *)

Module Percentile.

(** A [t2m] array with dimensions (valid_time, latitude, longitude): the
sizes of the two spatial dimensions and one field per time step. *)
Record DataArray : Type := mkDataArray {
  lat_size : nat;
  lon_size : nat;
  time_steps : list (grid f64)
}.

(** The directory of yearly files [era5_t2m_max_day_<year>.nc]. *)
Abbreviation archive := (gmap Z DataArray) (only parsing).

(** [range(start, stop, step)]; a zero step raises [ValueError]. *)
Definition py_range (start stop step : Z) : option (list Z) :=
  if decide (step = 0) then None
  else if decide (0 < step)
    then Some ((λ k, start + k * step)
                 <$> seqZ 0 ((stop - start + step - 1) `div` step))
    else Some ((λ k, start + k * step)
                 <$> seqZ 0 ((start - stop - step - 1) `div` (- step))).

(** [data.isel(latitude=slice(lo, hi))] for non-negative bounds: rows
[lo] to [hi - 1], clipped to the rows there are. *)
Definition isel_latitude (lo hi : nat) (data : DataArray) : DataArray :=
  {| lat_size := (hi `min` lat_size data) - (lo `min` lat_size data);
     lon_size := lon_size data;
     time_steps := (λ g, take (hi - lo) (drop lo g)) <$> time_steps data |}.

(** [xr.concat(pieces, dim='valid_time')] of arrays on one grid; an empty
list of pieces raises [ValueError]. *)
Definition concat_time (pieces : list DataArray) : option DataArray :=
  match pieces with
  | [] => None
  | d :: _ =>
      Some {| lat_size := lat_size d;
              lon_size := lon_size d;
              time_steps := mjoin (time_steps <$> pieces) |}
  end.

(** Sorting of the defined values of a series. *)
Definition sort_values (xs : list f64) : list f64 :=
  merge_sort (λ x y, Is_true (F.leb x y)) xs.

(** Linear interpolation between the two neighbouring order statistics,
in the two-sided form of [numpy]. *)
Definition lerp (a b : f64) (t : Qc) : f64 :=
  let diff_b_a := F.sub b a in
  if bool_decide (Q2Qc (1 # 2) ≤ t)%Qc
  then F.sub b (F.mul diff_b_a (Fin (1 - t)%Qc))
  else F.add a (F.mul diff_b_a (Fin t)).

(** The quantile of one series, NaN skipped: sort, take the virtual
index [q * (n - 1)], interpolate linearly between the order statistics
around it.  A series without a defined value gives NaN. *)
Definition quantile (q : Qc) (series : list f64) : f64 :=
  let arr := sort_values (filter (λ x, F.isnan x = false) series) in
  let n := length arr in
  match n with
  | O => NaN
  | S m =>
      let virtual_index := (q * Q2Qc (inject_Z (Z.of_nat m)))%Qc in
      let previous := Z.to_nat (Qfloor virtual_index) in
      let gamma := (virtual_index - Q2Qc (inject_Z (Qfloor virtual_index)))%Qc in
      lerp (arr !!! previous) (arr !!! ((previous + 1) `min` m)%nat) gamma
  end.

(** The series of cell [(i, j)] along the time axis. *)
Definition series_at (steps : list (grid f64)) (i j : nat) : list f64 :=
  (λ g, default NaN (cell g i j)) <$> steps.

(** [temporal_data.quantile(0.95, dim='valid_time')]: a field on the
latitude-longitude grid of the array.  (For an array without rows,
columns or days the array library raises; that case is not
modelled.) *)
Definition quantile_time (q : Qc) (data : DataArray) : grid f64 :=
  (λ i, (λ j, quantile q (series_at (time_steps data) i j))
          <$> seq 0 (lon_size data))
    <$> seq 0 (lat_size data).

(** [xr.concat(p95_bands, dim='latitude')]; no band raises. *)
Definition concat_latitude (bands : list (grid f64)) : option (grid f64) :=
  match bands with
  | [] => None
  | _ => Some (mjoin bands)
  end.

Definition p95 : Qc := Q2Qc (95 # 100).

(** The loop over the years of one band: load the band of every yearly
file.  A missing file raises. *)
Definition load_band (files : archive) (years : list Z) (lat step : Z)
    : option (list DataArray) :=
  mapM (λ year,
          data ← files !! year;
          Some (isel_latitude (Z.to_nat lat) (Z.to_nat (lat + step)) data))
       years.

(** [calculate_historical_percentiles(data_path, years, step)]: the field
written to [era5_t2m_max_<first>-<last>_p95.nc], or [None] where the
program raises. *)
Definition calculate_historical_percentiles
    (files : archive) (years : list Z) (step : Z) : option (grid f64) :=
  lats ← py_range 0 720 step;
  p95_bands ← mapM (λ lat,
                      temporal_lat_data ← load_band files years lat step;
                      temporal_data ← concat_time temporal_lat_data;
                      Some (quantile_time p95 temporal_data))
                   lats;
  concat_latitude p95_bands.

(** The single-pass computation the specification compares with: all
years concatenated along time, then the 95th percentile of every cell's
full series. *)
Definition single_pass_percentiles
    (files : archive) (years : list Z) : option (grid f64) :=
  all_years ← mapM (λ year, files !! year) years;
  temporal_data ← concat_time all_years;
  Some (quantile_time p95 temporal_data).

(** Sample archive: two years, three days in all, a 720 x 1 grid whose
value at latitude row [i] on day [d] is [d * 1000 + i]. *)
Definition sample_year (days : list Z) : DataArray :=
  {| lat_size := 720; lon_size := 1;
     time_steps :=
       (λ d, (λ i, [F.of_Z (d * 1000 + i)]) <$> seqZ 0 720) <$> days |}.

Definition sample_files : archive :=
  <[1995 := sample_year [1; 2]]> (<[1996 := sample_year [3]]> ∅).

End Percentile.

(** ** Strings and the regular expressions of the program *)

(** A Python [str] is a list of characters. *)
Abbreviation str := (list ascii) (only parsing).

Definition lit (s : string) : str := list_ascii_of_string s.

Module Re.

(** What one pattern position accepts: a given character, [\d], or [.]
(anything but a newline). *)
Inductive cclass : Type :=
| CChar (c : ascii)
| CDigit
| CAny.

Definition is_digit (a : ascii) : bool :=
  let n := nat_of_ascii a in (48 <=? n)%nat && (n <=? 57)%nat.

Definition newline : ascii := ascii_of_nat 10.

Definition cmatch (c : cclass) (a : ascii) : bool :=
  match c with
  | CChar b => bool_decide (a = b)
  | CDigit => is_digit a
  | CAny => negb (bool_decide (a = newline))
  end.

(** The fragment of [re] syntax the program uses.  [Star true c] is the
greedy [c*], [Star false c] the lazy [c*?]; [Group] is a capturing
group. *)
Inductive regex : Type :=
| Eps
| Lit (c : cclass)
| Seq (r1 r2 : regex)
| Star (greedy : bool) (c : cclass)
| Group (r : regex).

Definition Plus (greedy : bool) (c : cclass) : regex :=
  Seq (Lit c) (Star greedy c).

Fixpoint Repeat (n : nat) (r : regex) : regex :=
  match n with
  | O => Eps
  | S n => Seq r (Repeat n r)
  end.

Fixpoint Str (s : str) : regex :=
  match s with
  | [] => Eps
  | a :: s => Seq (Lit (CChar a)) (Str s)
  end.

(** Backtracking over a starred class: the greedy star first tries to
take one more character and falls back to the rest of the pattern [k];
the lazy star tries [k] first. *)
Fixpoint star {R} (greedy : bool) (c : cclass) (k : str → option R) (s : str)
    : option R :=
  match s with
  | [] => k []
  | a :: s' =>
      if greedy then
        if cmatch c a then
          match star greedy c k s' with
          | Some r => Some r
          | None => k s
          end
        else k s
      else
        match k s with
        | Some r => Some r
        | None => if cmatch c a then star greedy c k s' else None
        end
  end.

(** [mtch r s caps k]: match [r] at the start of [s], then continue with
[k] on the rest; [caps] are the groups captured so far, in order. *)
Fixpoint mtch (r : regex) (s : str) (caps : list str)
    (k : str → list str → option (list str)) : option (list str) :=
  match r with
  | Eps => k s caps
  | Lit c =>
      match s with
      | a :: s' => if cmatch c a then k s' caps else None
      | [] => None
      end
  | Seq r1 r2 => mtch r1 s caps (λ s' caps', mtch r2 s' caps' k)
  | Star greedy c => star greedy c (λ s', k s' caps) s
  | Group r0 =>
      mtch r0 s caps
        (λ s' caps', k s' (caps' ++ [take (length s - length s') s]))
  end.

Definition match_here (r : regex) (s : str) : option (list str) :=
  mtch r s [] (λ _ caps, Some caps).

(** [re.search(r, s)]: the match at the leftmost position that has one;
the result lists [group(1)], [group(2)], ... *)
Fixpoint search (r : regex) (s : str) : option (list str) :=
  match match_here r s with
  | Some caps => Some caps
  | None =>
      match s with
      | [] => None
      | _ :: s' => search r s'
      end
  end.

(** The pattern of [get_region_values]: the text [day_], a group of any
characters (greedy), the text [_r]. *)
Definition model_name_pattern : regex :=
  Seq (Str (lit "day_")) (Seq (Group (Star true CAny)) (Str (lit "_r"))).

(** The pattern of [temperature_index]: an underscore, a group of eight
digits, a hyphen, a group of eight digits. *)
Definition date_range_pattern : regex :=
  Seq (Str (lit "_"))
    (Seq (Group (Repeat 8 (Lit CDigit)))
       (Seq (Str (lit "-")) (Group (Repeat 8 (Lit CDigit))))).

(** The pattern of the summary step: group [year] of four digits, an
underscore, group [model] of one or more characters (lazy), an
underscore, group [scenario] of one or more characters (greedy). *)
Definition column_pattern : regex :=
  Seq (Group (Repeat 4 (Lit CDigit)))
    (Seq (Str (lit "_"))
       (Seq (Group (Plus false CAny))
          (Seq (Str (lit "_")) (Group (Plus true CAny))))).

End Re.

(** ** Formatting and parsing of integers *)

Definition digit_char (d : Z) : ascii := ascii_of_nat (48 + Z.to_nat d).

Fixpoint format_digits (fuel : nat) (n : Z) (acc : str) : str :=
  let acc' := digit_char (n `mod` 10) :: acc in
  match fuel with
  | O => acc'
  | S fuel => if n `div` 10 =? 0 then acc' else format_digits fuel (n `div` 10) acc'
  end.

(** [f'{n}'] for an integer [n]. *)
Definition format_int (n : Z) : str :=
  if n <? 0 then lit "-" ++ format_digits (Z.to_nat (Z.log2 (- n))) (- n) []
  else format_digits (Z.to_nat (Z.log2 n)) n [].

(** [int(s)] for a string of decimal digits. *)
Definition int_of_digits (s : str) : Z :=
  foldl (λ acc a, 10 * acc + (Z.of_nat (nat_of_ascii a) - 48)) 0 s.

(** ** File names of the model archive *)

Module FileName.

Definition underscore : ascii := ascii_of_nat 95.

(** Characters of the name parts: letters, digits and the hyphen. *)
Definition is_name_char (a : ascii) : bool :=
  let n := nat_of_ascii a in
  Re.is_digit a
  || ((65 <=? n)%nat && (n <=? 90)%nat)
  || ((97 <=? n)%nat && (n <=? 122)%nat)
  || (n =? 45)%nat.

(** The documented convention
[tasmax_day_{model name}_{scenario}_{variant label}_{grid label}_{start date}-{end date}.nc]:
the file name built from its parts. *)
Definition file_name (model scenario variant grid start_date end_date : str)
    : str :=
  lit "tasmax_day_" ++ model ++ lit "_" ++ scenario ++ lit "_" ++ variant
    ++ lit "_" ++ grid ++ lit "_" ++ start_date ++ lit "-" ++ end_date
    ++ lit ".nc".

(** The parts of a conventional name: model and scenario are non-empty
words of name characters; the variant label is a word starting with [r],
the grid label a word starting with [g]; the dates are eight digits. *)
Record conventional (model scenario variant grid start_date end_date : str)
    : Prop := {
  conv_model : model ≠ [] ∧ Forall (λ a, is_name_char a = true) model;
  conv_scenario :
    scenario ≠ [] ∧ Forall (λ a, is_name_char a = true) scenario;
  conv_variant :
    ∃ v, variant = lit "r" ++ v ∧ Forall (λ a, is_name_char a = true) v;
  conv_grid :
    ∃ g, grid = lit "g" ++ g ∧ Forall (λ a, is_name_char a = true) g;
  conv_start :
    length start_date = 8%nat ∧ Forall (λ a, Re.is_digit a = true) start_date;
  conv_end :
    length end_date = 8%nat ∧ Forall (λ a, Re.is_digit a = true) end_date
}.

(** Does the text [_r] occur in [s]? *)
Fixpoint has_underscore_r (s : str) : bool :=
  match s with
  | [] => false
  | a :: s' =>
      (bool_decide (a = underscore)
       && match s' with
          | b :: _ => bool_decide (b = ascii_of_nat 114)
          | [] => false
          end)
      || has_underscore_r s'
  end.

(** Is [f'{y}'] a string of exactly four digits? *)
Definition four_digits (y : Z) : bool :=
  match format_int y with
  | [a; b; c; d] =>
      Re.is_digit a && Re.is_digit b && Re.is_digit c && Re.is_digit d
  | _ => false
  end.

End FileName.

(** ** Region aggregator ([get_region_values]) *)

Module Region.

(** One row of [regions_df]. *)
Record row : Type := mkRow {
  IMAGE_region : f64;
  T95 : Z;
  population : f64
}.

(** [Series.sum()]: missing values are skipped; the sum of nothing is 0. *)
Definition pd_sum (xs : list f64) : f64 :=
  foldl F.add F.zero (filter (λ x, F.isnan x = false) xs).

(** The function applied to every group:
[(x['T95'] * x['population']).sum() / x['population'].sum()] *)
Definition weighted_mean (x : list row) : f64 :=
  F.div (pd_sum ((λ r, F.mul (F.of_Z (T95 r)) (population r)) <$> x))
        (pd_sum (population <$> x)).

(** [pd.DataFrame({...})] of three columns; columns of different lengths
raise [ValueError]. *)
Definition make_frame (region_array : list f64) (excedance_array : list Z)
    (pop_array : list f64) : option (list row) :=
  if decide (length excedance_array = length region_array
             ∧ length pop_array = length region_array)
  then Some (zip_with (λ r ep, mkRow r ep.1 ep.2) region_array
               (zip excedance_array pop_array))
  else None.

(** The keys of [groupby]: the distinct values of the key column, in
ascending order. *)
Definition group_keys (df : list row) : list f64 :=
  merge_sort (λ x y, Is_true (F.leb x y)) (remove_dups (IMAGE_region <$> df)).

(** [df.groupby('IMAGE_region').apply(f)]: one value per key. *)
Definition groupby_apply (f : list row → f64) (df : list row)
    : list (f64 * f64) :=
  (λ k, (k, f (filter (λ r, IMAGE_region r = k) df))) <$> group_keys df.

(** The result of [get_region_values]: a frame with the column
[IMAGE_region] and one value column. *)
Record RegionTable : Type := mkRegionTable {
  value_name : str;
  region_rows : list (f64 * f64)
}.

(** [re.search(..., model_file).group(1)]; no match raises. *)
Definition model_name (model_file : str) : option str :=
  Re.search Re.model_name_pattern model_file ≫= head.

(** [get_region_values(excedance_count, pop_year, region_mask, model_file, year)].
Where no cell has a region the frame has no row left: [groupby.apply]
then returns a frame instead of a series, and [reset_index(name=...)]
raises [TypeError]. *)
Definition get_region_values (excedance_count : grid Z)
    (pop_year region_mask : grid f64) (model_file : str) (year : Z)
    : option RegionTable :=
  model_name ← model_name model_file;
  let region_array := flatten region_mask in
  let excedance_array := flatten excedance_count in
  let pop_array := flatten pop_year in
  regions_df ← make_frame region_array excedance_array pop_array;
  let regions_df :=
    filter (λ r, F.isnan (IMAGE_region r) = false) regions_df in
  match regions_df with
  | [] => None
  | _ =>
      Some {| value_name := format_int year ++ lit "_" ++ model_name;
              region_rows := groupby_apply weighted_mean regions_df |}
  end.

(** *** The aggregation as the specification words it *)

(** The positions of the flattened mask that carry the region [k]. *)
Definition region_positions (region_array : list f64) (k : f64) : list nat :=
  filter (λ i, region_array !! i = Some k) (seq 0 (length region_array)).

(** [sum(exceedance_i * population_i) / sum(population_i)] over the
given positions. *)
Definition population_weighted_mean (excedance_array : list Z)
    (pop_array : list f64) (positions : list nat) : f64 :=
  F.div
    (pd_sum ((λ i, F.mul (F.of_Z (excedance_array !!! i)) (pop_array !!! i))
               <$> positions))
    (pd_sum ((λ i, pop_array !!! i) <$> positions)).

(** The total population of a region. *)
Definition total_population (region_array pop_array : list f64) (k : f64)
    : f64 :=
  pd_sum ((λ i, pop_array !!! i) <$> region_positions region_array k).

Definition not_negative (x : f64) : Prop := F.ltb x F.zero = false.

(** *** Sample inputs *)

Definition sample_file : str :=
  lit "tasmax_day_ACCESS-CM2_ssp126_r1i1p1f1_gn_20150101-21001231.nc".

(** Region 1 has the two cells of the specification's example; one cell
has no region; region 2 has two unpopulated cells. *)
Definition sample_mask : grid f64 :=
  [[F.of_Z 1; NaN; F.of_Z 2]; [F.of_Z 2; F.of_Z 1; NaN]].
Definition sample_count : grid Z := [[5; 7; 3]; [4; 15; 9]].
Definition sample_pop : grid f64 :=
  [[F.of_Z 10; F.of_Z 99; F.of_Z 0]; [F.of_Z 0; F.of_Z 30; F.of_Z 1]].

(** The group of the specification's example. *)
Definition example_group : list row :=
  [mkRow (F.of_Z 1) 5 (F.of_Z 10); mkRow (F.of_Z 1) 15 (F.of_Z 30)].

End Region.

(** ** Grid alignment ([align_data], [homogenize_lat_lon]) *)

Module Align.

(** The values of one coordinate: time labels, or numbers. *)
Inductive coord : Type :=
| Times (ts : list Exceedance.date)
| Numbers (xs : list f64).

(** A data array with three dimensions: the names of the dimensions in
the order of the axes of [values], the coordinates by name (a dimension
coordinate carries the name of its dimension), and the values. *)
Record DataArray : Type := mkDataArray {
  dims : list str;
  coords : list (str * coord);
  values : list (grid f64)
}.

(** [data.coords[name]]; a missing name raises [KeyError]. *)
Fixpoint lookup_coord (name : str) (cs : list (str * coord)) : option coord :=
  match cs with
  | [] => None
  | (n, c) :: cs' => if decide (n = name) then Some c else lookup_coord name cs'
  end.

(** Assignment to one coordinate. *)
Fixpoint assign_coord (name : str) (c : coord) (cs : list (str * coord))
    : list (str * coord) :=
  match cs with
  | [] => [(name, c)]
  | (n, c0) :: cs' =>
      if decide (n = name) then (n, c) :: cs'
      else (n, c0) :: assign_coord name c cs'
  end.

(** *** Coordinate names *)

Definition lat_names : list str :=
  [lit "lat"; lit "Lat"; lit "LAT"; lit "nav_lat"; lit "lat_bnds"].
Definition lon_names : list str :=
  [lit "lon"; lit "Lon"; lit "LON"; lit "nav_lon"; lit "lon_bnds"].
Definition time_names : list str :=
  [lit "time"; lit "Time"; lit "time_bnds"].

Definition new_lat : str := lit "latitude".
Definition new_lon : str := lit "longitude".
Definition new_time : str := lit "valid_time".

(** One turn of the loop over [ds.coords] that fills [rename_dict]. *)
Definition rename_step (rename_dict : gmap str str) (name : str)
    : gmap str str :=
  if decide (name ∈ lat_names) then <[name := new_lat]> rename_dict
  else if decide (name ∈ lon_names) then <[name := new_lon]> rename_dict
  else if decide (name ∈ time_names) then <[name := new_time]> rename_dict
  else rename_dict.

Definition build_rename_dict (ds : DataArray) : gmap str str :=
  foldl rename_step ∅ (coords ds).*1.

(** [ds.rename(name_dict)]: names outside the dictionary stay; two
variables that end up with one name raise [ValueError]. *)
Definition rename (name_dict : gmap str str) (ds : DataArray)
    : option DataArray :=
  let new_name := λ k, default k (name_dict !! k) in
  if decide (NoDup (new_name <$> (coords ds).*1))
  then Some {| dims := new_name <$> dims ds;
               coords := prod_map new_name id <$> coords ds;
               values := values ds |}
  else None.

(** [homogenize_lat_lon(ds)] with its default target names. *)
Definition homogenize_lat_lon (ds : DataArray) : option DataArray :=
  rename (build_rename_dict ds) ds.

(** The name the specification gives a coordinate: the canonical name of
its axis for a known synonym, the name itself otherwise. *)
Definition canonical_name (name : str) : str :=
  if decide (name ∈ lat_names) then new_lat
  else if decide (name ∈ lon_names) then new_lon
  else if decide (name ∈ time_names) then new_time
  else name.

Definition is_synonym (name : str) : Prop :=
  name ∈ lat_names ∨ name ∈ lon_names ∨ name ∈ time_names.

(** *** Longitude convention *)

(** [a mod m] on exact numbers (floored quotient), for a positive [m]. *)
Definition py_mod (a m : Q) : Q := (a - m * inject_Z (Qfloor (a / m)))%Q.

Definition fmod (x : f64) (m : Q) : f64 :=
  match x with
  | Fin a => Fin (Q2Qc (py_mod a m))
  | _ => NaN
  end.

(** The formula of the specification, [((lon + 180) mod 360) - 180], on
exact numbers. *)
Definition wrap_longitude_exact (lon : f64) : f64 :=
  F.sub (fmod (F.add lon (F.of_Z 180)) 360) (F.of_Z 180).

(** [(lon + 180) % 360 - 180] as the program computes it, on doubles:
every operation rounds. *)
Definition wrap_longitude (lon : f64) : f64 :=
  B64.sub (B64.remainder (B64.add lon (F.of_Z 180)) 360) (F.of_Z 180).

(** Longitudes on which the doubles carry the formula out exactly:
multiples of [2^-43] degrees between -540 and 540 (the grids with a
spacing of whole, half, quarter, ... degrees). *)
Definition exact_longitude (x : f64) : bool :=
  match x with
  | Fin a =>
      (2 ^ 43 mod Z.pos (Qden (this a)) =? 0)
      && Qle_bool (inject_Z (-540)) (this a)
      && Qle_bool (this a) (inject_Z 540)
  | _ => false
  end.

(** The order of sorting: ascending, NaN last. *)
Definition sort_le (x y : f64) : bool :=
  match y with
  | NaN => true
  | _ => match x with NaN => false | _ => F.leb x y end
  end.

Fixpoint insert_key (x : f64 * nat) (l : list (f64 * nat))
    : list (f64 * nat) :=
  match l with
  | [] => [x]
  | y :: l' => if sort_le x.1 y.1 then x :: l else y :: insert_key x l'
  end.

Definition key_le (p q : f64 * nat) : Prop := sort_le p.1 q.1.

(** Stable sorting of the keys together with their positions. *)
Definition sort_keys (keys : list f64) : list (f64 * nat) :=
  foldr insert_key [] (zip keys (seq 0 (length keys))).

(** The positions of the keys in ascending order. *)
Definition argsort (keys : list f64) : list nat := (sort_keys keys).*2.

(** Selection of the given positions. *)
Definition take_along {A} `{!Inhabited A} (positions : list nat) (l : list A)
    : list A :=
  (λ i, l !!! i) <$> positions.

(** Selection of positions along one axis of the values. *)
Definition permute_axis (axis : nat) (positions : list nat)
    (vals : list (grid f64)) : list (grid f64) :=
  match axis with
  | 0%nat => take_along positions vals
  | 1%nat => take_along positions <$> vals
  | 2%nat => (fmap (M:=list) (take_along positions)) <$> vals
  | _ => vals
  end.

Definition numbers (c : coord) : option (list f64) :=
  match c with Numbers xs => Some xs | Times _ => None end.

(** The position of a dimension among the axes. *)
Definition axis_of (name : str) (ds : DataArray) : option nat :=
  fst <$> list_find (λ d, d = name) (dims ds).

(** [data.sortby(name)] for a numeric dimension coordinate. *)
Definition sortby (name : str) (data : DataArray) : option DataArray :=
  c ← lookup_coord name (coords data);
  keys ← numbers c;
  axis ← axis_of name data;
  let positions := argsort keys in
  Some {| dims := dims data;
          coords := assign_coord name (Numbers (take_along positions keys))
                      (coords data);
          values := permute_axis axis positions (values data) |}.

(** [data.assign_coords(longitude=((data.coords['longitude'] + 180) % 360 - 180)).sortby("longitude")] *)
Definition shift_longitude (data : DataArray) : option DataArray :=
  c ← lookup_coord new_lon (coords data);
  lons ← numbers c;
  sortby new_lon
    {| dims := dims data;
       coords := assign_coord new_lon (Numbers (wrap_longitude <$> lons))
                   (coords data);
       values := values data |}.

(** [data - 273.15] *)
Definition to_celsius (data : DataArray) : DataArray :=
  {| dims := dims data;
     coords := coords data;
     values := (fmap (M:=list) (fmap (M:=list)
                  (λ v, F.sub v (F.of_Q (27315 # 100))))) <$> values data |}.

Definition align_data (data : DataArray)
    (celsius longitude_shift standar_names : bool) : option DataArray :=
  let data := if celsius then to_celsius data else data in
  data ← (if standar_names then homogenize_lat_lon data else Some data);
  if longitude_shift then shift_longitude data else Some data.

(** The length of the values along an axis is [n]. *)
Definition axis_length (axis n : nat) (vals : list (grid f64)) : Prop :=
  match axis with
  | 0%nat => length vals = n
  | 1%nat => Forall (λ g, length g = n) vals
  | 2%nat => Forall (Forall (λ r, length r = n)) vals
  | _ => True
  end.

(** Sample: a model file on a 0..360 grid with CMIP-style names. *)
Definition sample_data : DataArray :=
  {| dims := [lit "time"; lit "lat"; lit "lon"];
     coords := [ (lit "time", Times [Exceedance.Date 2025 1 1;
                                     Exceedance.Date 2025 1 2]);
                 (lit "lat", Numbers [F.of_Z (-45); F.of_Z 45]);
                 (lit "lon", Numbers [F.of_Z 0; F.of_Z 90; F.of_Z 180;
                                      F.of_Z 270]);
                 (lit "height", Numbers [F.of_Z 2]) ];
     values := [ [[F.of_Z 300; F.of_Z 301; F.of_Z 302; F.of_Z 303];
                  [F.of_Z 310; F.of_Z 311; F.of_Z 312; F.of_Z 313]];
                 [[F.of_Z 320; F.of_Z 321; F.of_Z 322; F.of_Z 323];
                  [F.of_Z 330; F.of_Z 331; F.of_Z 332; F.of_Z 333]] ] |}.

(** The sample under the canonical names, and after the longitude shift. *)
Definition sample_named : DataArray :=
  {| dims := [new_time; new_lat; new_lon];
     coords := [ (new_time, Times [Exceedance.Date 2025 1 1;
                                   Exceedance.Date 2025 1 2]);
                 (new_lat, Numbers [F.of_Z (-45); F.of_Z 45]);
                 (new_lon, Numbers [F.of_Z 0; F.of_Z 90; F.of_Z 180;
                                    F.of_Z 270]);
                 (lit "height", Numbers [F.of_Z 2]) ];
     values := values sample_data |}.

Definition sample_shifted : DataArray :=
  {| dims := [new_time; new_lat; new_lon];
     coords := [ (new_time, Times [Exceedance.Date 2025 1 1;
                                   Exceedance.Date 2025 1 2]);
                 (new_lat, Numbers [F.of_Z (-45); F.of_Z 45]);
                 (new_lon, Numbers [F.of_Z (-180); F.of_Z (-90); F.of_Z 0;
                                    F.of_Z 90]);
                 (lit "height", Numbers [F.of_Z 2]) ];
     values := [ [[F.of_Z 302; F.of_Z 303; F.of_Z 300; F.of_Z 301];
                  [F.of_Z 312; F.of_Z 313; F.of_Z 310; F.of_Z 311]];
                 [[F.of_Z 322; F.of_Z 323; F.of_Z 320; F.of_Z 321];
                  [F.of_Z 332; F.of_Z 333; F.of_Z 330; F.of_Z 331]] ] |}.


End Align.

(** ** Tables ([pandas.DataFrame]) *)

Module Frame.

(** A frame of numbers: the index with its name, and the columns in
order. *)
Record DataFrame : Type := mkDataFrame {
  index_name : option str;
  index : list f64;
  columns : list (str * list f64)
}.

Definition column_names (df : DataFrame) : list str := (columns df).*1.

(** [df[name]]; a missing column raises [KeyError]. *)
Fixpoint lookup_column (name : str) (cols : list (str * list f64))
    : option (list f64) :=
  match cols with
  | [] => None
  | (n, c) :: cols' =>
      if decide (n = name) then Some c else lookup_column name cols'
  end.

Definition key_name : str := lit "IMAGE_region".

(** The value of the row with key [k], missing where there is no such
row. *)
Fixpoint pick (keys vals : list f64) (k : f64) : f64 :=
  match keys, vals with
  | k' :: keys', v :: vals' => if decide (k' = k) then v else pick keys' vals' k
  | _, _ => NaN
  end.

(** The keys of an outer join: the union of the keys of both sides in
ascending order. *)
Definition outer_keys (left_keys right_keys : list f64) : list f64 :=
  merge_sort (λ x y, Is_true (F.leb x y)) (remove_dups (left_keys ++ right_keys)).

(** [left.merge(right, on='IMAGE_region', how='outer')] where [right] is
the two-column frame of [get_region_values] and the keys of each side are
distinct.  The key of [left] is its column [IMAGE_region], or else its
index of that name; the result has the key as a column and a fresh
index.  A value column whose name [left] has already gets the suffixes
[_x] and [_y]. *)
Definition merge_outer (left : DataFrame) (right : Region.RegionTable)
    : option DataFrame :=
  let value := Region.value_name right in
  let right_keys := (Region.region_rows right).*1 in
  let right_vals := (Region.region_rows right).*2 in
  left_keys ← match lookup_column key_name (columns left) with
              | Some ks => Some ks
              | None =>
                  if decide (index_name left = Some key_name)
                  then Some (index left) else None
              end;
  let keys := outer_keys left_keys right_keys in
  let clash := bool_decide (value ∈ column_names left) in
  let left_cols :=
    (λ c, if decide (c.1 = key_name) then (c.1, keys)
          else (if decide (c.1 = value) then c.1 ++ lit "_x" else c.1,
                pick left_keys c.2 <$> keys)) <$> columns left in
  let key_col :=
    if decide (key_name ∈ column_names left) then [] else [(key_name, keys)] in
  Some {| index_name := None;
          index := F.of_Z <$> seqZ 0 (Z.of_nat (length keys));
          columns := left_cols ++ key_col
                     ++ [(if clash then value ++ lit "_y" else value,
                          pick right_keys right_vals <$> keys)] |}.

(** [pd.DataFrame(index=pd.Index(np.arange(1, 28, 1.), name='IMAGE_region'))] *)
Definition empty_regions_frame : DataFrame :=
  {| index_name := Some key_name;
     index := F.of_Z <$> seqZ 1 27;
     columns := [] |}.

End Frame.

(** ** Exceedance index of one model file ([temperature_index]) *)

Module TemperatureIndex.
Import Frame.

(** A field on a latitude-longitude grid with its coordinates. *)
Record Field2D : Type := mkField2D {
  f_latitude : list f64;
  f_longitude : list f64;
  f_values : grid f64
}.

(** A field with a time axis (the population and the region files). *)
Record Field3D : Type := mkField3D {
  t_time : list Exceedance.date;
  t_latitude : list f64;
  t_longitude : list f64;
  t_values : list (grid f64)
}.

(** The files the program reads: [p95.nc], the directory of model files
(the [tasmax] variable of each), [GPOP_SSP1_M.nc], [GREG.nc] and the
column [Region] of [IMAGE_regions.csv].  [None] is a missing file. *)
Record Files : Type := mkFiles {
  p95_file : option Field2D;
  model_dir : list (str * Align.DataArray);
  pop_file : option Field3D;
  greg_file : option Field3D;
  region_names : option (list (Z * str))
}.

Fixpoint open_model (name : str) (dir : list (str * Align.DataArray))
    : option Align.DataArray :=
  match dir with
  | [] => None
  | (n, d) :: dir' => if decide (n = name) then Some d else open_model name dir'
  end.

(** A loop whose body can raise. *)
Fixpoint for_each {S A} (body : S → A → option S) (state : S) (l : list A)
    : option S :=
  match l with
  | [] => Some state
  | x :: l' => state' ← body state x; for_each body state' l'
  end.

Section temperature_index.

(** The operations of the array library whose results the program only
passes on: [.interp(longitude=..., latitude=...)] (linear and nearest),
[.sel(time=..., method='nearest')] and [.mean(dim='time')]. *)
Variable interp : Field2D → list f64 → list f64 → Field2D.
Variable interp_nearest : Field3D → list f64 → list f64 → Field3D.
Variable sel_nearest : Field3D → Z → Field2D.
Variable mean_time : Field3D → Field2D.

Variable files : Files.

(** [pop_and_regions(file_path, scenario, year, tas_max)] *)
Definition pop_and_regions (year : Z) (longitude latitude : list f64)
    : option (Field2D * Field2D) :=
  pop ← pop_file files;
  let pop_year := sel_nearest pop year in
  let pop_year := interp pop_year longitude latitude in
  greg ← greg_file files;
  let greg := interp_nearest greg longitude latitude in
  let greg := mean_time greg in
  Some (pop_year, greg).

(** The time steps of an aligned array with their labels; the array has
the dimensions (valid_time, latitude, longitude). *)
Definition time_steps (tas_max : Align.DataArray)
    : option (list (Exceedance.date * grid f64)) :=
  if decide (Align.dims tas_max
             = [Align.new_time; Align.new_lat; Align.new_lon])
  then
    match Align.lookup_coord Align.new_time (Align.coords tas_max) with
    | Some (Align.Times ts) => Some (zip ts (Align.values tas_max))
    | _ => None
    end
  else None.

Definition coordinate (name : str) (tas_max : Align.DataArray)
    : option (list f64) :=
  Align.lookup_coord name (Align.coords tas_max) ≫= Align.numbers.

(** The covered years: [np.arange(start_year, end_year + 1)] from the two
dates of the file name. *)
Definition year_range (model_file_name : str) : option (list Z) :=
  groups ← Re.search Re.date_range_pattern model_file_name;
  g1 ← groups !! 0%nat;
  g2 ← groups !! 1%nat;
  let start_year := int_of_digits (take 4 g1) in
  let end_year := int_of_digits (take 4 g2) in
  Some (seqZ start_year (end_year + 1 - start_year)).

(** One turn of the loop over [years]; the state is [final_data] and
[p95_hist]. *)
Definition index_year (tas_max : Align.DataArray) (year_range : list Z)
    (model_file_name : str) (state : DataFrame * Field2D) (year : Z)
    : option (DataFrame * Field2D) :=
  let '(final_data, p95_hist) := state in
  if decide (year ∈ year_range) then
    steps ← time_steps tas_max;
    let tas_max_year := Exceedance.sel_year year steps in
    longitude ← coordinate Align.new_lon tas_max;
    latitude ← coordinate Align.new_lat tas_max;
    let p95_hist := interp p95_hist longitude latitude in
    let excedance_count :=
      Exceedance.excedance_count tas_max_year (f_values p95_hist) in
    '(population, image_regions) ← pop_and_regions year longitude latitude;
    final_regions ← Region.get_region_values excedance_count
                      (f_values population) (f_values image_regions)
                      model_file_name year;
    final_data ← merge_outer final_data final_regions;
    Some (final_data, p95_hist)
  else Some state.

(** [temperature_index(years, model_path, data_path, pop_file, final_data, model_file_name)].
The function returns [final_data] and the loop variable [year]; with no
year to loop over the variable is unbound and the [return] raises. *)
Definition temperature_index (years : list Z) (final_data : DataFrame)
    (model_file_name : str) : option (DataFrame * Z) :=
  p95_hist ← p95_file files;
  tas_max ← open_model model_file_name (model_dir files);
  tas_max ← Align.align_data tas_max true true true;
  year_range ← year_range model_file_name;
  state ← for_each (index_year tas_max year_range model_file_name)
             (final_data, p95_hist) years;
  year ← last years;
  Some (state.1, year).

End temperature_index.

End TemperatureIndex.

(** ** Multi-model summary ([temperature_index_all_models]) *)

Module Summary.
Import Frame TemperatureIndex.

(** The final table: region identifiers, region names, and the summary
columns. *)
Record SummaryTable : Type := mkSummaryTable {
  st_index : list Z;
  st_region : list str;
  st_columns : list (str * list f64)
}.

(** [glob] pattern [tasmax_day_*.nc] on a file name. *)
Definition glob_match (name : str) : bool :=
  bool_decide (lit "tasmax_day_" `prefix_of` name)
  && bool_decide (lit ".nc" `suffix_of` name)
  && (length (lit "tasmax_day_") + length (lit ".nc") <=? length name)%nat.

(** One row of [columns.str.extract(...)]: the three groups, or nothing
where the column name does not match. *)
Definition parse_column (name : str) : option (str * str * str) :=
  match Re.search Re.column_pattern name with
  | Some [year; model; scenario] => Some (year, model, scenario)
  | _ => None
  end.

(** [column_info['year'].astype(str) + '_' + column_info['scenario'].astype(str)];
a missing entry prints as [nan]. *)
Definition group_key (info : option (str * str * str)) : str :=
  match info with
  | Some (year, _, scenario) => year ++ lit "_" ++ scenario
  | None => lit "nan" ++ lit "_" ++ lit "nan"
  end.

(** [Series.unique()]: the distinct values in order of appearance. *)
Fixpoint unique_from (seen : list str) (l : list str) : list str :=
  match l with
  | [] => []
  | x :: l' =>
      if decide (x ∈ seen) then unique_from seen l'
      else x :: unique_from (x :: seen) l'
  end.

Definition unique (l : list str) : list str := unique_from [] l.

Definition count (xs : list f64) : f64 := F.of_Z (Z.of_nat (length xs)).

(** [mean] of a row, missing values skipped. *)
Definition mean (xs : list f64) : f64 :=
  let ys := filter (λ x, F.isnan x = false) xs in
  match ys with
  | [] => NaN
  | _ => F.div (Region.pd_sum ys) (count ys)
  end.

Section summary.

(** The square root of doubles. *)
Variable fsqrt : f64 → f64.

(** [std] of a row: sample standard deviation, missing values skipped,
NaN for fewer than two values. *)
Definition std (xs : list f64) : f64 :=
  let ys := filter (λ x, F.isnan x = false) xs in
  if (length ys <? 2)%nat then NaN
  else
    let m := mean ys in
    fsqrt (F.div (Region.pd_sum ((λ y, F.mul (F.sub y m) (F.sub y m)) <$> ys))
                 (F.sub (count ys) (F.of_Z 1))).

(** [models_data[cols_in_group].reduce(axis=1)]: one value per row. *)
Definition reduce_rows (reduce : list f64 → f64) (rows : nat)
    (cols : list (str * list f64)) : list f64 :=
  (λ i, reduce ((λ c, c.2 !!! i) <$> cols)) <$> seq 0 rows.

(** The loop over the groups: one mean column and one std column per
group. *)
Definition group_columns (reduce : list f64 → f64) (suffix : str)
    (models_data : DataFrame) : list (str * list f64) :=
  let group_keys := (group_key ∘ parse_column) <$> column_names models_data in
  (λ group,
     let cols_in_group :=
       filter (λ c, group_key (parse_column c.1) = group)
              (columns models_data) in
     (group ++ suffix,
      reduce_rows reduce (length (index models_data)) cols_in_group))
    <$> unique group_keys.

(** [df.set_index(name)]: the column becomes the index. *)
Definition set_index (name : str) (df : DataFrame) : option DataFrame :=
  idx ← lookup_column name (columns df);
  Some {| index_name := Some name;
          index := idx;
          columns := filter (λ c, c.1 ≠ name) (columns df) |}.

(** [index.astype(int)]; NaN and the infinities raise. *)
Definition to_int (x : f64) : option Z :=
  match x with
  | Fin q => Some (Z.quot (Qnum (this q)) (Z.pos (Qden (this q))))
  | _ => None
  end.

(** [pd.merge(image_names['Region'], df_summary, left_index=True, right_index=True)]:
the rows whose identifier both sides have, in the order of the names. *)
Definition merge_names (names : list (Z * str)) (ids : list Z)
    (cols : list (str * list f64)) : SummaryTable :=
  let position := λ id, fst <$> list_find (λ x, x = id) ids in
  let rows := omap (λ r, p ← position r.1; Some (r, p)) names in
  {| st_index := (λ rp, rp.1.1) <$> rows;
     st_region := (λ rp, rp.1.2) <$> rows;
     st_columns := (λ c, (c.1, (λ rp, c.2 !!! rp.2) <$> rows)) <$> cols |}.

Variable interp : Field2D → list f64 → list f64 → Field2D.
Variable interp_nearest : Field3D → list f64 → list f64 → Field3D.
Variable sel_nearest : Field3D → Z → Field2D.
Variable mean_time : Field3D → Field2D.
Variable files : Files.

(** The summary of the table of all models. *)
Definition summarize (models_data : DataFrame) : option SummaryTable :=
  let df_mean := group_columns mean (lit "_model-mean") models_data in
  let df_std := group_columns std (lit "_model-std") models_data in
  let df_summary :=
    {| index_name := index_name models_data;
       index := index models_data;
       columns := df_mean ++ df_std |} in
  df_summary ← set_index (lit "nan_nan_model-mean") df_summary;
  ids ← mapM to_int (index df_summary);
  image_names ← region_names files;
  Some (merge_names image_names ids (columns df_summary)).

(** [temperature_index_all_models(model_path, data_path, pop_path, years)] *)
Definition temperature_index_all_models (years : list Z)
    : option SummaryTable :=
  let models_data := empty_regions_frame in
  let file_names := filter (λ n, glob_match n) (model_dir files).*1 in
  models_data ←
    for_each (λ models_data file,
                fst <$> temperature_index interp interp_nearest sel_nearest
                          mean_time files years models_data file)
             models_data file_names;
  summarize models_data.

End summary.

End Summary.

(** ** A sample run *)

Module Sample.
Import TemperatureIndex.

(** Interpolation onto the grid the field is on already, a single time
step: the stand-ins for the array library in the sample run. *)
Definition same_grid (f : Field2D) (longitude latitude : list f64) : Field2D :=
  {| f_latitude := latitude; f_longitude := longitude;
     f_values := f_values f |}.

Definition same_grid_3d (f : Field3D) (longitude latitude : list f64)
    : Field3D :=
  {| t_time := t_time f; t_latitude := latitude; t_longitude := longitude;
     t_values := t_values f |}.

Definition first_step (f : Field3D) : Field2D :=
  {| f_latitude := t_latitude f; f_longitude := t_longitude f;
     f_values := default [] (head (t_values f)) |}.

(** The square root to ten decimal places. *)
Definition sqrt_10 (x : f64) : f64 :=
  match x with
  | Fin q =>
      if F.Qc_ltb q 0 then NaN
      else F.of_Q (Z.sqrt (Qfloor (this q * inject_Z (10 ^ 20))) # 10 ^ 10)
  | PInf => PInf
  | _ => NaN
  end.

Definition shifted_longitude : list f64 :=
  [F.of_Z (-180); F.of_Z (-90); F.of_Z 0; F.of_Z 90].
Definition sample_latitude : list f64 := [F.of_Z (-45); F.of_Z 45].

Definition one_step (vals : grid f64) : Field3D :=
  {| t_time := [Exceedance.Date 2025 1 1];
     t_latitude := sample_latitude; t_longitude := shifted_longitude;
     t_values := [vals] |}.

(** One model file, a threshold of 40 degrees Celsius, two regions. *)
Definition sample_files : Files :=
  {| p95_file :=
       Some {| f_latitude := sample_latitude;
               f_longitude := shifted_longitude;
               f_values := [[F.of_Z 40; F.of_Z 40; F.of_Z 40; F.of_Z 40];
                            [F.of_Z 40; F.of_Z 40; F.of_Z 40; F.of_Z 40]] |};
     model_dir := [ (Region.sample_file, Align.sample_data);
                    (lit "readme.txt", Align.sample_data) ];
     pop_file :=
       Some (one_step [[F.of_Z 10; F.of_Z 20; F.of_Z 30; F.of_Z 40];
                       [F.of_Z 50; F.of_Z 60; F.of_Z 70; F.of_Z 80]]);
     greg_file :=
       Some (one_step [[F.of_Z 1; F.of_Z 1; F.of_Z 2; NaN];
                       [F.of_Z 1; F.of_Z 2; F.of_Z 2; NaN]]);
     region_names := Some [(1, lit "Canada"); (2, lit "USA");
                           (3, lit "Mexico")] |}.

End Sample.

(** ** Further sample inputs *)

Module MoreSamples.

(** An archive on a grid of 722 latitude rows: one year, one day, the
value at row [i] is [i]. *)
Definition tall_year : Percentile.DataArray :=
  {| Percentile.lat_size := 722; Percentile.lon_size := 1;
     Percentile.time_steps := [(λ i, [F.of_Z i]) <$> seqZ 0 722] |}.

Definition tall_files : gmap Z Percentile.DataArray := <[2000 := tall_year]> ∅.

End MoreSamples.

(** ** The dates of a file name *)

Module DateRange.

(** Is there an underscore in [s] that a digit follows?  Only there can
the pattern of the date range start to match. *)
Fixpoint has_underscore_digit (s : str) : bool :=
  match s with
  | [] => false
  | a :: s' =>
      (bool_decide (a = FileName.underscore)
       && match s' with
          | b :: _ => Re.is_digit b
          | [] => false
          end)
      || has_underscore_digit s'
  end.

End DateRange.

(** ** The regions of a table *)

Module Regions.
Import Frame.

(** The region identifiers of a table: its column [IMAGE_region], or
else its index. *)
Definition region_keys (df : DataFrame) : list f64 :=
  default (index df) (lookup_column key_name (columns df)).

End Regions.

(** * Theorems *)

(** Equality of computed values: rationals are compared as numbers. *)
Ltac by_computation :=
  vm_compute;
  repeat first
    [ reflexivity
    | apply Qc_is_canon; reflexivity
    | progress f_equal ].

(** ** Facts about gridded fields *)

Section grid_facts.
Context {A B C : Type}.

Lemma cell_grid_zip_with (f : A → B → C) (a : grid A) (b : grid B) i j :
  cell (grid_zip_with f a b) i j
  = x ← cell a i j; y ← cell b i j; Some (f x y).
Proof.
  unfold cell, grid_zip_with. rewrite lookup_zip_with.
  destruct (a !! i) as [ra|]; simpl; [|done].
  destruct (b !! i) as [rb|]; simpl.
  - rewrite lookup_zip_with. done.
  - by destruct (ra !! j).
Qed.

Lemma cell_grid_map (f : A → B) (g : grid A) i j :
  cell (grid_map f g) i j = f <$> cell g i j.
Proof.
  unfold cell, grid_map. rewrite list_lookup_fmap.
  destruct (g !! i) as [r|]; simpl; [|done].
  by rewrite list_lookup_fmap.
Qed.

Lemma cell_same_shape (a : grid A) (b : grid B) i j :
  shape a = shape b → is_Some (cell a i j) → is_Some (cell b i j).
Proof.
  unfold shape, cell. intros Hs [x Hx].
  destruct (a !! i) as [ra|] eqn:Ha; simpl in Hx; [|done].
  assert (Hl : (length <$> a) !! i = Some (length ra))
    by (by rewrite list_lookup_fmap, Ha).
  rewrite Hs, list_lookup_fmap in Hl.
  destruct (b !! i) as [rb|]; simpl in *; [|done].
  apply lookup_lt_is_Some. injection Hl as ->.
  by eapply lookup_lt_Some.
Qed.
End grid_facts.

Module ExceedanceFacts.
Import Exceedance.

Lemma sum_time_step_cell (flags : list (grid bool)) : ∀ (acc : grid Z) i j n,
  cell acc i j = Some n →
  Forall (λ g, is_Some (cell g i j)) flags →
  cell (foldl (λ acc g, grid_zip_with Z.add acc (grid_map Z_of_bool g))
          acc flags) i j
  = Some (n + Z.of_nat (length (filter (λ g, flag_at i j g) flags))).
Proof.
  induction flags as [|g flags IH]; intros acc i j n Hacc Hall; simpl.
  - rewrite Hacc. f_equal. lia.
  - apply Forall_cons in Hall as [[b Hb] Hall].
    erewrite IH; [| |done].
    2:{ rewrite cell_grid_zip_with, Hacc, cell_grid_map, Hb. done. }
    f_equal. rewrite filter_cons.
    assert (Hf : flag_at i j g = b) by (unfold flag_at; by rewrite Hb).
    rewrite Hf. destruct b; simpl; lia.
Qed.

Lemma gt_flag_at (p95 : grid f64) i j t (s : date * grid f64) :
  cell p95 i j = Some t →
  flag_at i j (grid_zip_with F.gtb s.2 p95) = exceeds_at i j t s.
Proof.
  intros Ht. unfold flag_at, exceeds_at.
  rewrite cell_grid_zip_with, Ht.
  by destruct (cell s.2 i j).
Qed.

(** The count at a cell is the number of days of the slice that exceed
    the threshold there. *)
Lemma excedance_count_cell (tas_year : field) (p95 : grid f64) i j t :
  Forall (λ s, shape s.2 = shape p95) tas_year →
  cell p95 i j = Some t →
  cell (excedance_count tas_year p95) i j
  = Some (Z.of_nat (length (filter (λ s, exceeds_at i j t s) tas_year))).
Proof.
  intros Hshape Ht. unfold excedance_count, sum_time, gt.
  erewrite sum_time_step_cell.
  - f_equal. rewrite Z.add_0_l. f_equal.
    induction tas_year as [|s l IH]; [done|].
    apply Forall_cons in Hshape as [_ Hl].
    rewrite fmap_cons, filter_cons, (gt_flag_at _ _ _ t) by done.
    rewrite (filter_cons _ s).
    destruct (exceeds_at i j t s); simpl; rewrite IH; done.
  - by rewrite cell_grid_map, Ht.
  - apply Forall_fmap, (Forall_impl _ _ _ Hshape). intros s Hs. simpl.
    rewrite cell_grid_zip_with, Ht.
    destruct (cell_same_shape p95 s.2 i j) as [v ->]; [done|by eexists|].
    by eexists.
Qed.

Lemma in_slice_year (y : Z) (s : date * grid f64) :
  in_slice (Date y 1 1) (Date y 12 31) s → d_year s.1 = y.
Proof.
  unfold in_slice, date_leb. simpl. intros H%Is_true_true.
  rewrite !andb_true_iff, !orb_true_iff, !andb_true_iff, !orb_true_iff,
    !andb_true_iff, !Z.ltb_lt, !Z.eqb_eq, !Z.leb_le in H. lia.
Qed.

Lemma valid_date_in_year (d : date) :
  valid_date d → d ∈ year_dates (d_year d).
Proof.
  intros [Hm Hd]. unfold year_dates.
  apply list_elem_of_bind. exists (d_month d). split.
  - apply list_elem_of_bind. exists (d_day d). split.
    + destruct d; simpl. apply list_elem_of_singleton. done.
    + apply elem_of_seqZ. lia.
  - apply elem_of_seqZ. lia.
Qed.

Lemma length_year_dates (y : Z) : (length (year_dates y) ≤ 366)%nat.
Proof.
  unfold year_dates. cbn [seqZ]. unfold days_in_month.
  destruct (is_leap y); vm_compute; lia.
Qed.

(** A daily axis holds at most 366 labels of one year. *)
Lemma sel_year_length (year : Z) (tas_max : field) :
  NoDup tas_max.*1 → Forall valid_date tas_max.*1 →
  (length (sel_year year tas_max) ≤ 366)%nat.
Proof.
  intros Hnd Hval.
  etrans; [|apply (length_year_dates year)].
  rewrite <-(length_fmap fst).
  apply submseteq_length, NoDup_submseteq.
  - unfold sel_year.
    eapply sublist_NoDup; [exact Hnd|].
    apply fmap_sublist, sublist_filter.
  - intros d [s [-> Hs]]%list_elem_of_fmap.
    apply list_elem_of_filter in Hs as [Hin Hs].
    rewrite <-(in_slice_year year s Hin).
    apply valid_date_in_year.
    rewrite Forall_forall in Hval. apply Hval.
    apply list_elem_of_fmap. eauto.
Qed.

Lemma gtb_irrefl (t : f64) : F.gtb t t = false.
Proof.
  destruct t; try done. unfold F.gtb, F.ltb, F.Qc_ltb.
  apply bool_decide_eq_false, (irreflexivity Qclt).
Qed.

(** C3.  The model field is sliced to the target year and compared with
    a threshold field on the same grid.  At every cell the count is the
    number of days of that year whose daily maximum is strictly above
    the threshold; a day equal to the threshold is not counted; the
    count is an integer between 0 and 366. *)
Theorem excedance_count_strict_days
    (tas_max : field) (year : Z) (p95_hist : grid f64) (i j : nat) (t : f64) :
  NoDup tas_max.*1 →
  Forall valid_date tas_max.*1 →
  Forall (λ s, shape s.2 = shape p95_hist) tas_max →
  cell p95_hist i j = Some t →
  ∃ n : Z,
    cell (excedance_count (sel_year year tas_max) p95_hist) i j = Some n
    ∧ n = Z.of_nat (length (filter (λ s, exceeds_at i j t s)
                              (sel_year year tas_max)))
    ∧ 0 ≤ n ≤ 366
    ∧ (∀ s, cell s.2 i j = Some t → exceeds_at i j t s = false).
Proof.
  intros Hnd Hval Hshape Ht. eexists. split; [|split; [done|split]].
  - apply excedance_count_cell; [|done].
    unfold sel_year. apply Forall_forall. intros s [_ Hs]%list_elem_of_filter.
    rewrite Forall_forall in Hshape. by apply Hshape.
  - pose proof (sel_year_length year tas_max Hnd Hval) as Hlen.
    split; [lia|]. apply (Nat2Z.inj_le _ 366).
    etrans; [apply length_filter|exact Hlen].
  - intros s Hs. unfold exceeds_at. rewrite Hs. apply gtb_irrefl.
Qed.

Lemma excedance_count_strict_days_witness :
  ∃ n : Z,
    cell (excedance_count (sel_year 2025 sample_field) [[F.of_Z 30]]) 0 0
      = Some n
    ∧ n = Z.of_nat (length (filter (λ s, exceeds_at 0 0 (F.of_Z 30) s)
                              (sel_year 2025 sample_field)))
    ∧ 0 ≤ n ≤ 366
    ∧ (∀ s, cell s.2 0 0 = Some (F.of_Z 30)
            → exceeds_at 0 0 (F.of_Z 30) s = false).
Proof.
  apply (excedance_count_strict_days sample_field 2025 [[F.of_Z 30]] 0 0).
  - apply (bool_decide_unpack _). vm_compute. exact I.
  - repeat constructor; vm_compute; congruence.
  - repeat constructor.
  - reflexivity.
Defined.

(** The count on the sample: two of the three days of 2025 are above 30;
    the day at exactly 30 is left out. *)
Example excedance_count_sample :
  excedance_count (sel_year 2025 sample_field) [[F.of_Z 30]] = [[2]].
Proof. vm_compute. reflexivity. Qed.

Lemma exceeds_at_nan (i j : nat) (t : f64) (s : date * grid f64) :
  cell s.2 i j = Some NaN → exceeds_at i j t s = false.
Proof. unfold exceeds_at. intros ->. by destruct t. Qed.

Lemma exceeds_at_filter_nan (i j : nat) (t : f64) (l : field) :
  filter (λ s, exceeds_at i j t s) (filter (λ s, cell s.2 i j ≠ Some NaN) l)
  = filter (λ s, exceeds_at i j t s) l.
Proof.
  induction l as [|s l IH]; [done|].
  rewrite filter_cons.
  destruct (decide (cell s.2 i j ≠ Some NaN)) as [Hne|Heq].
  - rewrite !filter_cons, IH. done.
  - rewrite filter_cons, IH.
    apply dec_stable in Heq. by rewrite (exceeds_at_nan _ _ _ _ Heq).
Qed.

(** C10.  A day whose value is NaN never counts as an exceedance: the
    count at a cell is the count over the days whose value there is not
    NaN, it is a non-negative integer, and it is 0 where every day is
    NaN. *)
Theorem excedance_count_ignores_nan
    (tas_max_year : field) (p95_hist : grid f64) (i j : nat) (t : f64) :
  Forall (λ s, shape s.2 = shape p95_hist) tas_max_year →
  cell p95_hist i j = Some t →
  (∀ v, F.gtb NaN v = false)
  ∧ ∃ n : Z,
    cell (excedance_count tas_max_year p95_hist) i j = Some n
    ∧ 0 ≤ n
    ∧ n = Z.of_nat (length (filter (λ s, exceeds_at i j t s)
              (filter (λ s, cell s.2 i j ≠ Some NaN) tas_max_year)))
    ∧ (Forall (λ s, cell s.2 i j = Some NaN) tas_max_year → n = 0).
Proof.
  intros Hshape Ht. split; [by intros []|].
  eexists. split; [by apply excedance_count_cell|].
  split; [lia|]. split.
  - by rewrite exceeds_at_filter_nan.
  - intros Hall. clear Hshape.
    induction tas_max_year as [|s l IH]; [done|].
    apply Forall_cons in Hall as [Hs Hl].
    rewrite filter_cons, (exceeds_at_nan _ _ _ _ Hs). by apply IH.
Qed.

Lemma excedance_count_ignores_nan_witness :
  (∀ v, F.gtb NaN v = false)
  ∧ ∃ n : Z,
    cell (excedance_count nan_field [[F.of_Z 30; F.of_Z 30]]) 0 0 = Some n
    ∧ 0 ≤ n
    ∧ n = Z.of_nat (length (filter (λ s, exceeds_at 0 0 (F.of_Z 30) s)
              (filter (λ s, cell s.2 0 0 ≠ Some NaN) nan_field)))
    ∧ (Forall (λ s, cell s.2 0 0 = Some NaN) nan_field → n = 0).
Proof.
  apply (excedance_count_ignores_nan nan_field
           [[F.of_Z 30; F.of_Z 30]] 0 0 (F.of_Z 30)).
  - repeat constructor.
  - reflexivity.
Defined.

Example excedance_count_nan_sample :
  excedance_count nan_field [[F.of_Z 30; F.of_Z 30]] = [[0; 1]].
Proof. vm_compute. reflexivity. Qed.

End ExceedanceFacts.

Module PercentileFacts.
Import Percentile.

Example quantile_uniform :
  quantile p95 (F.of_Z <$> seqZ 0 101) = F.of_Z 95.
Proof. vm_compute. by repeat (f_equal; try apply Qc_is_canon). Qed.

Example quantile_interpolates :
  quantile p95 [F.of_Z 4; NaN; F.of_Z 1; F.of_Z 3; F.of_Z 2] = F.of_Q (385 # 100).
Proof. vm_compute. by repeat (f_equal; try apply Qc_is_canon). Qed.

Example quantile_no_data : quantile p95 [NaN; NaN] = NaN.
Proof. reflexivity. Qed.

(** The row of latitude [i] of the percentile field of [data]. *)
Lemma quantile_time_rows (q : Qc) (data : DataArray) :
  quantile_time q data
  = (λ i, (λ j, quantile q (series_at (time_steps data) i j))
            <$> seq 0 (lon_size data)) <$> seq 0 (lat_size data).
Proof. reflexivity. Qed.

Lemma series_at_isel (steps : list (grid f64)) (lo n i j : nat) :
  (i < n)%nat →
  series_at ((λ g, take n (drop lo g)) <$> steps) i j
  = series_at steps (lo + i) j.
Proof.
  intros Hi. unfold series_at. rewrite <-list_fmap_compose.
  apply list_fmap_ext. intros ? g ?. simpl. unfold cell.
  by rewrite lookup_take_lt, lookup_drop.
Qed.

Lemma quantile_time_isel (q : Qc) (lo hi : nat) (data : DataArray) :
  quantile_time q (isel_latitude lo hi data)
  = (λ i, (λ j, quantile q (series_at (time_steps data) i j))
            <$> seq 0 (lon_size data))
      <$> seq lo ((hi `min` lat_size data) - (lo `min` lat_size data)).
Proof.
  unfold quantile_time, isel_latitude. simpl.
  set (N := ((hi `min` lat_size data) - (lo `min` lat_size data))%nat).
  replace (seq lo N) with ((λ x, lo + x)%nat <$> seq 0 N)
    by (rewrite fmap_add_seq; f_equal; lia).
  rewrite <-list_fmap_compose.
  apply list_fmap_ext. intros ? i Hi%lookup_seq. simpl.
  apply list_fmap_ext. intros ? j ?.
  rewrite series_at_isel; [done|]. unfold N in Hi. lia.
Qed.

Lemma mjoin_fmap_fmap {A B} (f : A → B) (ls : list (list A)) :
  mjoin (fmap f <$> ls) = f <$> mjoin ls.
Proof.
  induction ls as [|l ls IH]; [done|].
  change ((f <$> l) ++ mjoin (fmap f <$> ls) = f <$> (l ++ mjoin ls)).
  by rewrite fmap_app, IH.
Qed.

Lemma concat_time_isel (lo hi : nat) (pieces : list DataArray) :
  concat_time (isel_latitude lo hi <$> pieces)
  = isel_latitude lo hi <$> concat_time pieces.
Proof.
  destruct pieces as [|d pieces]; [done|].
  unfold concat_time, isel_latitude. rewrite fmap_cons. simpl. do 2 f_equal.
  rewrite fmap_app. f_equal.
  rewrite <-mjoin_fmap_fmap, <-!list_fmap_compose. done.
Qed.

Lemma load_band_isel (files : archive) (years : list Z) (lat step : Z) :
  load_band files years lat step
  = fmap (isel_latitude (Z.to_nat lat) (Z.to_nat (lat + step)))
      <$> mapM (λ year, files !! year) years.
Proof.
  unfold load_band. induction years as [|y years IH]; [done|].
  simpl. destruct (files !! y) as [d|]; simpl; [|done].
  rewrite IH. by destruct (mapM (λ year, files !! year) years).
Qed.

(** Consecutive bands of height [s] tile the rows they cover. *)
Lemma bands_tile (L s start : nat) : ∀ K : nat,
  mjoin ((λ k, seq (start + k * s)
                 (((start + k * s + s) `min` L) - ((start + k * s) `min` L)))
           <$> seq 0 K)
  = seq start (((start + K * s) `min` L) - (start `min` L)).
Proof.
  induction K as [|K IH].
  - simpl. rewrite Nat.add_0_r, Nat.sub_diag. done.
  - rewrite seq_S, fmap_app, join_app, IH. simpl. rewrite app_nil_r.
    destruct (decide (start + K * s < L)%nat) as [Hlt|Hge].
    + replace (((start + K * s) `min` L) - (start `min` L))%nat
        with (K * s)%nat by lia.
      rewrite <-seq_app. f_equal. lia.
    + replace (((start + K * s + s) `min` L) - ((start + K * s) `min` L))%nat
        with 0%nat by lia.
      simpl. rewrite app_nil_r. f_equal. lia.
Qed.

Lemma py_range_bands (step : Z) :
  0 < step →
  ∃ K : nat,
    py_range 0 720 step = Some ((λ k, Z.of_nat k * step) <$> seq 0 K)
    ∧ (720 ≤ K * Z.to_nat step)%nat ∧ (0 < K)%nat.
Proof.
  intros Hstep. exists (Z.to_nat ((720 - 0 + step - 1) `div` step)).
  pose proof (Z.div_mod (720 - 0 + step - 1) step ltac:(lia)) as Hdm.
  pose proof (Z.mod_pos_bound (720 - 0 + step - 1) step Hstep) as Hmod.
  assert (0 < (720 - 0 + step - 1) `div` step) by nia.
  split; [|split; [nia|lia]].
  unfold py_range. rewrite decide_False, decide_True by lia.
  f_equal. unfold seqZ. rewrite <-list_fmap_compose.
  apply list_fmap_ext. intros ? k ?. simpl. lia.
Qed.

Lemma mapM_all_Some {A B} (f : A → option B) (g : A → B) (l : list A) :
  (∀ x, x ∈ l → f x = Some (g x)) → mapM f l = Some (g <$> l).
Proof.
  induction l as [|a l IH]; intros Hf; [done|].
  simpl. rewrite (Hf a) by left. simpl.
  rewrite IH; [done|]. intros x Hx. apply Hf. by right.
Qed.

Lemma mapM_head_None {A B} (f : A → option B) (a : A) (l : list A) :
  f a = None → mapM f (a :: l) = None.
Proof. intros Hf. simpl. by rewrite Hf. Qed.

(** Every band is the corresponding block of rows of the single-pass
field. *)
Lemma band_rows (files : archive) (years : list Z) (lat step : Z)
    (pieces : list DataArray) (data : DataArray) :
  mapM (λ year, files !! year) years = Some pieces →
  concat_time pieces = Some data →
  (temporal_lat_data ← load_band files years lat step;
   temporal_data ← concat_time temporal_lat_data;
   Some (quantile_time p95 temporal_data))
  = Some ((λ i, (λ j, quantile p95 (series_at (time_steps data) i j))
                  <$> seq 0 (lon_size data))
            <$> seq (Z.to_nat lat)
                  ((Z.to_nat (lat + step) `min` lat_size data)
                   - (Z.to_nat lat `min` lat_size data))).
Proof.
  intros Hpieces Hdata.
  rewrite load_band_isel, Hpieces. simpl.
  rewrite concat_time_isel, Hdata. simpl.
  by rewrite quantile_time_isel.
Qed.

Lemma band_fails (files : archive) (years : list Z) (lat step : Z) :
  (mapM (λ year, files !! year) years ≫= concat_time) = None →
  (temporal_lat_data ← load_band files years lat step;
   temporal_data ← concat_time temporal_lat_data;
   Some (quantile_time p95 temporal_data)) = None.
Proof.
  intros Hnone. rewrite load_band_isel.
  destruct (mapM _ years) as [pieces|]; simpl in *; [|done].
  rewrite concat_time_isel, Hnone. done.
Qed.

Lemma band_index (k : nat) (step : Z) :
  0 < step →
  Z.to_nat (Z.of_nat k * step) = (0 + k * Z.to_nat step)%nat
  ∧ Z.to_nat (Z.of_nat k * step + step)
    = (0 + k * Z.to_nat step + Z.to_nat step)%nat.
Proof.
  intros Hstep.
  assert (Z.to_nat (Z.of_nat k * step) = (k * Z.to_nat step)%nat)
    by (rewrite Z2Nat.inj_mul, Nat2Z.id; lia).
  split; [lia|]. rewrite Z2Nat.inj_add; lia.
Qed.

Lemma concat_latitude_nonempty (bands : list (grid f64)) :
  (0 < length bands)%nat → concat_latitude bands = Some (mjoin bands).
Proof. destruct bands; simpl; [lia|done]. Qed.

(** With all files at hand the bands add up to the single-pass field. *)
Lemma banded_result (files : archive) (years : list Z) (step : Z)
    (pieces : list DataArray) (data : DataArray) :
  0 < step →
  mapM (λ year, files !! year) years = Some pieces →
  concat_time pieces = Some data →
  lat_size data = 720%nat →
  calculate_historical_percentiles files years step
  = Some (quantile_time p95 data).
Proof.
  intros Hstep Hpieces Hdata Hlat.
  destruct (py_range_bands step Hstep) as (K & Hrange & Hcover & HK).
  unfold calculate_historical_percentiles. rewrite Hrange. simpl.
  erewrite mapM_all_Some
    by (intros lat _; by apply (band_rows _ _ _ _ pieces)).
  rewrite <-list_fmap_compose.
  erewrite (list_fmap_ext _
    (fmap (λ i, (λ j, quantile p95 (series_at (time_steps data) i j))
                  <$> seq 0 (lon_size data))
     ∘ (λ k, seq (0 + k * Z.to_nat step)
          (((0 + k * Z.to_nat step + Z.to_nat step) `min` 720)
           - ((0 + k * Z.to_nat step) `min` 720))%nat))).
  2:{ intros ? k ?. simpl. rewrite Hlat.
      destruct (band_index k step Hstep) as [-> ->]. done. }
  cbn [mbind option_bind]. rewrite concat_latitude_nonempty
    by (by rewrite length_fmap, length_seq).
  rewrite (list_fmap_compose _ (fmap _)), mjoin_fmap_fmap.
  rewrite bands_tile, quantile_time_rows, Hlat.
  do 3 f_equal. lia.
Qed.

(** Without data for some year, or without any year, both computations
raise. *)
Lemma banded_failure (files : archive) (years : list Z) (step : Z) :
  0 < step →
  (mapM (λ year, files !! year) years ≫= concat_time) = None →
  calculate_historical_percentiles files years step = None.
Proof.
  intros Hstep Hnone.
  destruct (py_range_bands step Hstep) as (K & Hrange & Hcover & HK).
  unfold calculate_historical_percentiles. rewrite Hrange. simpl.
  destruct K as [|K]; [lia|].
  change (seq 0 (S K)) with (0%nat :: seq 1 K). rewrite fmap_cons.
  rewrite mapM_head_None; [done|by apply band_fails].
Qed.

Lemma concat_time_first_lat (pieces : list DataArray) (data : DataArray) :
  concat_time pieces = Some data →
  ∃ d, d ∈ pieces ∧ lat_size data = lat_size d.
Proof.
  destruct pieces as [|d pieces]; [done|].
  intros [= <-]. exists d. split; [left|done].
Qed.

Lemma mapM_lookup_elem (files : archive) (years : list Z)
    (pieces : list DataArray) (d : DataArray) :
  mapM (λ year, files !! year) years = Some pieces →
  d ∈ pieces → ∃ year, files !! year = Some d.
Proof.
  intros Hall%mapM_Some_1 Hd. revert Hd.
  induction Hall as [|y d' years pieces Hy _ IH]; [by intros ?%elem_of_nil|].
  intros [->|Hd]%elem_of_cons; [by exists y|by apply IH].
Qed.

(** C1.  For a positive latitude chunk size and yearly files on the
720-row grid, the banded computation and the single-pass computation of
the per-cell 95th percentile (linear interpolation between order
statistics of the cell's full multi-year series) give the same field,
cell for cell, whatever the chunk size; the banded computation returns a
field whenever the reference period is not empty and all its files
exist. *)
Theorem banding_has_no_effect
    (files : archive) (years : list Z) (step : Z) :
  0 < step →
  (∀ year data, files !! year = Some data → lat_size data = 720%nat) →
  calculate_historical_percentiles files years step
  = single_pass_percentiles files years
  ∧ (years ≠ [] → (∀ year, year ∈ years → is_Some (files !! year)) →
     is_Some (calculate_historical_percentiles files years step)).
Proof.
  intros Hstep Hgrid.
  assert (Heq : calculate_historical_percentiles files years step
                = single_pass_percentiles files years).
  { unfold single_pass_percentiles.
    destruct (mapM (λ year, files !! year) years) as [pieces|] eqn:Hpieces.
    - simpl. destruct (concat_time pieces) as [data|] eqn:Hdata; simpl.
      + eapply banded_result; [done..|].
        destruct (concat_time_first_lat _ _ Hdata) as (d & Hd & ->).
        destruct (mapM_lookup_elem _ _ _ _ Hpieces Hd) as [y Hy].
        by eapply Hgrid.
      + apply banded_failure; [done|]. by rewrite Hpieces.
    - apply banded_failure; [done|]. by rewrite Hpieces. }
  split; [done|].
  intros Hyears Hfiles. rewrite Heq. unfold single_pass_percentiles.
  destruct (mapM_is_Some_2 (λ year, files !! year) years) as [pieces Hpieces].
  { apply Forall_forall. intros y Hy. by apply Hfiles. }
  rewrite Hpieces. simpl.
  destruct pieces as [|d pieces]; [|by eexists].
  apply mapM_Some_1 in Hpieces. inversion Hpieces; by subst.
Qed.

Lemma sample_files_grid (year : Z) (data : DataArray) :
  sample_files !! year = Some data → lat_size data = 720%nat.
Proof.
  unfold sample_files. intros Hy.
  apply lookup_insert_Some in Hy as [[_ <-]|[_ Hy]]; [done|].
  apply lookup_insert_Some in Hy as [[_ <-]|[_ Hy]]; [done|].
  by rewrite lookup_empty in Hy.
Qed.

Lemma banding_has_no_effect_witness :
  calculate_historical_percentiles sample_files [1995; 1996] 7
  = single_pass_percentiles sample_files [1995; 1996]
  ∧ ([1995; 1996] ≠ [] →
     (∀ year, year ∈ [1995; 1996] → is_Some (sample_files !! year)) →
     is_Some (calculate_historical_percentiles sample_files [1995; 1996] 7)).
Proof.
  apply (banding_has_no_effect sample_files [1995; 1996] 7).
  - lia.
  - exact sample_files_grid.
Defined.

(** On the sample the 95th percentile of the three days [1000 + i],
[2000 + i], [3000 + i] is [2900 + i] at every row [i]. *)
Example single_pass_sample :
  single_pass_percentiles sample_files [1995; 1996]
  = Some ((λ i, [F.of_Z (2900 + i)]) <$> seqZ 0 720).
Proof. vm_compute. reflexivity. Qed.

Example banded_sample (step : Z) :
  0 < step →
  calculate_historical_percentiles sample_files [1995; 1996] step
  = Some ((λ i, [F.of_Z (2900 + i)]) <$> seqZ 0 720).
Proof.
  intros Hstep.
  etrans; [|exact single_pass_sample].
  exact (proj1 (banding_has_no_effect sample_files [1995; 1996] step
                  Hstep sample_files_grid)).
Qed.

(** A zero chunk size, a negative one, a missing year and an empty
reference period all raise. *)
Example banded_raises :
  calculate_historical_percentiles sample_files [1995; 1996] 0 = None
  ∧ calculate_historical_percentiles sample_files [1995; 1996] (-30) = None
  ∧ calculate_historical_percentiles sample_files [1995; 1997] 30 = None
  ∧ calculate_historical_percentiles sample_files [] 30 = None.
Proof. vm_compute. done. Qed.

End PercentileFacts.

Module ReFacts.
Import Re FileName.

Lemma name_char_facts (a : ascii) :
  is_name_char a = true →
  a ≠ underscore ∧ a ≠ newline ∧ cmatch CAny a = true.
Proof.
  destruct a as [[] [] [] [] [] [] [] []]; vm_compute; intros H;
    try discriminate H; repeat split; congruence.
Qed.

Lemma digit_facts (a : ascii) :
  is_digit a = true →
  a ≠ underscore ∧ a ≠ ascii_of_nat 114 ∧ is_name_char a = true.
Proof.
  destruct a as [[] [] [] [] [] [] [] []]; vm_compute; intros H;
    try discriminate H; repeat split; congruence.
Qed.

(** *** Reduction of the matcher *)

Lemma mtch_Str (p s : str) caps k :
  mtch (Str p) (p ++ s) caps k = k s caps.
Proof.
  induction p as [|a p IH]; [done|].
  simpl. by rewrite bool_decide_eq_true_2.
Qed.

Lemma mtch_Str_mismatch (a b : ascii) (p s : str) caps k :
  a ≠ b → mtch (Str (b :: p)) (a :: s) caps k = None.
Proof. intros Hab. simpl. by rewrite bool_decide_eq_false_2. Qed.

Lemma mtch_Str_nil (b : ascii) (p : str) caps k :
  mtch (Str (b :: p)) [] caps k = None.
Proof. done. Qed.

Lemma mtch_Repeat_class (c : cclass) (ds s : str) caps k :
  Forall (λ a, cmatch c a = true) ds →
  mtch (Repeat (length ds) (Lit c)) (ds ++ s) caps k = k s caps.
Proof.
  induction 1 as [|a ds Ha _ IH]; [done|].
  simpl. by rewrite Ha.
Qed.

Lemma take_consumed {A} (p q : list A) :
  take (length (p ++ q) - length q) (p ++ q) = p.
Proof.
  rewrite length_app, Nat.add_sub. by rewrite take_app_length.
Qed.

(** *** The greedy and the lazy star *)

Lemma star_greedy_prefix {R} (c : cclass) (k : str → option R)
    (p q : str) (r : R) :
  Forall (λ a, cmatch c a = true) p →
  star true c k q = Some r →
  star true c k (p ++ q) = Some r.
Proof.
  induction 1 as [|a p Ha _ IH]; intros Hq; [done|].
  simpl. by rewrite Ha, IH.
Qed.

Lemma star_greedy_all {R} (c : cclass) (k : str → option R)
    (p : str) (r : R) :
  Forall (λ a, cmatch c a = true) p →
  k [] = Some r →
  star true c k p = Some r.
Proof.
  intros Hp Hk. rewrite <-(app_nil_r p). by apply star_greedy_prefix.
Qed.

Lemma star_greedy_none {R} (c : cclass) (k : str → option R) (s : str) :
  (∀ i, k (drop i s) = None) → star true c k s = None.
Proof.
  induction s as [|a s IH]; intros Hk; [exact (Hk 0%nat)|].
  simpl. rewrite IH by (intros i; exact (Hk (S i))).
  pose proof (Hk 0%nat) as Hk0. rewrite drop_0 in Hk0.
  rewrite Hk0. by destruct (cmatch c a).
Qed.

Lemma star_greedy_last {R} (c : cclass) (k : str → option R)
    (a : ascii) (s : str) :
  cmatch c a = true → star true c k s = None →
  star true c k (a :: s) = k (a :: s).
Proof. intros Ha Hs. simpl. by rewrite Ha, Hs. Qed.

Lemma star_lazy_skip {R} (c : cclass) (k : str → option R) (p q : str) :
  Forall (λ a, cmatch c a = true ∧ ∀ rest, k (a :: rest) = None) p →
  star false c k (p ++ q) = star false c k q.
Proof.
  induction 1 as [|a p [Ha Hk] _ IH]; [done|].
  simpl. by rewrite Hk, Ha.
Qed.

Lemma star_lazy_stop {R} (c : cclass) (k : str → option R) (q : str) (r : R) :
  k q = Some r → star false c k q = Some r.
Proof. intros Hk. destruct q; simpl; by rewrite Hk. Qed.

(** *** Occurrences of [_r] *)

Lemma has_underscore_r_app (w rest : str) :
  Forall (λ a, a ≠ underscore) w →
  has_underscore_r (w ++ rest) = has_underscore_r rest.
Proof.
  induction 1 as [|a w Ha _ IH]; [done|].
  simpl. by rewrite bool_decide_eq_false_2, IH.
Qed.

Lemma has_underscore_r_sep (c : ascii) (rest : str) :
  c ≠ ascii_of_nat 114 →
  has_underscore_r (underscore :: c :: rest) = has_underscore_r (c :: rest).
Proof.
  intros Hc. cbn [has_underscore_r]. rewrite (bool_decide_eq_false_2 (c = _)) by done.
  by rewrite andb_false_r.
Qed.

Lemma has_underscore_r_drop (s : str) (i : nat) :
  has_underscore_r s = false → has_underscore_r (drop i s) = false.
Proof.
  revert i. induction s as [|a s IH]; intros [|i] Hs; try done.
  simpl in *. apply IH. by apply orb_false_iff in Hs as [_ ?].
Qed.

Lemma no_underscore_r_no_match (s : str) caps k :
  has_underscore_r s = false → mtch (Str (lit "_r")) s caps k = None.
Proof.
  destruct s as [|a [|b s]]; [done| |].
  - intros _. simpl. by destruct (bool_decide _).
  - intros [H _]%orb_false_iff. simpl.
    change "_"%char with underscore. change "r"%char with (ascii_of_nat 114).
    by destruct (bool_decide (a = underscore)),
         (bool_decide (b = ascii_of_nat 114)).
Qed.

(** *** Searching *)

Lemma search_skip (r : regex) (a : ascii) (s : str) :
  match_here r (a :: s) = None → search r (a :: s) = search r s.
Proof. intros H. simpl. by rewrite H. Qed.

Lemma search_here (r : regex) (s : str) caps :
  match_here r s = Some caps → search r s = Some caps.
Proof. intros H. destruct s; simpl; by rewrite H. Qed.

Lemma match_model_name_mismatch (a : ascii) (s : str) :
  a ≠ "d"%char → match_here model_name_pattern (a :: s) = None.
Proof.
  intros Ha. unfold match_here, model_name_pattern. cbn [mtch].
  by apply (mtch_Str_mismatch a "d" (lit "ay_")).
Qed.

Lemma search_model_name_prefix (s : str) :
  search model_name_pattern (lit "tasmax_" ++ s) = search model_name_pattern s.
Proof.
  unfold lit; cbn [list_ascii_of_string app].
  by rewrite !search_skip by (by apply match_model_name_mismatch).
Qed.

(** The group of the model-name pattern: everything between [day_] and
the last [_r]. *)
Lemma match_model_name (p tl : str) :
  Forall (λ a, cmatch CAny a = true) p →
  has_underscore_r (lit "r" ++ tl) = false →
  match_here model_name_pattern (lit "day_" ++ p ++ lit "_r" ++ tl)
  = Some [p].
Proof.
  intros Hp Htl. unfold match_here, model_name_pattern.
  cbn [mtch]. rewrite mtch_Str. cbn [mtch].
  apply star_greedy_prefix; [done|].
  change (lit "_r" ++ tl) with ("_"%char :: lit "r" ++ tl).
  rewrite star_greedy_last.
  - change ("_"%char :: lit "r" ++ tl) with (lit "_r" ++ tl).
    rewrite (mtch_Str (lit "_r") tl). f_equal. simpl. f_equal.
    apply (take_consumed p (lit "_r" ++ tl)).
  - done.
  - apply star_greedy_none. intros i. apply no_underscore_r_no_match.
    by apply has_underscore_r_drop.
Qed.

Lemma has_underscore_r_cons (a : ascii) (rest : str) :
  a ≠ underscore →
  has_underscore_r (a :: rest) = has_underscore_r rest.
Proof. intros Ha. apply (has_underscore_r_app [a]). by constructor. Qed.

Lemma conventional_tail (variant grid start_date end_date : str) v :
  variant = lit "r" ++ v →
  Forall (λ a, is_name_char a = true) v →
  (∃ g, grid = lit "g" ++ g ∧ Forall (λ a, is_name_char a = true) g) →
  length start_date = 8%nat ∧ Forall (λ a, is_digit a = true) start_date →
  length end_date = 8%nat ∧ Forall (λ a, is_digit a = true) end_date →
  has_underscore_r
    (lit "r" ++ v ++ lit "_" ++ grid ++ lit "_" ++ start_date ++ lit "-"
       ++ end_date ++ lit ".nc") = false.
Proof.
  intros -> Hv (g & -> & Hg) [Hls Hs] [Hle He].
  assert (Hname : ∀ w, Forall (λ a, is_name_char a = true) w →
                       Forall (λ a, a ≠ underscore) w).
  { intros w Hw. eapply Forall_impl; [exact Hw|].
    intros a Ha. by apply name_char_facts. }
  assert (Hdig : ∀ w, Forall (λ a, is_digit a = true) w →
                      Forall (λ a, a ≠ underscore) w).
  { intros w Hw. eapply Forall_impl; [exact Hw|].
    intros a Ha. by apply digit_facts. }
  destruct start_date as [|d ds]; [done|].
  apply Forall_cons in Hs as [Hd Hs].
  unfold lit. cbn [list_ascii_of_string app].
  rewrite (has_underscore_r_cons "r") by done.
  rewrite (has_underscore_r_app v) by auto.
  rewrite (has_underscore_r_sep "g") by done.
  rewrite (has_underscore_r_cons "g") by done.
  rewrite (has_underscore_r_app g) by auto.
  rewrite (has_underscore_r_sep d) by (by apply digit_facts).
  rewrite (has_underscore_r_cons d) by (by apply digit_facts).
  rewrite (has_underscore_r_app ds) by auto.
  rewrite (has_underscore_r_cons "-") by done.
  rewrite (has_underscore_r_app end_date) by auto.
  done.
Qed.

(** On a conventional file name the model-name pattern captures the model
and the scenario. *)
Lemma search_model_name (model scenario variant grid start_date end_date : str) :
  conventional model scenario variant grid start_date end_date →
  search model_name_pattern
    (file_name model scenario variant grid start_date end_date)
  = Some [model ++ lit "_" ++ scenario].
Proof.
  intros [[_ Hm] [_ Hs] (v & Hv & Hvn) Hg Hstart Hend].
  unfold file_name.
  change (lit "tasmax_day_") with (lit "tasmax_" ++ lit "day_").
  rewrite <-app_assoc, search_model_name_prefix.
  apply search_here.
  pose proof (conventional_tail variant grid start_date end_date v
                Hv Hvn Hg Hstart Hend) as Htail.
  subst variant.
  replace (lit "day_" ++ model ++ lit "_" ++ scenario ++ lit "_"
             ++ (lit "r" ++ v) ++ lit "_" ++ grid ++ lit "_" ++ start_date
             ++ lit "-" ++ end_date ++ lit ".nc")
    with (lit "day_" ++ (model ++ lit "_" ++ scenario) ++ lit "_r"
            ++ v ++ lit "_" ++ grid ++ lit "_" ++ start_date
            ++ lit "-" ++ end_date ++ lit ".nc")
    by (by rewrite <-!app_assoc).
  apply match_model_name; [|exact Htail].
  apply Forall_app. split; [|apply Forall_app; split].
  - eapply Forall_impl; [exact Hm|]. intros a Ha. by apply name_char_facts.
  - by repeat constructor.
  - eapply Forall_impl; [exact Hs|]. intros a Ha. by apply name_char_facts.
Qed.

(** The column pattern on a label [year_model_scenario]. *)
Lemma search_column (Y model scenario : str) :
  length Y = 4%nat → Forall (λ a, is_digit a = true) Y →
  model ≠ [] → Forall (λ a, is_name_char a = true) model →
  scenario ≠ [] → Forall (λ a, is_name_char a = true) scenario →
  search column_pattern (Y ++ lit "_" ++ model ++ lit "_" ++ scenario)
  = Some [Y; model; scenario].
Proof.
  intros HY HYd Hm Hmc Hs Hsc. apply search_here.
  unfold match_here, column_pattern, Plus. cbn [mtch].
  rewrite <-HY.
  rewrite (mtch_Repeat_class CDigit Y) by done.
  rewrite mtch_Str.
  destruct model as [|m0 model]; [done|].
  apply Forall_cons in Hmc as [Hm0 Hmc].
  destruct scenario as [|s0 scenario]; [done|].
  apply Forall_cons in Hsc as [Hs0 Hsc].
  cbn [app].
  rewrite (proj2 (proj2 (name_char_facts m0 Hm0))).
  rewrite star_lazy_skip.
  2:{ eapply Forall_impl; [exact Hmc|]. intros a Ha. split.
      - by apply name_char_facts.
      - intros rest. apply mtch_Str_mismatch.
        by destruct (name_char_facts a Ha) as [? _]. }
  apply star_lazy_stop. rewrite mtch_Str.
  rewrite (proj2 (proj2 (name_char_facts s0 Hs0))).
  apply star_greedy_all.
  { eapply Forall_impl; [exact Hsc|]. intros a Ha. by apply name_char_facts. }
  pose proof (take_consumed Y
    (lit "_" ++ m0 :: model ++ lit "_" ++ s0 :: scenario)) as HcapY.
  pose proof (take_consumed (m0 :: model) (lit "_" ++ s0 :: scenario))
    as Hcapm.
  cbn [app] in Hcapm. rewrite HcapY, Hcapm.
  rewrite Nat.sub_0_r, firstn_all. done.
Qed.

End ReFacts.

Module RegionFacts.
Import Region.

#[local] Instance row_inhabited : Inhabited row :=
  populate (mkRow NaN 0 NaN).

Lemma filter_ext_in {A} (P Q : A → Prop)
    `{!∀ x, Decision (P x), !∀ x, Decision (Q x)} (l : list A) :
  (∀ x, x ∈ l → P x ↔ Q x) → filter P l = filter Q l.
Proof.
  induction l as [|a l IH]; intros Hext; [done|].
  rewrite !filter_cons.
  assert (Ha : P a ↔ Q a) by (apply Hext; left).
  rewrite IH by (intros x Hx; apply Hext; by right).
  destruct (decide (P a)), (decide (Q a)); tauto.
Qed.

(** A filtered list, seen through the positions it keeps. *)
Lemma filter_positions {A B} `{!Inhabited A} (Q : A → Prop)
    `{!∀ x, Decision (Q x)} (g : A → B) (l : list A) : ∀ start : nat,
  g <$> filter Q l
  = (λ i, g (l !!! (i - start)%nat))
      <$> filter (λ i, Q (l !!! (i - start)%nat)) (seq start (length l)).
Proof.
  induction l as [|a l IH]; intros start; [done|].
  simpl length. rewrite <-cons_seq, !filter_cons, Nat.sub_diag. simpl.
  assert (Htail :
    (λ i, g ((a :: l) !!! (i - start)%nat))
      <$> filter (λ i, Q ((a :: l) !!! (i - start)%nat))
            (seq (S start) (length l))
    = g <$> filter Q l).
  { rewrite (IH (S start)).
    rewrite (filter_ext_in (λ i, Q ((a :: l) !!! (i - start)%nat))
               (λ i, Q (l !!! (i - S start)%nat))).
    - apply list_fmap_ext. intros ? i [_ Hi]%list_elem_of_lookup_2%list_elem_of_filter.
      apply elem_of_seq in Hi.
      replace (i - start)%nat with (S (i - S start)) by lia. done.
    - intros i Hi%elem_of_seq.
      replace (i - start)%nat with (S (i - S start)) by lia. done. }
  destruct (decide (Q a)); [|by rewrite Htail].
  rewrite !fmap_cons, Htail. cbn beta. by rewrite Nat.sub_diag.
Qed.

Lemma make_frame_lookup (M : list f64) (E : list Z) (P : list f64)
    (df : list row) (i : nat) :
  make_frame M E P = Some df → (i < length M)%nat →
  df !!! i = mkRow (M !!! i) (E !!! i) (P !!! i).
Proof.
  unfold make_frame. case_decide as Hlen; [|done]. intros [= <-] Hi.
  destruct Hlen as [HE HP].
  apply list_lookup_total_correct. rewrite lookup_zip_with.
  rewrite (list_lookup_lookup_total_lt M i) by done. simpl.
  rewrite lookup_zip_with.
  rewrite (list_lookup_lookup_total_lt E i) by lia. simpl.
  rewrite (list_lookup_lookup_total_lt P i) by lia. done.
Qed.

Lemma make_frame_length (M : list f64) (E : list Z) (P : list f64)
    (df : list row) :
  make_frame M E P = Some df → length df = length M.
Proof.
  unfold make_frame. case_decide as Hlen; [|done]. intros [= <-].
  rewrite length_zip_with, length_zip. lia.
Qed.

Lemma make_frame_regions (M : list f64) (E : list Z) (P : list f64)
    (df : list row) :
  make_frame M E P = Some df → IMAGE_region <$> df = M.
Proof.
  intros Hdf. apply list_eq. intros i. rewrite list_lookup_fmap.
  destruct (decide (i < length M)%nat) as [Hi|Hi].
  - rewrite (list_lookup_lookup_total_lt df i)
      by (by rewrite (make_frame_length _ _ _ _ Hdf)).
    rewrite (make_frame_lookup _ _ _ _ _ Hdf Hi). simpl.
    by rewrite list_lookup_lookup_total_lt.
  - rewrite !lookup_ge_None_2; [done|lia|].
    rewrite (make_frame_length _ _ _ _ Hdf). lia.
Qed.

(** The rows of one group are the cells at the positions of the region. *)
Lemma group_positions {B} (M : list f64) (E : list Z) (P : list f64)
    (df : list row) (k : f64) (g : row → B) :
  make_frame M E P = Some df →
  F.isnan k = false →
  g <$> filter (λ r, IMAGE_region r = k)
          (filter (λ r, F.isnan (IMAGE_region r) = false) df)
  = (λ i, g (mkRow (M !!! i) (E !!! i) (P !!! i)))
      <$> region_positions M k.
Proof.
  intros Hdf Hk. rewrite list_filter_filter.
  rewrite (filter_positions _ g df 0), (make_frame_length _ _ _ _ Hdf).
  unfold region_positions.
  rewrite (filter_ext_in _ (λ i, M !! i = Some k)).
  - apply list_fmap_ext.
    intros ? i [_ Hi]%list_elem_of_lookup_2%list_elem_of_filter.
    apply elem_of_seq in Hi. rewrite Nat.sub_0_r.
    rewrite (make_frame_lookup _ _ _ _ _ Hdf); [done|lia].
  - intros i Hi%elem_of_seq. rewrite Nat.sub_0_r.
    rewrite (make_frame_lookup _ _ _ _ _ Hdf) by lia. simpl.
    rewrite (list_lookup_lookup_total_lt M i) by lia.
    split; [by intros [-> _]|]. intros [= ->]. done.
Qed.

Lemma weighted_mean_group (M : list f64) (E : list Z) (P : list f64)
    (df : list row) (k : f64) :
  make_frame M E P = Some df →
  F.isnan k = false →
  weighted_mean (filter (λ r, IMAGE_region r = k)
                   (filter (λ r, F.isnan (IMAGE_region r) = false) df))
  = population_weighted_mean E P (region_positions M k).
Proof.
  intros Hdf Hk. unfold weighted_mean, population_weighted_mean.
  by rewrite !(group_positions M E P df k _ Hdf Hk).
Qed.

Lemma group_keys_elem (df : list row) (k : f64) :
  k ∈ group_keys df ↔ k ∈ IMAGE_region <$> df.
Proof.
  unfold group_keys. by rewrite merge_sort_Permutation, elem_of_remove_dups.
Qed.

Lemma group_keys_NoDup (df : list row) : NoDup (group_keys df).
Proof.
  unfold group_keys. rewrite merge_sort_Permutation. apply NoDup_remove_dups.
Qed.

Lemma groupby_apply_keys (f : list row → f64) (df : list row) :
  (groupby_apply f df).*1 = group_keys df.
Proof.
  unfold groupby_apply. rewrite <-list_fmap_compose. apply list_fmap_id.
Qed.

Lemma kept_regions (M : list f64) (E : list Z) (P : list f64)
    (df : list row) (k : f64) :
  make_frame M E P = Some df →
  k ∈ IMAGE_region <$> filter (λ r, F.isnan (IMAGE_region r) = false) df
  ↔ F.isnan k = false ∧ k ∈ M.
Proof.
  intros Hdf. rewrite <-(make_frame_regions _ _ _ _ Hdf).
  rewrite !list_elem_of_fmap. split.
  - intros (r & -> & [Hnan Hr]%list_elem_of_filter). eauto.
  - intros (Hnan & r & -> & Hr). exists r. split; [done|].
    by apply list_elem_of_filter.
Qed.

(** Without a cell that has a region the call raises. *)
Lemma get_region_values_no_region (exc : grid Z) (pop mask : grid f64)
    (file : str) (year : Z) :
  Forall (λ k, F.isnan k = true) (flatten mask) →
  get_region_values exc pop mask file year = None.
Proof.
  intros Hnan. unfold get_region_values.
  destruct (model_name file) as [name|]; simpl; [|done].
  destruct (make_frame (flatten mask) (flatten exc) (flatten pop))
    as [df|] eqn:Hdf; simpl; [|done].
  destruct (filter _ df) as [|r rest] eqn:Hf; [done|].
  assert (Hr : r ∈ filter (λ r, F.isnan (IMAGE_region r) = false) df)
    by (rewrite Hf; by left).
  apply list_elem_of_filter in Hr as [Hr Hin].
  assert (Hk : IMAGE_region r ∈ flatten mask).
  { rewrite <-(make_frame_regions _ _ _ _ Hdf). apply list_elem_of_fmap.
    by exists r. }
  rewrite Forall_forall in Hnan. specialize (Hnan _ Hk). congruence.
Qed.

(** What [get_region_values] returns on co-registered fields with at
least one cell in a region. *)
Lemma get_region_values_rows (exc : grid Z) (pop mask : grid f64)
    (file : str) (year : Z) (name : str) :
  length (flatten exc) = length (flatten mask) →
  length (flatten pop) = length (flatten mask) →
  model_name file = Some name →
  Exists (λ k, F.isnan k = false) (flatten mask) →
  ∃ rows,
    get_region_values exc pop mask file year
    = Some (mkRegionTable (format_int year ++ lit "_" ++ name) rows)
    ∧ NoDup rows.*1
    ∧ (∀ k, k ∈ rows.*1 ↔ F.isnan k = false ∧ k ∈ flatten mask)
    ∧ (∀ k v, (k, v) ∈ rows →
         F.isnan k = false
         ∧ v = population_weighted_mean (flatten exc) (flatten pop)
                 (region_positions (flatten mask) k)).
Proof.
  intros Hexc Hpop Hname Hregion.
  unfold get_region_values. rewrite Hname. simpl.
  destruct (make_frame (flatten mask) (flatten exc) (flatten pop))
    as [df|] eqn:Hdf.
  2:{ unfold make_frame in Hdf. by rewrite decide_True in Hdf. }
  simpl.
  destruct (filter (λ r, F.isnan (IMAGE_region r) = false) df)
    as [|r0 rest] eqn:Hf.
  { apply Exists_exists in Hregion as (k & Hk & Hnan).
    assert (Hin : k ∈ IMAGE_region
                      <$> filter (λ r, F.isnan (IMAGE_region r) = false) df)
      by (by apply (kept_regions _ _ _ _ _ Hdf)).
    rewrite Hf in Hin. by apply elem_of_nil in Hin. }
  rewrite <-Hf. clear r0 rest Hf.
  eexists. split; [done|].
  rewrite groupby_apply_keys.
  assert (Hkeys : ∀ k,
    k ∈ group_keys (filter (λ r, F.isnan (IMAGE_region r) = false) df)
    ↔ F.isnan k = false ∧ k ∈ flatten mask).
  { intros k. rewrite group_keys_elem. by apply (kept_regions _ _ _ _ _ Hdf). }
  split; [apply group_keys_NoDup|]. split; [done|].
  intros k v (k' & [= -> ->] & Hk)%list_elem_of_fmap.
  apply Hkeys in Hk as [Hnan _]. split; [done|].
  by apply weighted_mean_group.
Qed.

(** C2.  On co-registered fields of which at least one cell lies in a
region, [get_region_values] keeps exactly the cells whose region
identifier is not NaN, has one row per region identifier among them, and
gives every region the population-weighted mean
[sum(exceedance_i * population_i) / sum(population_i)] over the
positions of that region.  Two cells with populations 10 and 30 and
counts 5 and 15 give 12.5.  (Where no cell lies in a region the call
raises.) *)
Theorem get_region_values_weighted_mean (exc : grid Z) (pop mask : grid f64)
    (file : str) (year : Z) (name : str) :
  length (flatten exc) = length (flatten mask) →
  length (flatten pop) = length (flatten mask) →
  model_name file = Some name →
  Exists (λ k, F.isnan k = false) (flatten mask) →
  (∃ rows,
    get_region_values exc pop mask file year
    = Some (mkRegionTable (format_int year ++ lit "_" ++ name) rows)
    ∧ NoDup rows.*1
    ∧ (∀ k, k ∈ rows.*1 ↔ F.isnan k = false ∧ k ∈ flatten mask)
    ∧ (∀ k v, (k, v) ∈ rows →
         v = population_weighted_mean (flatten exc) (flatten pop)
               (region_positions (flatten mask) k)))
  ∧ weighted_mean example_group = F.of_Q (25 # 2).
Proof.
  intros Hexc Hpop Hname Hregion. split.
  - destruct (get_region_values_rows exc pop mask file year name)
      as (rows & Hrun & Hnd & Hkeys & Hrows); [done..|].
    exists rows. split; [done|]. split; [done|]. split; [done|].
    intros k v Hkv. by apply Hrows.
  - by_computation.
Qed.

Lemma get_region_values_weighted_mean_witness :
  (∃ rows,
    get_region_values sample_count sample_pop sample_mask sample_file 2025
    = Some (mkRegionTable
              (format_int 2025 ++ lit "_" ++ lit "ACCESS-CM2_ssp126") rows)
    ∧ NoDup rows.*1
    ∧ (∀ k, k ∈ rows.*1 ↔ F.isnan k = false ∧ k ∈ flatten sample_mask)
    ∧ (∀ k v, (k, v) ∈ rows →
         v = population_weighted_mean (flatten sample_count)
               (flatten sample_pop)
               (region_positions (flatten sample_mask) k)))
  ∧ weighted_mean example_group = F.of_Q (25 # 2).
Proof.
  apply (get_region_values_weighted_mean sample_count sample_pop sample_mask
           sample_file 2025 (lit "ACCESS-CM2_ssp126")).
  - reflexivity.
  - reflexivity.
  - vm_compute. reflexivity.
  - left. reflexivity.
Defined.

(** The sample: region 1 holds the two cells of the example, region 2
has no population. *)
Example get_region_values_sample :
  get_region_values sample_count sample_pop sample_mask sample_file 2025
  = Some (mkRegionTable (lit "2025_ACCESS-CM2_ssp126")
            [(F.of_Z 1, F.of_Q (25 # 2)); (F.of_Z 2, NaN)]).
Proof.
  by_computation.
Qed.

(** *** Regions without population *)

Lemma Qc_sum_zero (a b : Qc) :
  (0 ≤ a)%Qc → (0 ≤ b)%Qc → (a + b = 0)%Qc → a = 0%Qc ∧ b = 0%Qc.
Proof.
  intros Ha Hb Hab.
  destruct (Qcle_lt_or_eq _ _ Ha) as [Hlt| <-].
  - exfalso. apply (Qclt_not_le 0 (a + b)); [|by rewrite Hab].
    by apply Qcplus_pos_nonneg.
  - by rewrite Qcplus_0_l in Hab.
Qed.

Lemma Fin_inj (a b : Qc) : Fin a = Fin b → a = b.
Proof. intros H. by injection H. Qed.

Lemma foldl_add_zero (ys : list f64) : ∀ acc : f64,
  (acc = PInf ∨ ∃ a, acc = Fin a ∧ (0 ≤ a)%Qc) →
  Forall (λ y, F.isnan y = false ∧ not_negative y) ys →
  foldl F.add acc ys = F.zero →
  acc = F.zero ∧ Forall (λ y, y = F.zero) ys.
Proof.
  induction ys as [|y ys IH]; intros acc Hacc Hys Hsum; [done|].
  apply Forall_cons in Hys as [[Hnan Hneg] Hys]. simpl in Hsum.
  assert (Hy : y = PInf ∨ ∃ b, y = Fin b ∧ (0 ≤ b)%Qc).
  { destruct y as [b| | |]; try done; [right|by left].
    exists b. split; [done|]. apply Qcnot_lt_le.
    unfold not_negative, F.ltb, F.zero, F.Qc_ltb in Hneg.
    by apply bool_decide_eq_false in Hneg. }
  destruct Hacc as [->|(a & -> & Ha)], Hy as [->|(b & -> & Hb)].
  - by destruct (IH PInf) as [? _]; [by left|done|done|].
  - by destruct (IH PInf) as [? _]; [by left|done|done|].
  - by destruct (IH PInf) as [? _]; [by left|done|done|].
  - destruct (IH (Fin (a + b)%Qc)) as [Hab Hrest]; [|done|done|].
    { right. eexists. split; [done|]. by apply Qcplus_nonneg_nonneg. }
    apply Fin_inj in Hab.
    destruct (Qc_sum_zero a b Ha Hb Hab) as [-> ->].
    split; [done|]. by constructor.
Qed.

(** A vanishing sum of values none of which is negative: every value that
is not missing is zero. *)
Lemma pd_sum_zero (xs : list f64) :
  Forall not_negative xs → pd_sum xs = F.zero →
  Forall (λ x, x = NaN ∨ x = F.zero) xs.
Proof.
  intros Hneg Hsum. unfold pd_sum in Hsum.
  apply foldl_add_zero in Hsum as [_ Hzero].
  - apply Forall_forall. intros x Hx.
    destruct (F.isnan x) eqn:Hnan; [left; by destruct x|right].
    rewrite Forall_forall in Hzero. apply Hzero.
    by apply list_elem_of_filter.
  - right. by exists 0%Qc.
  - apply Forall_forall. intros x [Hnan Hx]%list_elem_of_filter.
    split; [done|]. rewrite Forall_forall in Hneg. by apply Hneg.
Qed.

Lemma pd_sum_of_zeros (xs : list f64) :
  Forall (λ x, x = NaN ∨ x = F.zero) xs → pd_sum xs = F.zero.
Proof.
  unfold pd_sum. induction 1 as [|x xs Hx _ IH]; [done|].
  destruct Hx as [->| ->]; [done|].
  rewrite filter_cons_True by done. simpl.
  by rewrite Qcplus_0_l.
Qed.

Lemma div_zero_zero : F.div F.zero F.zero = NaN.
Proof. reflexivity. Qed.

Lemma mul_count_zero (e : Z) (p : f64) :
  p = NaN ∨ p = F.zero → F.mul (F.of_Z e) p = NaN ∨ F.mul (F.of_Z e) p = F.zero.
Proof.
  intros [->| ->]; [by left|right].
  unfold F.mul, F.of_Z, F.zero. by rewrite Qcmult_0_r.
Qed.

(** C4, as the program behaves.  On co-registered fields of which at
least one cell lies in a region, for every region whose total population
is zero, no cell of it having a negative population, [get_region_values]
returns normally and the value of the region is NaN: the quotient 0/0 is
computed, nothing is raised and no marker is written. *)
Theorem zero_population_region_is_nan (exc : grid Z) (pop mask : grid f64)
    (file : str) (year : Z) (name : str) :
  length (flatten exc) = length (flatten mask) →
  length (flatten pop) = length (flatten mask) →
  model_name file = Some name →
  Exists (λ k, F.isnan k = false) (flatten mask) →
  ∃ tbl,
    get_region_values exc pop mask file year = Some tbl
    ∧ ∀ k v, (k, v) ∈ region_rows tbl →
        total_population (flatten mask) (flatten pop) k = F.zero →
        Forall not_negative
          ((λ i, flatten pop !!! i) <$> region_positions (flatten mask) k) →
        v = NaN.
Proof.
  intros Hexc Hpop Hname Hregion.
  destruct (get_region_values_rows exc pop mask file year name)
    as (rows & Hrun & _ & _ & Hrows); [done..|].
  eexists. split; [exact Hrun|]. simpl.
  intros k v Hkv Htotal Hneg.
  destruct (Hrows k v Hkv) as [_ ->].
  unfold population_weighted_mean. unfold total_population in Htotal.
  rewrite Htotal.
  pose proof (pd_sum_zero _ Hneg Htotal) as Hzero.
  rewrite pd_sum_of_zeros; [apply div_zero_zero|].
  apply Forall_fmap. apply Forall_fmap in Hzero.
  eapply Forall_impl; [exact Hzero|].
  intros i Hi. by apply mul_count_zero.
Qed.

Lemma zero_population_region_is_nan_witness :
  ∃ tbl,
    get_region_values sample_count sample_pop sample_mask sample_file 2025
    = Some tbl
    ∧ ∀ k v, (k, v) ∈ region_rows tbl →
        total_population (flatten sample_mask) (flatten sample_pop) k = F.zero →
        Forall not_negative
          ((λ i, flatten sample_pop !!! i)
             <$> region_positions (flatten sample_mask) k) →
        v = NaN.
Proof.
  apply (zero_population_region_is_nan sample_count sample_pop sample_mask
           sample_file 2025 (lit "ACCESS-CM2_ssp126")).
  - reflexivity.
  - reflexivity.
  - vm_compute. reflexivity.
  - left. reflexivity.
Defined.

(** C4, as stated, fails on the sample: region 2 has total population
zero, the call returns normally, and the value written for region 2 is
NaN. *)
Lemma zero_population_not_handled :
  ∃ tbl,
    get_region_values sample_count sample_pop sample_mask sample_file 2025
    = Some tbl
    ∧ total_population (flatten sample_mask) (flatten sample_pop) (F.of_Z 2)
      = F.zero
    ∧ (F.of_Z 2, NaN) ∈ region_rows tbl.
Proof.
  eexists. split; [apply get_region_values_sample|].
  split; [by_computation|]. simpl. right. left.
Qed.

End RegionFacts.

Module RoundFacts.
Import B64.

Lemma pow2_nonneg (z : Z) : 0 ≤ z → pow2 z = inject_Z (2 ^ z).
Proof. intros Hz. unfold pow2. by rewrite (proj2 (Z.leb_le 0 z)). Qed.

Lemma pow2_neg (z : Z) : z < 0 → pow2 z = (/ inject_Z (2 ^ (- z)))%Q.
Proof. intros Hz. unfold pow2. by rewrite (proj2 (Z.leb_gt 0 z)). Qed.

Lemma inject_Z_pow2_nonzero (z : Z) : 0 ≤ z → ¬ (inject_Z (2 ^ z) == 0)%Q.
Proof.
  intros Hz H. unfold Qeq in H. simpl in H.
  pose proof (Z.pow_pos_nonneg 2 z ltac:(lia) Hz). lia.
Qed.

(** A number below 1024 in magnitude has an exponent of at most 9. *)
Lemma exponent_le_9 (q : Q) :
  ¬ (q == 0)%Q → (Qabs q < inject_Z 1024)%Q → exponent q ≤ 9.
Proof.
  destruct q as [n d]. intros Hq Habs.
  assert (Hn : 0 < Z.abs n).
  { destruct (decide (n = 0)) as [->|]; [|lia]. by destruct Hq. }
  assert (Hlt : Z.abs n < 1024 * Z.pos d).
  { unfold Qabs, Qlt in Habs. simpl in Habs. lia. }
  unfold exponent. cbn [Qnum Qden].
  pose proof (Z.log2_spec (Z.pos d) ltac:(lia)) as [_ Hd].
  pose proof (Z.log2_nonneg (Z.pos d)) as Hd0.
  assert (Hlog : Z.log2 (Z.abs n) < Z.log2 (Z.pos d) + 11).
  { apply Z.log2_lt_pow2; [done|].
    rewrite Z.pow_add_r by lia.
    replace (Z.succ (Z.log2 (Z.pos d))) with (Z.log2 (Z.pos d) + 1) in Hd
      by lia.
    rewrite Z.pow_add_r in Hd by lia.
    change (2 ^ 11) with 2048. change (2 ^ 1) with 2 in Hd. lia. }
  remember (Z.log2 (Z.abs n) - Z.log2 (Z.pos d)) as e0 eqn:He0.
  destruct (Z.leb_spec (2 ^ Z.max e0 0 * Z.pos d)
              (Z.abs n * 2 ^ Z.max (- e0) 0)) as [Htest|Htest]; [|lia].
  destruct (decide (e0 = 10)) as [->|]; [|lia].
  change (2 ^ Z.max 10 0) with 1024 in Htest.
  change (2 ^ Z.max (- (10)) 0) with 1 in Htest. lia.
Qed.

Lemma round_half_even_Z (j : Z) : round_half_even (inject_Z j) = j.
Proof.
  unfold round_half_even. rewrite Qfloor_Z.
  assert (H : (inject_Z j - inject_Z j ?= 1 # 2)%Q = Lt).
  { apply (proj1 (Qlt_alt _ _)).
    unfold Qlt, Qminus, Qplus, Qopp, inject_Z. simpl. lia. }
  by rewrite H.
Qed.

Lemma round_half_even_comp (x y : Q) :
  (x == y)%Q → round_half_even x = round_half_even y.
Proof.
  intros Hxy. unfold round_half_even.
  rewrite (Qfloor_comp x y Hxy).
  assert (H : (x - inject_Z (Qfloor y) ?= 1 # 2)%Q
              = (y - inject_Z (Qfloor y) ?= 1 # 2)%Q).
  { apply Qcompare_comp; [by rewrite Hxy|reflexivity]. }
  by rewrite H.
Qed.

(** A number with at most 43 binary places and below 1024 in magnitude is
a double: rounding returns it. *)
Lemma round_Q_exact (q : Q) :
  dyadic q → (Qabs q < inject_Z 1024)%Q → (round_Q q == q)%Q.
Proof.
  intros [k Hk] Habs. unfold round_Q.
  destruct (Qeq_bool q 0) eqn:Hzero.
  { apply Qeq_bool_iff in Hzero. by rewrite Hzero. }
  apply Qeq_bool_neq in Hzero.
  pose proof (exponent_le_9 q Hzero Habs) as He.
  unfold ulp_exponent.
  set (u := Z.max (exponent q - 52) (-1074)).
  assert (Hu : -1074 ≤ u ≤ -43) by lia. clearbody u.
  rewrite (pow2_nonneg (- u)) by lia. rewrite (pow2_neg u) by lia.
  assert (Hpow : 2 ^ (- u) = 2 ^ 43 * 2 ^ (- u - 43)).
  { rewrite <-Z.pow_add_r by lia. f_equal. lia. }
  set (P := 2 ^ (- u - 43)) in *.
  assert (HP : ¬ (inject_Z P == 0)%Q) by (apply inject_Z_pow2_nonzero; lia).
  assert (HM : ¬ (inject_Z (2 ^ 43) == 0)%Q)
    by (apply inject_Z_pow2_nonzero; lia).
  rewrite Hpow.
  assert (Hint : (q * inject_Z (2 ^ 43 * P) == inject_Z (k * P))%Q).
  { rewrite Hk, !inject_Z_mult. field. exact HM. }
  rewrite (round_half_even_comp _ _ Hint), round_half_even_Z.
  rewrite Hk, !inject_Z_mult. field. by split.
Qed.

Lemma round_exact (a : Qc) :
  dyadic (this a) → (Qabs (this a) < inject_Z 1024)%Q → round (Fin a) = Fin a.
Proof.
  intros Hd Habs. unfold round.
  pose proof (round_Q_exact (this a) Hd Habs) as Hr.
  assert (Hover : Qle_bool (pow2 1024) (Qabs (round_Q (this a))) = false).
  { apply not_true_is_false. intros H%Qle_bool_iff.
    rewrite Hr in H.
    apply (Qlt_irrefl (inject_Z 1024)).
    apply Qlt_le_trans with (pow2 1024); [vm_compute; reflexivity|].
    apply Qle_trans with (Qabs (this a)); [exact H|].
    by apply Qlt_le_weak. }
  rewrite Hover. f_equal. apply Qc_is_canon. simpl.
  by rewrite Qred_correct.
Qed.

(** *** Numbers with 43 binary places *)

Lemma dyadic_plus_Z (q : Q) (c : Z) : dyadic q → dyadic (q + inject_Z c).
Proof.
  intros [k Hk]. exists (k + c * 2 ^ 43).
  rewrite Hk, inject_Z_plus, inject_Z_mult. field.
  apply inject_Z_pow2_nonzero. lia.
Qed.

Lemma dyadic_comp (q q' : Q) : (q == q')%Q → dyadic q → dyadic q'.
Proof. intros Hq [k Hk]. exists k. by rewrite <-Hq. Qed.

Lemma dyadic_denominator (n : Z) (d : positive) :
  2 ^ 43 mod Z.pos d = 0 → dyadic (n # d).
Proof.
  intros Hmod. apply Z.mod_divide in Hmod as [c Hc]; [|lia].
  assert (Hpos : 0 < c * Z.pos d).
  { rewrite <-Hc. by apply Z.pow_pos_nonneg. }
  exists (n * c). rewrite Hc, Qmake_Qdiv, !inject_Z_mult. field. split.
  - intros H. unfold Qeq in H. simpl in H. lia.
  - intros H. unfold Qeq in H. simpl in H. nia.
Qed.

End RoundFacts.

Module AlignFacts.
Import Align.
Local Open Scope Z_scope.

(** *** Coordinate names *)

Lemma canonical_name_other (name : str) :
  ¬ is_synonym name → canonical_name name = name.
Proof.
  unfold is_synonym, canonical_name. intros H.
  repeat case_decide; tauto.
Qed.

Lemma rename_step_lookup (d : gmap str str) (n name : str) :
  rename_step d n !! name
  = if decide (n = name ∧ is_synonym name)
    then Some (canonical_name name) else d !! name.
Proof.
  unfold rename_step.
  destruct (decide (n = name ∧ is_synonym name)) as [[-> Hs]|Hn].
  - unfold canonical_name.
    destruct (decide (name ∈ lat_names)); [by rewrite lookup_insert_eq|].
    destruct (decide (name ∈ lon_names)); [by rewrite lookup_insert_eq|].
    destruct (decide (name ∈ time_names)); [by rewrite lookup_insert_eq|].
    by destruct Hs as [?|[?|?]].
  - destruct (decide (n = name)) as [->|Hne].
    + assert (Hs : ¬ is_synonym name) by (intros ?; by apply Hn).
      unfold is_synonym in Hs.
      destruct (decide (name ∈ lat_names)); [tauto|].
      destruct (decide (name ∈ lon_names)); [tauto|].
      destruct (decide (name ∈ time_names)); [tauto|done].
    + destruct (decide (n ∈ lat_names)); [by rewrite lookup_insert_ne|].
      destruct (decide (n ∈ lon_names)); [by rewrite lookup_insert_ne|].
      destruct (decide (n ∈ time_names)); [by rewrite lookup_insert_ne|done].
Qed.

Lemma foldl_rename_step_lookup (names : list str) (name : str) :
  ∀ d : gmap str str,
  foldl rename_step d names !! name
  = if decide (name ∈ names ∧ is_synonym name)
    then Some (canonical_name name) else d !! name.
Proof.
  induction names as [|n names IH]; intros d.
  - rewrite decide_False; [done|]. intros [?%elem_of_nil _]. done.
  - cbn [foldl]. rewrite IH, rename_step_lookup.
    destruct (decide (name ∈ names ∧ is_synonym name)) as [[Hin Hs]|Hn].
    + rewrite decide_True; [done|]. split; [by right|done].
    + destruct (decide (n = name ∧ is_synonym name)) as [[-> Hs]|Hn'].
      * rewrite decide_True; [done|]. split; [by left|done].
      * rewrite decide_False; [done|].
        intros [[->|Hin]%elem_of_cons Hs]; tauto.
Qed.

Lemma new_name_canonical (ds : DataArray) (name : str) :
  name ∈ (coords ds).*1 →
  default name (build_rename_dict ds !! name) = canonical_name name.
Proof.
  intros Hin. unfold build_rename_dict.
  rewrite foldl_rename_step_lookup, lookup_empty.
  destruct (decide (is_synonym name)) as [Hs|Hs].
  - by rewrite decide_True.
  - rewrite decide_False by tauto. simpl. by rewrite canonical_name_other.
Qed.

Lemma canonical_name_cases (name : str) :
  (name ∈ lat_names → canonical_name name = new_lat)
  ∧ (name ∈ lon_names → canonical_name name = new_lon)
  ∧ (name ∈ time_names → canonical_name name = new_time)
  ∧ (¬ is_synonym name → canonical_name name = name).
Proof.
  split; [|split; [|split]]; [| | |apply canonical_name_other].
  - intros H. unfold canonical_name. by rewrite decide_True.
  - intros H. unfold canonical_name.
    rewrite decide_False, decide_True; [done..|].
    revert H. unfold lon_names, lat_names.
    rewrite !elem_of_cons, !elem_of_nil. intros [->|[->|[->|[->|[->|[]]]]]];
      vm_compute; intros H; decompose [or] H; done.
  - intros H. unfold canonical_name.
    rewrite decide_False, decide_False, decide_True; [done..| |].
    + revert H. unfold lon_names, time_names.
      rewrite !elem_of_cons, !elem_of_nil. intros [->|[->|[->|[]]]];
        vm_compute; intros H; decompose [or] H; done.
    + revert H. unfold lat_names, time_names.
      rewrite !elem_of_cons, !elem_of_nil. intros [->|[->|[->|[]]]];
        vm_compute; intros H; decompose [or] H; done.
Qed.

(** C9.  [homogenize_lat_lon] enters into its dictionary exactly the
coordinate names of the dataset that are known synonyms, each with the
canonical name of its axis.  Where the renamed names do not collide, it
returns the dataset with every coordinate in its place and with its
values: a synonym of latitude, longitude or time under the canonical
name, every other coordinate under its own name; the data values are
untouched. *)
Theorem homogenize_renames_synonyms (ds : DataArray) :
  NoDup (canonical_name <$> (coords ds).*1) →
  (∀ name,
     build_rename_dict ds !! name
     = if decide (name ∈ (coords ds).*1 ∧ is_synonym name)
       then Some (canonical_name name) else None)
  ∧ ∃ ds',
      homogenize_lat_lon ds = Some ds'
      ∧ values ds' = values ds
      ∧ length (coords ds') = length (coords ds)
      ∧ ∀ i name c, coords ds !! i = Some (name, c) →
          ∃ name', coords ds' !! i = Some (name', c)
            ∧ (name ∈ lat_names → name' = new_lat)
            ∧ (name ∈ lon_names → name' = new_lon)
            ∧ (name ∈ time_names → name' = new_time)
            ∧ (¬ is_synonym name → name' = name).
Proof.
  intros Hnd. split.
  { intros name. unfold build_rename_dict.
    by rewrite foldl_rename_step_lookup, lookup_empty. }
  assert (Hnames :
    (λ k, default k (build_rename_dict ds !! k)) <$> (coords ds).*1
    = canonical_name <$> (coords ds).*1).
  { apply list_fmap_ext. intros i name Hi. apply new_name_canonical.
    by eapply list_elem_of_lookup_2. }
  unfold homogenize_lat_lon, rename. rewrite Hnames, decide_True by done.
  eexists. split; [done|]. simpl. split; [done|].
  split; [by rewrite length_fmap|].
  intros i name c Hi. exists (canonical_name name). split.
  - rewrite list_lookup_fmap, Hi. simpl. f_equal. f_equal.
    apply new_name_canonical. apply list_elem_of_fmap.
    exists (name, c). split; [done|]. by eapply list_elem_of_lookup_2.
  - apply canonical_name_cases.
Qed.

Lemma homogenize_renames_synonyms_witness :
  (∀ name,
     build_rename_dict sample_data !! name
     = if decide (name ∈ (coords sample_data).*1 ∧ is_synonym name)
       then Some (canonical_name name) else None)
  ∧ ∃ ds',
      homogenize_lat_lon sample_data = Some ds'
      ∧ values ds' = values sample_data
      ∧ length (coords ds') = length (coords sample_data)
      ∧ ∀ i name c, coords sample_data !! i = Some (name, c) →
          ∃ name', coords ds' !! i = Some (name', c)
            ∧ (name ∈ lat_names → name' = new_lat)
            ∧ (name ∈ lon_names → name' = new_lon)
            ∧ (name ∈ time_names → name' = new_time)
            ∧ (¬ is_synonym name → name' = name).
Proof.
  apply (homogenize_renames_synonyms sample_data).
  apply (bool_decide_unpack _). vm_compute. exact I.
Defined.

(** On the sample the three axes are renamed and [height] stays. *)
Example homogenize_sample :
  (λ ds, (dims ds, (coords ds).*1)) <$> homogenize_lat_lon sample_data
  = Some ([lit "valid_time"; lit "latitude"; lit "longitude"],
          [lit "valid_time"; lit "latitude"; lit "longitude"; lit "height"]).
Proof. vm_compute. reflexivity. Qed.

(** Two synonyms of one axis collide: the renaming raises. *)
Example homogenize_collision :
  homogenize_lat_lon
    {| dims := [lit "lat"]; values := [];
       coords := [(lit "lat", Numbers []); (lit "Lat", Numbers [])] |}
  = None.
Proof. vm_compute. reflexivity. Qed.

(** *** The longitude wrap *)

Lemma py_mod_range (a : Q) : (0 <= py_mod a 360 ∧ py_mod a 360 < 360)%Q.
Proof.
  unfold py_mod.
  pose proof (Qfloor_le (a / 360)) as Hlo.
  pose proof (Qlt_floor (a / 360)) as Hhi.
  rewrite inject_Z_plus in Hhi.
  assert (Ha : (a == 360 * (a / 360))%Q) by (field; done).
  set (x := (a / 360)%Q) in *. set (f := inject_Z (Qfloor x)) in *.
  change (inject_Z 1) with 1%Q in Hhi.
  split; lra.
Qed.

Lemma py_mod_small (a : Q) : (0 <= a)%Q → (a < 360)%Q → (py_mod a 360 == a)%Q.
Proof.
  intros Hlo Hhi. unfold py_mod.
  assert (Hf : Qfloor (a / 360) = 0).
  { pose proof (Qfloor_le (a / 360)) as Hfl.
    pose proof (Qlt_floor (a / 360)) as Hfh.
    assert (Ha : (a == 360 * (a / 360))%Q) by (field; done).
    set (x := (a / 360)%Q) in *.
    assert (H1 : (inject_Z (Qfloor x) < inject_Z 1)%Q)
      by (change (inject_Z 1) with 1%Q; lra).
    assert (H2 : (inject_Z (-1) < inject_Z (Qfloor x))%Q).
    { rewrite inject_Z_plus in Hfh.
      change (inject_Z 1) with 1%Q in Hfh.
      change (inject_Z (-1)) with (-1 # 1)%Q. lra. }
    rewrite <-Zlt_Qlt in H1, H2. lia. }
  rewrite Hf. change (inject_Z 0) with 0%Q. ring.
Qed.

Lemma wrap_exact_Fin (a : Qc) :
  wrap_longitude_exact (Fin a)
  = Fin (Q2Qc (py_mod (a + Q2Qc (inject_Z 180))%Qc 360)
         + - Q2Qc (inject_Z 180))%Qc.
Proof. reflexivity. Qed.

Lemma Qc_this_plus (a b : Qc) : (this (a + b)%Qc == this a + this b)%Q.
Proof. simpl. apply Qred_correct. Qed.

Lemma Qc_this_Q2Qc (q : Q) : (this (Q2Qc q) == q)%Q.
Proof. simpl. apply Qred_correct. Qed.

Lemma Qc_this_opp (a : Qc) : (this (- a)%Qc == - this a)%Q.
Proof. simpl. apply Qred_correct. Qed.

Lemma wrap_exact_range (a : Qc) :
  ∃ b : Qc, wrap_longitude_exact (Fin a) = Fin b
            ∧ (-180 <= this b)%Q ∧ (this b < 180)%Q.
Proof.
  rewrite wrap_exact_Fin. eexists. split; [done|].
  rewrite Qc_this_plus, Qc_this_opp, !Qc_this_Q2Qc.
  pose proof (py_mod_range (a + Q2Qc (inject_Z 180))%Qc) as [Hlo Hhi].
  set (m := py_mod _ 360) in *. clearbody m.
  change (inject_Z 180) with (180 # 1)%Q. split; lra.
Qed.

(** The exact formula leaves the longitudes of the range [-180, 180) as
they are. *)
Lemma wrap_exact_noop (a : Qc) :
  (-180 <= this a)%Q → (this a < 180)%Q → wrap_longitude_exact (Fin a) = Fin a.
Proof.
  intros Hlo Hhi. rewrite wrap_exact_Fin. f_equal.
  apply Qc_is_canon.
  rewrite Qc_this_plus, Qc_this_opp, !Qc_this_Q2Qc.
  rewrite py_mod_small.
  - rewrite Qc_this_plus, Qc_this_Q2Qc. ring.
  - rewrite Qc_this_plus, Qc_this_Q2Qc.
    change (inject_Z 180) with (180 # 1)%Q. lra.
  - rewrite Qc_this_plus, Qc_this_Q2Qc.
    change (inject_Z 180) with (180 # 1)%Q. lra.
Qed.

(** *** The formula on doubles *)

(** The truncated quotient is the floored one, or one above it where the
remainder is negative. *)
Lemma quot_floor (n d : Z) :
  0 < d →
  Z.quot n d = n `div` d ∨ (Z.quot n d = n `div` d + 1 ∧ n `mod` d ≠ 0).
Proof.
  intros Hd. destruct (decide (0 ≤ n)) as [Hn|Hn].
  - left. by apply Z.quot_div_nonneg.
  - pose proof (Z.quot_opp_l (- n) d ltac:(lia)) as Hq.
    rewrite Z.opp_involutive in Hq.
    rewrite (Z.quot_div_nonneg (- n) d) in Hq by lia.
    destruct (decide (n `mod` d = 0)) as [Hm|Hm].
    + left. rewrite Hq. rewrite Z.div_opp_l_z by (lia || done).
      lia.
    + right. split; [|done]. rewrite Hq.
      rewrite Z.div_opp_l_nz by (lia || done). lia.
Qed.

Lemma Q2Qc_comp (q q' : Q) : (q == q')%Q → Q2Qc q = Q2Qc q'.
Proof. intros H. by apply Q2Qc_eq_iff. Qed.

(** On a number with 43 binary places the remainder of numpy is the exact
one. *)
Lemma remainder_exact (s : Qc) :
  B64.dyadic (this s) → B64.remainder (Fin s) 360 = fmod (Fin s) 360.
Proof.
  intros Hs. unfold B64.remainder, fmod.
  pose proof (py_mod_range (this s)) as [Hlo Hhi].
  assert (Hp : B64.dyadic (py_mod (this s) 360)).
  { unfold py_mod.
    eapply RoundFacts.dyadic_comp;
      [|apply (RoundFacts.dyadic_plus_Z _
                 (- (360 * Qfloor (this s / 360))) Hs)].
    rewrite inject_Z_opp, inject_Z_mult. change (inject_Z 360) with 360%Q.
    ring. }
  unfold B64.fmod_Q, py_mod in *.
  set (t := (this s / 360)%Q) in *.
  assert (Hfloor : Qfloor t = Qnum t `div` Z.pos (Qden t)) by (by destruct t).
  destruct (quot_floor (Qnum t) (Z.pos (Qden t)) ltac:(lia)) as [Heq|[Heq _]].
  - rewrite Heq, <-Hfloor.
    by rewrite (proj2 (Qle_bool_iff _ _) Hlo).
  - rewrite Heq, <-Hfloor.
    set (f := Qfloor t) in *.
    assert (Hneg : Qle_bool 0 (this s - 360 * inject_Z (f + 1)) = false).
    { apply not_true_is_false. intros H%Qle_bool_iff.
      rewrite inject_Z_plus in H. change (inject_Z 1) with 1%Q in H.
      set (x := inject_Z f) in *. clearbody x. lra. }
    rewrite Hneg.
    assert (Hsame : (this s - 360 * inject_Z (f + 1) + 360
                     == this s - 360 * inject_Z f)%Q).
    { rewrite inject_Z_plus. change (inject_Z 1) with 1%Q. ring. }
    rewrite (Q2Qc_comp _ _ Hsame).
    apply RoundFacts.round_exact.
    + eapply RoundFacts.dyadic_comp; [|exact Hp]. symmetry.
      apply Qc_this_Q2Qc.
    + rewrite Qc_this_Q2Qc. apply Qabs_Qlt_condition.
      set (p := (this s - 360 * inject_Z f)%Q) in *. clearbody p.
      change (inject_Z 1024) with (1024 # 1)%Q. split; lra.
Qed.

Lemma Qabs_bound (q : Q) (lo hi : Z) :
  -1024 < lo → hi < 1024 →
  (inject_Z lo <= q)%Q → (q <= inject_Z hi)%Q →
  (Qabs q < inject_Z 1024)%Q.
Proof.
  intros Hlo Hhi Hq1 Hq2. apply Qabs_Qlt_condition. split.
  - eapply Qlt_le_trans; [|exact Hq1].
    rewrite <-inject_Z_opp, <-Zlt_Qlt. lia.
  - eapply Qle_lt_trans; [exact Hq2|]. rewrite <-Zlt_Qlt. lia.
Qed.

(** On a longitude with 43 binary places between -540 and 540 no
operation of the formula rounds: the program computes the exact
value. *)
Lemma wrap_longitude_on_grid (a : Qc) :
  B64.dyadic (this a) →
  (inject_Z (-540) <= this a)%Q → (this a <= inject_Z 540)%Q →
  wrap_longitude (Fin a) = wrap_longitude_exact (Fin a).
Proof.
  intros Ha Hlo Hhi. unfold wrap_longitude, wrap_longitude_exact.
  assert (Hs : B64.dyadic (this (a + Q2Qc (inject_Z 180))%Qc)).
  { eapply RoundFacts.dyadic_comp;
      [|apply (RoundFacts.dyadic_plus_Z _ 180 Ha)].
    by rewrite Qc_this_plus, Qc_this_Q2Qc. }
  assert (Hadd : B64.add (Fin a) (F.of_Z 180) = F.add (Fin a) (F.of_Z 180)).
  { unfold B64.add. cbn [F.add F.of_Z].
    apply RoundFacts.round_exact; [done|].
    apply (Qabs_bound _ (-360) 720); [lia..| |].
    - rewrite Qc_this_plus, Qc_this_Q2Qc.
      change (inject_Z (-360)) with (-360 # 1)%Q.
      change (inject_Z (-540)) with (-540 # 1)%Q in Hlo.
      change (inject_Z 180) with (180 # 1)%Q. lra.
    - rewrite Qc_this_plus, Qc_this_Q2Qc.
      change (inject_Z 720) with (720 # 1)%Q.
      change (inject_Z 540) with (540 # 1)%Q in Hhi.
      change (inject_Z 180) with (180 # 1)%Q. lra. }
  rewrite Hadd. cbn [F.add F.of_Z].
  rewrite remainder_exact by done.
  unfold B64.sub, fmod. cbn [F.sub F.opp F.add F.of_Z].
  pose proof (py_mod_range (a + Q2Qc (inject_Z 180))%Qc) as [Hplo Hphi].
  set (p := py_mod _ 360) in *.
  assert (Hp : B64.dyadic p).
  { unfold p, py_mod.
    eapply RoundFacts.dyadic_comp;
      [|apply (RoundFacts.dyadic_plus_Z _
                 (- (360 * Qfloor ((a + Q2Qc (inject_Z 180))%Qc / 360)))
                 Hs)].
    rewrite inject_Z_opp, inject_Z_mult. change (inject_Z 360) with 360%Q.
    ring. }
  clearbody p.
  apply RoundFacts.round_exact.
  - eapply RoundFacts.dyadic_comp;
      [|apply (RoundFacts.dyadic_plus_Z _ (-180) Hp)].
    rewrite Qc_this_plus, Qc_this_opp, !Qc_this_Q2Qc.
    change (inject_Z (-180)) with (- inject_Z 180)%Q. reflexivity.
  - apply (Qabs_bound _ (-180) 180); [lia..| |].
    + rewrite Qc_this_plus, Qc_this_opp, !Qc_this_Q2Qc.
      change (inject_Z (-180)) with (-180 # 1)%Q.
      change (inject_Z 180) with (180 # 1)%Q. lra.
    + rewrite Qc_this_plus, Qc_this_opp, !Qc_this_Q2Qc.
      change (inject_Z 180) with (180 # 1)%Q. lra.
Qed.

(** The exact result has 43 binary places again. *)
Lemma wrap_exact_dyadic (a b : Qc) :
  B64.dyadic (this a) → wrap_longitude_exact (Fin a) = Fin b →
  B64.dyadic (this b).
Proof.
  intros Ha Hb. rewrite wrap_exact_Fin in Hb.
  apply RegionFacts.Fin_inj in Hb. subst b.
  unfold py_mod.
  set (fl := Qfloor ((a + Q2Qc (inject_Z 180))%Qc / 360)). clearbody fl.
  eapply RoundFacts.dyadic_comp;
    [|apply (RoundFacts.dyadic_plus_Z _ (- (360 * fl)) Ha)].
  rewrite Qc_this_plus, Qc_this_opp, !Qc_this_Q2Qc.
  rewrite Qc_this_plus, Qc_this_Q2Qc.
  rewrite inject_Z_opp, inject_Z_mult.
  change (inject_Z 360) with 360%Q. ring.
Qed.

Lemma exact_longitude_spec (x : f64) :
  exact_longitude x = true →
  ∃ a : Qc, x = Fin a ∧ B64.dyadic (this a)
            ∧ (inject_Z (-540) <= this a)%Q ∧ (this a <= inject_Z 540)%Q.
Proof.
  destruct x as [a| | |]; try done. cbn [exact_longitude].
  intros [[Hd Hlo%Qle_bool_iff]%andb_true_iff Hhi%Qle_bool_iff]%andb_true_iff.
  exists a. split; [done|]. split; [|done].
  apply Z.eqb_eq in Hd. destruct (this a) as [n d].
  by apply RoundFacts.dyadic_denominator.
Qed.

(** On the grid longitudes the program computes the exact formula, and
the result is a fixed point of the program's formula. *)
Lemma wrap_longitude_exact_grid (x : f64) :
  exact_longitude x = true →
  ∃ a b : Qc,
    x = Fin a ∧ wrap_longitude x = Fin b
    ∧ wrap_longitude_exact x = Fin b
    ∧ (-180 <= this b)%Q ∧ (this b < 180)%Q
    ∧ wrap_longitude (Fin b) = Fin b.
Proof.
  intros (a & -> & Ha & Hlo & Hhi)%exact_longitude_spec.
  destruct (wrap_exact_range a) as (b & Hb & Hblo & Hbhi).
  exists a, b. split; [done|].
  rewrite wrap_longitude_on_grid by done.
  split; [done|]. split; [done|]. split; [done|]. split; [done|].
  rewrite wrap_longitude_on_grid.
  - by apply wrap_exact_noop.
  - by eapply wrap_exact_dyadic.
  - change (inject_Z (-540)) with (-540 # 1)%Q. lra.
  - change (inject_Z 540) with (540 # 1)%Q. lra.
Qed.

(** *** Sorting by a key *)

Lemma sort_le_total (x y : f64) : sort_le x y = true ∨ sort_le y x = true.
Proof.
  destruct x as [a| | |], y as [b| | |]; try (by left); try (by right).
  unfold sort_le, F.leb, F.ltb, F.Qc_ltb.
  destruct (Qclt_le_dec b a) as [Hba|Hab].
  - right. rewrite bool_decide_eq_false_2; [done|].
    by apply Qcle_not_lt, Qclt_le_weak.
  - left. rewrite bool_decide_eq_false_2; [done|]. by apply Qcle_not_lt.
Qed.

Lemma insert_key_perm (x : f64 * nat) (l : list (f64 * nat)) :
  insert_key x l ≡ₚ x :: l.
Proof.
  induction l as [|y l IH]; [done|].
  simpl. destruct (sort_le x.1 y.1); [done|].
  by rewrite IH, Permutation_swap.
Qed.

Lemma sort_perm (l : list (f64 * nat)) : foldr insert_key [] l ≡ₚ l.
Proof.
  induction l as [|x l IH]; [done|].
  simpl. by rewrite insert_key_perm, IH.
Qed.

Lemma insert_key_sorted (x : f64 * nat) (l : list (f64 * nat)) :
  Sorted key_le l → Sorted key_le (insert_key x l).
Proof.
  induction 1 as [|y l Hl IH Hhd]; simpl; [by repeat constructor|].
  destruct (sort_le x.1 y.1) eqn:Hxy.
  - constructor; [by constructor|]. constructor. unfold key_le. by rewrite Hxy.
  - constructor; [done|].
    assert (Hyx : key_le y x).
    { unfold key_le. destruct (sort_le_total x.1 y.1) as [H|H]; [congruence|].
      by rewrite H. }
    destruct Hhd as [|z l Hyz]; simpl; [by constructor|].
    destruct (sort_le x.1 z.1); by constructor.
Qed.

Lemma sort_sorted (l : list (f64 * nat)) :
  Sorted key_le (foldr insert_key [] l).
Proof.
  induction l as [|x l IH]; simpl; [constructor|by apply insert_key_sorted].
Qed.



Lemma zip_seq_lookup (keys : list f64) (p : f64 * nat) :
  p ∈ zip keys (seq 0 (length keys)) → keys !! p.2 = Some p.1.
Proof.
  intros [i Hi]%list_elem_of_lookup_1.
  apply lookup_zip_with_Some in Hi as (k & j & -> & Hk & Hj).
  apply lookup_seq in Hj as [-> _]. done.
Qed.

Lemma sort_keys_lookup (keys : list f64) (p : f64 * nat) :
  p ∈ sort_keys keys → keys !! p.2 = Some p.1.
Proof.
  unfold sort_keys. rewrite sort_perm. apply zip_seq_lookup.
Qed.

Lemma take_along_argsort (keys : list f64) :
  take_along (argsort keys) keys = (sort_keys keys).*1.
Proof.
  unfold take_along, argsort. rewrite <-list_fmap_compose.
  apply list_fmap_ext. intros i p Hp%list_elem_of_lookup_2. simpl.
  apply list_lookup_total_correct. by apply sort_keys_lookup.
Qed.

Lemma take_along_seq {A} `{!Inhabited A} (l : list A) :
  take_along (seq 0 (length l)) l = l.
Proof.
  apply list_eq. intros i. unfold take_along. rewrite list_lookup_fmap.
  destruct (l !! i) as [x|] eqn:Hi.
  - rewrite (lookup_seq_lt _ _ _ (lookup_lt_Some _ _ _ Hi)). simpl.
    f_equal. by apply list_lookup_total_correct.
  - rewrite lookup_seq_ge; [done|]. by apply lookup_ge_None.
Qed.

Lemma sorted_keys_sorted (keys : list f64) :
  Sorted (λ x y, sort_le x y) (sort_keys keys).*1.
Proof.
  unfold sort_keys.
  pose proof (sort_sorted (zip keys (seq 0 (length keys)))) as Hs.
  induction Hs as [|p l Hl IH Hhd]; [constructor|].
  rewrite fmap_cons. constructor; [done|].
  destruct Hhd as [|q l Hpq]; simpl; by constructor.
Qed.

Lemma sorted_keys_elem (keys : list f64) (k : f64) :
  k ∈ (sort_keys keys).*1 → k ∈ keys.
Proof.
  intros (p & -> & Hp)%list_elem_of_fmap.
  eapply list_elem_of_lookup_2. by apply sort_keys_lookup.
Qed.

Lemma argsort_length (keys : list f64) :
  length (argsort keys) = length keys.
Proof.
  unfold argsort, sort_keys. rewrite length_fmap, sort_perm.
  rewrite length_zip, length_seq. lia.
Qed.


(** *** Coordinates and axes *)

Lemma lookup_coord_assign (name : str) (c : coord) (cs : list (str * coord)) :
  lookup_coord name (assign_coord name c cs) = Some c.
Proof.
  induction cs as [|[n c0] cs IH]; simpl.
  - by rewrite decide_True.
  - destruct (decide (n = name)) as [->|Hne]; simpl.
    + by rewrite decide_True.
    + by rewrite decide_False.
Qed.

Lemma assign_coord_assign (name : str) (c c' : coord)
    (cs : list (str * coord)) :
  assign_coord name c (assign_coord name c' cs) = assign_coord name c cs.
Proof.
  induction cs as [|[n c0] cs IH]; simpl.
  - by rewrite decide_True.
  - destruct (decide (n = name)) as [->|Hne]; simpl.
    + by rewrite decide_True.
    + by rewrite decide_False, IH.
Qed.


Lemma take_along_length {A} `{!Inhabited A} (positions : list nat)
    (l : list A) :
  length (take_along positions l) = length positions.
Proof. unfold take_along. by rewrite length_fmap. Qed.

Lemma permute_axis_length (axis : nat) (positions : list nat)
    (vals : list (grid f64)) :
  axis_length axis (length positions) (permute_axis axis positions vals).
Proof.
  destruct axis as [|[|[|axis]]]; simpl; [| | |done].
  - apply take_along_length.
  - apply Forall_fmap, Forall_true. intros g. apply take_along_length.
  - apply Forall_fmap, Forall_true. intros g.
    apply Forall_fmap, Forall_true. intros r. apply take_along_length.
Qed.




(** What a shift returns: the wrapped longitudes of the input in order,
and values that fit them. *)
Lemma shift_longitude_result (data d1 : DataArray) :
  shift_longitude data = Some d1 →
  ∃ lons0 lons axis,
    lookup_coord new_lon (coords data) = Some (Numbers lons0)
    ∧ lookup_coord new_lon (coords d1) = Some (Numbers lons)
    ∧ Forall (λ x, ∃ y, y ∈ lons0 ∧ x = wrap_longitude y) lons
    ∧ Sorted (λ x y, sort_le x y) lons
    ∧ axis_of new_lon d1 = Some axis
    ∧ axis_length axis (length lons) (values d1).
Proof.
  unfold shift_longitude, sortby. simpl.
  destruct (lookup_coord new_lon (coords data)) as [c|]; simpl; [|done].
  destruct c as [ts|lons0]; simpl; [done|].
  rewrite lookup_coord_assign. simpl.
  unfold axis_of at 1. simpl.
  destruct (list_find _ (dims data)) as [[axis d]|] eqn:Hax; simpl; [|done].
  intros [= <-]. simpl.
  exists lons0, (take_along (argsort (wrap_longitude <$> lons0))
                   (wrap_longitude <$> lons0)), axis.
  split; [done|]. split; [apply lookup_coord_assign|].
  rewrite take_along_argsort. split; [|split; [|split]].
  - apply Forall_forall. intros x Hx%sorted_keys_elem.
    apply list_elem_of_fmap in Hx as (y & -> & Hy). by exists y.
  - apply sorted_keys_sorted.
  - unfold axis_of. simpl. by rewrite Hax.
  - rewrite length_fmap. fold (argsort (wrap_longitude <$> lons0)).
    rewrite <-(length_fmap snd).
    apply permute_axis_length.
Qed.




(** With only [longitude_shift] set, [align_data] is the shift. *)
Lemma align_data_shift_only (data : DataArray) :
  align_data data false true false = shift_longitude data.
Proof. reflexivity. Qed.

Example shift_sample :
  shift_longitude sample_named = Some sample_shifted.
Proof. by_computation. Qed.


(** On the sample the shift moves the columns of 180 and 270 degrees to
the front; the shifted sample is returned as it is. *)
Example shift_sample_noop :
  shift_longitude sample_shifted = Some sample_shifted.
Proof. by_computation. Qed.


End AlignFacts.

Module LabelFacts.
Import Re FileName ReFacts.

Lemma four_digits_range (y : Z) :
  1000 ≤ y ≤ 9999 → four_digits y = true.
Proof.
  intros Hy.
  assert (Hall : forallb four_digits (seqZ 1000 9000) = true)
    by (vm_compute; reflexivity).
  rewrite forallb_forall in Hall. apply Hall.
  apply list_elem_of_In, elem_of_seqZ. lia.
Qed.

Lemma format_int_four_digits (y : Z) :
  1000 ≤ y ≤ 9999 →
  length (format_int y) = 4%nat
  ∧ Forall (λ a, is_digit a = true) (format_int y).
Proof.
  intros Hy%four_digits_range. unfold four_digits in Hy.
  destruct (format_int y) as [|a [|b [|c [|d [|e l]]]]]; try done.
  apply andb_true_iff in Hy as [Hy Hd].
  apply andb_true_iff in Hy as [Hy Hc].
  apply andb_true_iff in Hy as [Ha Hb].
  split; [done|]. by repeat constructor.
Qed.

(** C5.  For a file name of the documented convention and a four-digit
year, the pattern of [get_region_values] extracts [model_scenario], so
the column label is [year_model_scenario]; the pattern of the summary
step parses that label back into the year, the model and the scenario
of the file. *)
Theorem column_label_round_trip
    (model scenario variant grid start_date end_date : str) (year : Z) :
  conventional model scenario variant grid start_date end_date →
  1000 ≤ year ≤ 9999 →
  let file := file_name model scenario variant grid start_date end_date in
  Region.model_name file = Some (model ++ lit "_" ++ scenario)
  ∧ (∀ excedance_count pop_year region_mask tbl,
       Region.get_region_values excedance_count pop_year region_mask
         file year = Some tbl →
       Region.value_name tbl
       = format_int year ++ lit "_" ++ model ++ lit "_" ++ scenario
       ∧ Summary.parse_column (Region.value_name tbl)
         = Some (format_int year, model, scenario)).
Proof.
  intros Hconv Hyear file.
  assert (Hname : Region.model_name file = Some (model ++ lit "_" ++ scenario)).
  { unfold Region.model_name, file. by rewrite search_model_name. }
  split; [done|].
  intros exc pop mask tbl Hrun.
  unfold Region.get_region_values in Hrun. rewrite Hname in Hrun.
  cbn [mbind option_bind] in Hrun.
  destruct (Region.make_frame _ _ _) as [df|];
    cbn [mbind option_bind] in Hrun; [|done].
  destruct (filter _ df) as [|r rest]; [done|].
  injection Hrun as <-. cbn [Region.value_name]. split; [done|].
  unfold Summary.parse_column.
  destruct (format_int_four_digits year Hyear) as [Hlen Hdig].
  destruct Hconv as [[Hm Hmc] [Hs Hsc] _ _ _ _].
  pose proof (search_column (format_int year) model scenario
                Hlen Hdig Hm Hmc Hs Hsc) as Hparse.
  unfold lit in Hparse. cbn [list_ascii_of_string app] in Hparse.
  by rewrite Hparse.
Qed.

Lemma sample_conventional :
  conventional (lit "ACCESS-CM2") (lit "ssp126") (lit "r1i1p1f1") (lit "gn")
    (lit "20150101") (lit "21001231").
Proof.
  split.
  - split; [done|]. by repeat constructor.
  - split; [done|]. by repeat constructor.
  - exists (lit "1i1p1f1"). split; [done|]. by repeat constructor.
  - exists (lit "n"). split; [done|]. by repeat constructor.
  - split; [done|]. by repeat constructor.
  - split; [done|]. by repeat constructor.
Qed.

Lemma column_label_round_trip_witness :
  let file := file_name (lit "ACCESS-CM2") (lit "ssp126") (lit "r1i1p1f1")
                (lit "gn") (lit "20150101") (lit "21001231") in
  Region.model_name file = Some (lit "ACCESS-CM2" ++ lit "_" ++ lit "ssp126")
  ∧ (∀ excedance_count pop_year region_mask tbl,
       Region.get_region_values excedance_count pop_year region_mask
         file 2025 = Some tbl →
       Region.value_name tbl
       = format_int 2025 ++ lit "_" ++ lit "ACCESS-CM2" ++ lit "_"
           ++ lit "ssp126"
       ∧ Summary.parse_column (Region.value_name tbl)
         = Some (format_int 2025, lit "ACCESS-CM2", lit "ssp126")).
Proof.
  apply (column_label_round_trip (lit "ACCESS-CM2") (lit "ssp126")
           (lit "r1i1p1f1") (lit "gn") (lit "20150101") (lit "21001231") 2025).
  - exact sample_conventional.
  - lia.
Defined.

(** The round trip on the sample file, by evaluation. *)
Example column_label_sample :
  Region.value_name
    <$> Region.get_region_values Region.sample_count Region.sample_pop
          Region.sample_mask Region.sample_file 2025
  = Some (lit "2025_ACCESS-CM2_ssp126")
  ∧ Summary.parse_column (lit "2025_ACCESS-CM2_ssp126")
    = Some (lit "2025", lit "ACCESS-CM2", lit "ssp126")
  ∧ Summary.parse_column (lit "IMAGE_region") = None.
Proof. repeat split; vm_compute; reflexivity. Qed.

End LabelFacts.

Module TemperatureIndexFacts.
Import Frame TemperatureIndex.

Section facts.
Variable interp : Field2D → list f64 → list f64 → Field2D.
Variable interp_nearest : Field3D → list f64 → list f64 → Field3D.
Variable sel_nearest : Field3D → Z → Field2D.
Variable mean_time : Field3D → Field2D.
Variable files : Files.

Local Abbreviation index_year := (index_year interp interp_nearest sel_nearest
                          mean_time files).
Local Abbreviation temperature_index := (temperature_index interp interp_nearest
                                 sel_nearest mean_time files).

(** A year outside the covered range leaves the state as it is. *)
Lemma index_year_outside (tas_max : Align.DataArray) (range : list Z)
    (file : str) (state : DataFrame * Field2D) (year : Z) :
  year ∉ range → index_year tas_max range file state year = Some state.
Proof.
  intros Hout. unfold TemperatureIndex.index_year.
  destruct state as [final_data p95_hist]. by rewrite decide_False.
Qed.

(** A year is processed only inside the covered range. *)
Lemma index_year_processed (tas_max : Align.DataArray) (range : list Z)
    (file : str) (state state' : DataFrame * Field2D) (year : Z) :
  index_year tas_max range file state year = Some state' →
  state' ≠ state → year ∈ range.
Proof.
  intros Hrun Hne. destruct (decide (year ∈ range)) as [|Hout]; [done|].
  rewrite index_year_outside in Hrun by done. congruence.
Qed.

Lemma for_each_outside (tas_max : Align.DataArray) (range : list Z)
    (file : str) (years : list Z) (state : DataFrame * Field2D) :
  Forall (λ year, year ∉ range) years →
  for_each (index_year tas_max range file) state years = Some state.
Proof.
  induction 1 as [|year years Hout _ IH]; [done|].
  simpl. rewrite index_year_outside by done. exact IH.
Qed.

(** C8, for a request that names at least one year.  A file that covers
none of the requested years is skipped: the call returns the table it
was given, unchanged, together with the last requested year. *)
Lemma temperature_index_skips_file (years : list Z) (final_data : DataFrame)
    (file : str) (range : list Z) (last_year : Z) :
  is_Some (p95_file files) →
  is_Some (open_model file (model_dir files)
           ≫= λ tas_max, Align.align_data tas_max true true true) →
  year_range file = Some range →
  Forall (λ year, year ∉ range) years →
  last years = Some last_year →
  temperature_index years final_data file = Some (final_data, last_year).
Proof.
  intros [p95 Hp95] [tas_max Htas] Hrange Hout Hlast.
  unfold TemperatureIndex.temperature_index. rewrite Hp95. simpl.
  destruct (open_model file (model_dir files)) as [raw|]; simpl in *; [|done].
  rewrite Htas. simpl. rewrite Hrange. simpl.
  rewrite for_each_outside by done. simpl. by rewrite Hlast.
Qed.

(** C8 at its failing input.  With an empty list of requested years the
loop never binds [year], and the [return] raises whatever the file
covers. *)
Theorem temperature_index_raises_without_years (final_data : DataFrame)
    (file : str) :
  temperature_index [] final_data file = None.
Proof.
  unfold TemperatureIndex.temperature_index.
  destruct (p95_file files); simpl; [|done].
  destruct (open_model file (model_dir files)); simpl; [|done].
  destruct (Align.align_data _ true true true); simpl; [|done].
  by destruct (year_range file).
Qed.

End facts.

(** On the sample: a request for 1999, which the file (2015 to 2100) does
not cover, returns the empty table as it was; a request for no year
raises. *)
Example temperature_index_sample_skip :
  temperature_index Sample.same_grid Sample.same_grid_3d
    (λ f _, Sample.first_step f) Sample.first_step Sample.sample_files
    [1999] empty_regions_frame Region.sample_file
  = Some (empty_regions_frame, 1999).
Proof. vm_compute. reflexivity. Qed.

Example temperature_index_sample_no_years :
  temperature_index Sample.same_grid Sample.same_grid_3d
    (λ f _, Sample.first_step f) Sample.first_step Sample.sample_files
    [] empty_regions_frame Region.sample_file
  = None.
Proof. vm_compute. reflexivity. Qed.

End TemperatureIndexFacts.

Module SummaryFacts.
Import Frame TemperatureIndex Summary.

Lemma lookup_column_elem (name : str) (cols : list (str * list f64))
    (c : list f64) :
  lookup_column name cols = Some c → name ∈ cols.*1.
Proof.
  induction cols as [|[n c0] cols IH]; simpl; [done|].
  destruct (decide (n = name)) as [->|Hne]; [by left|].
  intros H. right. by apply IH.
Qed.

Lemma group_columns_names (reduce : list f64 → f64) (suffix : str)
    (models_data : DataFrame) :
  (group_columns reduce suffix models_data).*1
  = (λ group, group ++ suffix)
      <$> unique ((group_key ∘ parse_column) <$> column_names models_data).
Proof.
  unfold group_columns. by rewrite <-list_fmap_compose.
Qed.

Lemma std_name_not_mean (group : str) :
  group ++ lit "_model-std" ≠ lit "nan_nan_model-mean".
Proof.
  intros H%(f_equal reverse). rewrite reverse_app in H.
  vm_compute in H. discriminate H.
Qed.

Lemma merge_names_columns (names : list (Z * str)) (ids : list Z)
    (cols : list (str * list f64)) :
  (st_columns (merge_names names ids cols)).*1 = cols.*1.
Proof.
  unfold merge_names. simpl. by rewrite <-list_fmap_compose.
Qed.

Section facts.
Variable fsqrt : f64 → f64.
Variable interp : Field2D → list f64 → list f64 → Field2D.
Variable interp_nearest : Field3D → list f64 → list f64 → Field3D.
Variable sel_nearest : Field3D → Z → Field2D.
Variable mean_time : Field3D → Field2D.
Variable files : Files.

(** Whenever the summary is produced, the column of the standard
deviation of the placeholder group is one of its columns. *)
Lemma summarize_keeps_placeholder_std (models_data : DataFrame)
    (table : SummaryTable) :
  summarize fsqrt files models_data = Some table →
  lit "nan_nan_model-std" ∈ (st_columns table).*1.
Proof.
  unfold summarize, set_index. simpl.
  destruct (lookup_column _ _) as [idx|] eqn:Hidx; simpl; [|done].
  destruct (mapM to_int idx) as [ids|]; simpl; [|done].
  destruct (region_names files) as [names|]; simpl; [|done].
  intros [= <-]. rewrite merge_names_columns.
  apply lookup_column_elem in Hidx.
  rewrite fmap_app, !group_columns_names in Hidx.
  apply elem_of_app in Hidx as [Hmean|Hstd].
  2:{ apply list_elem_of_fmap in Hstd as (group & Heq & _).
      symmetry in Heq. by apply std_name_not_mean in Heq. }
  apply list_elem_of_fmap in Hmean as (group & Heq & Hgroup).
  assert (Hg : group = lit "nan_nan").
  { apply (app_inv_tail (lit "_model-mean")). exact (eq_sym Heq). }
  subst group.
  apply list_elem_of_fmap.
  exists (lit "nan_nan_model-std", 
          reduce_rows (std fsqrt) (length (index models_data))
            (filter (λ c, group_key (parse_column c.1) = lit "nan_nan")
               (columns models_data))).
  split; [done|]. apply list_elem_of_filter. split; [done|].
  apply elem_of_app. right. unfold group_columns.
  apply list_elem_of_fmap. exists (lit "nan_nan"). split; [done|]. done.
Qed.

(** C6 on the program.  Every table returned by
[temperature_index_all_models] has the column [nan_nan_model-std]: a
column that belongs to no requested year and scenario. *)
Theorem summary_has_placeholder_column (years : list Z)
    (table : SummaryTable) :
  temperature_index_all_models fsqrt interp interp_nearest sel_nearest
    mean_time files years = Some table →
  lit "nan_nan_model-std" ∈ (st_columns table).*1.
Proof.
  unfold temperature_index_all_models.
  destruct (for_each _ _ _) as [models_data|]; simpl; [|done].
  apply summarize_keeps_placeholder_std.
Qed.

End facts.

Lemma summary_has_placeholder_column_witness :
  ∃ table,
    temperature_index_all_models Sample.sqrt_10 Sample.same_grid
      Sample.same_grid_3d (λ f _, Sample.first_step f) Sample.first_step
      Sample.sample_files [2025] = Some table
    ∧ lit "nan_nan_model-std" ∈ (st_columns table).*1.
Proof.
  eexists. split; [vm_compute; reflexivity|].
  apply (summary_has_placeholder_column Sample.sqrt_10 Sample.same_grid
           Sample.same_grid_3d (λ f _, Sample.first_step f) Sample.first_step
           Sample.sample_files [2025]).
  vm_compute. reflexivity.
Defined.

(** The sample run: one file, one requested year.  The table is indexed
by the region identifiers and carries the region names; its columns are
the mean and the std of the one group and, between them, the std of the
placeholder group. *)
Example summary_sample :
  (λ table, (st_index table, st_region table, (st_columns table).*1))
    <$> temperature_index_all_models Sample.sqrt_10 Sample.same_grid
          Sample.same_grid_3d (λ f _, Sample.first_step f) Sample.first_step
          Sample.sample_files [2025]
  = Some ([1; 2; 3], [lit "Canada"; lit "USA"; lit "Mexico"],
          [lit "2025_ssp126_model-mean"; lit "nan_nan_model-std";
           lit "2025_ssp126_model-std"]).
Proof. vm_compute. reflexivity. Qed.

(** Without a processed file there is no placeholder column to take as
the index, and the summary raises. *)
Example summary_sample_no_column :
  temperature_index_all_models Sample.sqrt_10 Sample.same_grid
    Sample.same_grid_3d (λ f _, Sample.first_step f) Sample.first_step
    Sample.sample_files [1999] = None.
Proof. vm_compute. reflexivity. Qed.

End SummaryFacts.

(** * Further properties of the program *)

Module PercentileMore.
Import Percentile PercentileFacts.

Lemma py_range_nonpositive (step : Z) :
  step < 0 → py_range 0 720 step = Some [].
Proof.
  intros Hstep. unfold py_range.
  rewrite decide_False, decide_False by lia. f_equal.
  assert (Hlen : (0 - 720 - step - 1) `div` (- step) ≤ 0).
  { apply Z.lt_succ_r, Z.div_lt_upper_bound; lia. }
  unfold seqZ. replace (Z.to_nat _) with 0%nat by lia. done.
Qed.

Lemma calculate_nonpositive (files : archive) (years : list Z) (step : Z) :
  step ≤ 0 → calculate_historical_percentiles files years step = None.
Proof.
  intros Hstep. unfold calculate_historical_percentiles.
  destruct (decide (step = 0)) as [->|Hne]; [done|].
  by rewrite py_range_nonpositive by lia.
Qed.

(** X1.  A chunk size that is zero or negative makes
[calculate_historical_percentiles] raise, whatever the archive and the
years: [range] rejects a zero step, and a negative step leaves no band to
concatenate. *)
Theorem nonpositive_step_raises (files : archive) (years : list Z) (step : Z) :
  step ≤ 0 → calculate_historical_percentiles files years step = None.
Proof. apply calculate_nonpositive. Qed.

Lemma nonpositive_step_raises_witness :
  calculate_historical_percentiles sample_files [1995; 1996] (-30) = None.
Proof.
  apply (nonpositive_step_raises sample_files [1995; 1996] (-30)). lia.
Defined.

(** X2.  A requested year without a file makes the computation raise,
for every chunk size: no year is skipped silently. *)
Theorem missing_year_raises (files : archive) (years : list Z) (step year : Z) :
  year ∈ years → files !! year = None →
  calculate_historical_percentiles files years step = None.
Proof.
  intros Hin Hnone.
  destruct (decide (0 < step)) as [Hstep|Hstep];
    [|apply calculate_nonpositive; lia].
  apply banded_failure; [done|].
  rewrite (mapM_None_2 (λ year, files !! year) years); [done|].
  apply Exists_exists. by exists year.
Qed.

Lemma missing_year_raises_witness :
  calculate_historical_percentiles sample_files [1995; 1997; 1996] 30 = None.
Proof.
  apply (missing_year_raises sample_files [1995; 1997; 1996] 30 1997).
  - right. left.
  - reflexivity.
Defined.

Lemma py_range_count (step : Z) :
  0 < step →
  py_range 0 720 step
  = Some ((λ k, Z.of_nat k * step)
            <$> seq 0 (Z.to_nat ((720 + step - 1) `div` step))).
Proof.
  intros Hstep. unfold py_range.
  rewrite decide_False, decide_True by lia.
  f_equal. unfold seqZ. rewrite <-list_fmap_compose.
  replace (720 - 0 + step - 1) with (720 + step - 1) by lia.
  apply list_fmap_ext. intros ? k ?. simpl. lia.
Qed.

(** The rows the bands read. *)
Lemma banded_rows_read (files : archive) (years : list Z) (step : Z)
    (pieces : list DataArray) (data : DataArray) :
  0 < step →
  mapM (λ year, files !! year) years = Some pieces →
  concat_time pieces = Some data →
  calculate_historical_percentiles files years step
  = Some (take (Z.to_nat (((720 + step - 1) `div` step) * step))
            (quantile_time p95 data)).
Proof.
  intros Hstep Hpieces Hdata.
  pose proof (Z.div_mod (720 + step - 1) step ltac:(lia)) as Hdm.
  pose proof (Z.mod_pos_bound (720 + step - 1) step Hstep) as Hmod.
  assert (HK : 0 < (720 + step - 1) `div` step) by nia.
  unfold calculate_historical_percentiles.
  rewrite py_range_count by done. cbn [mbind option_bind].
  set (K := Z.to_nat ((720 + step - 1) `div` step)).
  erewrite mapM_all_Some
    by (intros lat _; by apply (band_rows _ _ _ _ pieces)).
  rewrite <-list_fmap_compose.
  erewrite (list_fmap_ext _
    (fmap (λ i, (λ j, quantile p95 (series_at (time_steps data) i j))
                  <$> seq 0 (lon_size data))
     ∘ (λ k, seq (0 + k * Z.to_nat step)
          (((0 + k * Z.to_nat step + Z.to_nat step) `min` lat_size data)
           - ((0 + k * Z.to_nat step) `min` lat_size data))%nat))).
  2:{ intros ? k ?. simpl.
      destruct (band_index k step Hstep) as [-> ->]. done. }
  cbn [mbind option_bind]. rewrite concat_latitude_nonempty
    by (rewrite length_fmap, length_seq; unfold K; lia).
  rewrite (list_fmap_compose _ (fmap _)), mjoin_fmap_fmap.
  rewrite bands_tile, quantile_time_rows.
  f_equal. rewrite <-fmap_take, take_seq. do 2 f_equal.
  unfold K. rewrite Z2Nat.inj_mul by lia. lia.
Qed.

(** X3.  The bands are laid over the rows [0] to [720] whatever the
height of the grid.  On an archive with at least one day, whose grid has
a row in every band (the last band starts below the height of the grid),
the result is the single-pass field cut after the first
[ceil(720 / step) * step] rows: rows of a taller grid beyond that are
never read. *)
Theorem bands_cover_fixed_rows (files : archive) (years : list Z) (step : Z)
    (pieces : list DataArray) (data : DataArray) :
  0 < step →
  mapM (λ year, files !! year) years = Some pieces →
  concat_time pieces = Some data →
  time_steps data ≠ [] → (0 < lon_size data)%nat →
  ((720 + step - 1) `div` step - 1) * step < Z.of_nat (lat_size data) →
  calculate_historical_percentiles files years step
  = take (Z.to_nat (((720 + step - 1) `div` step) * step))
      <$> single_pass_percentiles files years.
Proof.
  intros Hstep Hpieces Hdata _ _ _.
  rewrite (banded_rows_read files years step pieces data) by done.
  unfold single_pass_percentiles. rewrite Hpieces. simpl.
  by rewrite Hdata.
Qed.

Lemma bands_cover_fixed_rows_witness :
  calculate_historical_percentiles MoreSamples.tall_files [2000] 30
  = take (Z.to_nat (((720 + 30 - 1) `div` 30) * 30))
      <$> single_pass_percentiles MoreSamples.tall_files [2000].
Proof.
  apply (bands_cover_fixed_rows MoreSamples.tall_files [2000] 30
           [MoreSamples.tall_year] MoreSamples.tall_year).
  - lia.
  - reflexivity.
  - reflexivity.
  - discriminate.
  - simpl. lia.
  - vm_compute. reflexivity.
Defined.

(** On the grid of 722 rows the single pass gives 722 rows, the banded
computation 720. *)
Example tall_grid_rows :
  length <$> single_pass_percentiles MoreSamples.tall_files [2000] = Some 722%nat
  ∧ length <$> calculate_historical_percentiles MoreSamples.tall_files [2000] 30
    = Some 720%nat.
Proof. split; vm_compute; reflexivity. Qed.

End PercentileMore.

Module ExceedanceMore.
Import Exceedance ExceedanceFacts.

Lemma gtb_leb_trans (v t t' : f64) :
  F.leb t t' = true → F.gtb v t' = true → F.gtb v t = true.
Proof.
  destruct v as [c| | |], t as [a| | |], t' as [b| | |]; try done.
  unfold F.leb, F.gtb, F.ltb, F.Qc_ltb.
  intros Hab%negb_true_iff%bool_decide_eq_false Hbc%bool_decide_eq_true.
  apply bool_decide_eq_true.
  eapply Qcle_lt_trans; [|exact Hbc]. by apply Qcnot_lt_le.
Qed.

Lemma length_filter_mono {A} (P Q : A → Prop)
    `{!∀ x, Decision (P x), !∀ x, Decision (Q x)} (l : list A) :
  (∀ x, P x → Q x) → (length (filter P l) ≤ length (filter Q l))%nat.
Proof.
  intros HPQ. induction l as [|x l IH]; [done|].
  rewrite !filter_cons.
  destruct (decide (P x)) as [HP|HP].
  - rewrite decide_True by auto. simpl. lia.
  - destruct (decide (Q x)); simpl; lia.
Qed.

(** X6.  Raising the threshold never raises the count: where one
threshold field is at most another at a cell, the count under the higher
threshold is at most the count under the lower one. *)
Theorem count_antitone_in_threshold (tas_max_year : field)
    (low high : grid f64) (i j : nat) (t t' : f64) :
  Forall (λ s, shape s.2 = shape low) tas_max_year →
  Forall (λ s, shape s.2 = shape high) tas_max_year →
  cell low i j = Some t → cell high i j = Some t' →
  F.leb t t' = true →
  ∃ n n' : Z,
    cell (excedance_count tas_max_year low) i j = Some n
    ∧ cell (excedance_count tas_max_year high) i j = Some n'
    ∧ n' ≤ n.
Proof.
  intros Hlow Hhigh Ht Ht' Hle.
  rewrite (excedance_count_cell _ _ _ _ t Hlow Ht).
  rewrite (excedance_count_cell _ _ _ _ t' Hhigh Ht').
  eexists _, _. split; [done|]. split; [done|].
  apply Nat2Z.inj_le, length_filter_mono.
  intros s. unfold exceeds_at. destruct (cell s.2 i j) as [v|]; [|done].
  intros H%Is_true_true. apply Is_true_true. by eapply gtb_leb_trans.
Qed.

Lemma count_antitone_in_threshold_witness :
  ∃ n n' : Z,
    cell (excedance_count sample_field [[F.of_Z 30]]) 0 0 = Some n
    ∧ cell (excedance_count sample_field [[F.of_Z 35]]) 0 0 = Some n'
    ∧ n' ≤ n.
Proof.
  apply (count_antitone_in_threshold sample_field [[F.of_Z 30]]
           [[F.of_Z 35]] 0 0 (F.of_Z 30) (F.of_Z 35)).
  - repeat constructor.
  - repeat constructor.
  - reflexivity.
  - reflexivity.
  - reflexivity.
Defined.

(** X7.  Where the threshold is NaN (a cell outside the grid of the
historical field after re-gridding) the count is 0: such a cell reads as
a cell that never exceeds. *)
Theorem nan_threshold_counts_zero (tas_max_year : field)
    (p95_hist : grid f64) (i j : nat) :
  Forall (λ s, shape s.2 = shape p95_hist) tas_max_year →
  cell p95_hist i j = Some NaN →
  cell (excedance_count tas_max_year p95_hist) i j = Some 0.
Proof.
  intros Hshape Ht.
  rewrite (excedance_count_cell _ _ _ _ NaN Hshape Ht).
  replace (filter (λ s, exceeds_at i j NaN s) tas_max_year) with
    (@nil (date * grid f64)); [done|].
  clear Hshape. induction tas_max_year as [|s l IH]; [done|].
  rewrite filter_cons_False; [done|].
  unfold exceeds_at. destruct (cell s.2 i j) as [v|]; [|by intros []].
  destruct v; by intros [].
Qed.

Lemma nan_threshold_counts_zero_witness :
  cell (excedance_count sample_field [[NaN]]) 0 0 = Some 0.
Proof.
  apply (nan_threshold_counts_zero sample_field [[NaN]] 0 0).
  - repeat constructor.
  - reflexivity.
Defined.

Lemma shape_grid_zip_with {A B C} (f : A → B → C) (a : grid A) (b : grid B) :
  shape a = shape b → shape (grid_zip_with f a b) = shape a.
Proof.
  unfold shape, grid_zip_with. revert b.
  induction a as [|ra a IH]; intros [|rb b] Hs; try done.
  simpl in *. injection Hs as Hr Hs. f_equal; [|by apply IH].
  rewrite length_zip_with. lia.
Qed.

Lemma shape_grid_map {A B} (f : A → B) (g : grid A) :
  shape (grid_map f g) = shape g.
Proof.
  unfold shape, grid_map. rewrite <-list_fmap_compose.
  apply list_fmap_ext. intros ? r ?. simpl. by rewrite length_fmap.
Qed.

(** X8.  The count field has the grid of the threshold field: as many
rows, and as many cells in every row, whatever the number of days. *)
Theorem count_field_has_threshold_grid (tas_max_year : field)
    (p95_hist : grid f64) :
  Forall (λ s, shape s.2 = shape p95_hist) tas_max_year →
  shape (excedance_count tas_max_year p95_hist) = shape p95_hist.
Proof.
  intros Hshape. unfold excedance_count, sum_time, gt.
  assert (Hgen : ∀ acc : grid Z, shape acc = shape p95_hist →
    shape (foldl (λ acc g, grid_zip_with Z.add acc (grid_map Z_of_bool g))
             acc ((λ s, grid_zip_with F.gtb s.2 p95_hist) <$> tas_max_year))
    = shape p95_hist).
  { induction Hshape as [|s l Hs _ IH]; intros acc Hacc; [done|].
    rewrite fmap_cons. cbn [foldl]. apply IH.
    rewrite shape_grid_zip_with; [done|].
    by rewrite shape_grid_map, shape_grid_zip_with, Hacc. }
  apply Hgen, shape_grid_map.
Qed.

Lemma count_field_has_threshold_grid_witness :
  shape (excedance_count nan_field [[F.of_Z 30; F.of_Z 30]])
  = shape [[F.of_Z 30; F.of_Z 30]].
Proof.
  apply (count_field_has_threshold_grid nan_field [[F.of_Z 30; F.of_Z 30]]).
  repeat constructor.
Defined.

End ExceedanceMore.

Module RegionMore.
Import Region RegionFacts.

(** X9.  Fields of different sizes make [get_region_values] raise: the
three flattened arrays must have one length. *)
Theorem mismatched_fields_raise (exc : grid Z) (pop mask : grid f64)
    (file : str) (year : Z) :
  length (flatten exc) ≠ length (flatten mask)
  ∨ length (flatten pop) ≠ length (flatten mask) →
  get_region_values exc pop mask file year = None.
Proof.
  intros Hlen. unfold get_region_values.
  destruct (model_name file); simpl; [|done].
  unfold make_frame. rewrite decide_False; [done|]. tauto.
Qed.

Lemma mismatched_fields_raise_witness :
  get_region_values [[5; 7]] sample_pop sample_mask sample_file 2025 = None.
Proof.
  apply (mismatched_fields_raise [[5; 7]] sample_pop sample_mask
           sample_file 2025).
  left. vm_compute. lia.
Defined.

Lemma mtch_Str_none (p s : str) caps k :
  (∀ rest, s = p ++ rest → k rest caps = None) →
  Re.mtch (Re.Str p) s caps k = None.
Proof.
  revert s. induction p as [|a p IH]; intros s Hk; simpl.
  - by apply Hk.
  - destruct s as [|b s]; [done|]. simpl.
    case_bool_decide as Hab; [|done]. subst b.
    apply IH. intros rest ->. by apply Hk.
Qed.

Lemma match_model_name_none (s : str) :
  FileName.has_underscore_r s = false →
  Re.match_here Re.model_name_pattern s = None.
Proof.
  intros Hs. unfold Re.match_here, Re.model_name_pattern. cbn [Re.mtch].
  apply mtch_Str_none. intros rest ->. cbn [Re.mtch].
  apply ReFacts.star_greedy_none. intros i.
  apply ReFacts.no_underscore_r_no_match.
  exact (ReFacts.has_underscore_r_drop _ (4 + i) Hs).
Qed.

Lemma search_model_name_none (s : str) :
  FileName.has_underscore_r s = false →
  Re.search Re.model_name_pattern s = None.
Proof.
  induction s as [|a s IH]; intros Hs.
  - reflexivity.
  - rewrite ReFacts.search_skip by (by apply match_model_name_none).
    apply IH. exact (ReFacts.has_underscore_r_drop _ 1 Hs).
Qed.

(** X10.  A file name in which the text [_r] does not occur (no variant
label) makes [get_region_values] raise, whatever the fields: the
pattern finds nothing and [.group(1)] is taken of [None]. *)
Theorem name_without_variant_raises (exc : grid Z) (pop mask : grid f64)
    (file : str) (year : Z) :
  FileName.has_underscore_r file = false →
  get_region_values exc pop mask file year = None.
Proof.
  intros Hfile. unfold get_region_values, model_name.
  by rewrite search_model_name_none.
Qed.

Lemma name_without_variant_raises_witness :
  get_region_values sample_count sample_pop sample_mask
    (lit "tasmax_day_ACCESS-CM2_ssp126.nc") 2025 = None.
Proof.
  apply (name_without_variant_raises sample_count sample_pop sample_mask
           (lit "tasmax_day_ACCESS-CM2_ssp126.nc") 2025).
  reflexivity.
Defined.

(** X11.  The group of the pattern runs from the first [day_] to the last
[_r] of the name: of a name [tasmax_day_ p _r tl], where [tl] has no
further [_r], the model name is the whole of [p], underscores and
earlier [_r] included. *)
Theorem model_name_runs_to_last_underscore_r (p tl : str) :
  Forall (λ a, Re.cmatch Re.CAny a = true) p →
  FileName.has_underscore_r (lit "r" ++ tl) = false →
  model_name (lit "tasmax_day_" ++ p ++ lit "_r" ++ tl) = Some p.
Proof.
  intros Hp Htl. unfold model_name.
  change (lit "tasmax_day_") with (lit "tasmax_" ++ lit "day_").
  rewrite <-app_assoc, ReFacts.search_model_name_prefix.
  rewrite (ReFacts.search_here _ _ [p]); [done|].
  by apply ReFacts.match_model_name.
Qed.

Lemma model_name_runs_to_last_underscore_r_witness :
  model_name (lit "tasmax_day_" ++ lit "MODEL_run2_ssp126" ++ lit "_r"
                ++ lit "1i1p1f1_gn_20150101-21001231.nc")
  = Some (lit "MODEL_run2_ssp126").
Proof.
  apply (model_name_runs_to_last_underscore_r (lit "MODEL_run2_ssp126")
           (lit "1i1p1f1_gn_20150101-21001231.nc")).
  - by repeat constructor.
  - reflexivity.
Defined.

(** *** Missing populations *)




End RegionMore.

Module AlignMore.
Import Align AlignFacts.
Local Open Scope Z_scope.

(** *** Renaming *)

Lemma renamed_names (ds : DataArray) :
  (λ k, default k (build_rename_dict ds !! k)) <$> (coords ds).*1
  = canonical_name <$> (coords ds).*1.
Proof.
  apply list_fmap_ext. intros i name Hi. apply new_name_canonical.
  by eapply list_elem_of_lookup_2.
Qed.

(** X14.  [homogenize_lat_lon] returns a dataset exactly when no two
coordinates end up under one name; a dataset that carries two synonyms
of one axis, or a synonym beside the canonical name, makes the renaming
raise. *)
Theorem homogenize_succeeds_iff_no_collision (ds : DataArray) :
  is_Some (homogenize_lat_lon ds)
  ↔ NoDup (canonical_name <$> (coords ds).*1).
Proof.
  unfold homogenize_lat_lon, rename. rewrite renamed_names.
  case_decide as Hnd; split; try done.
Qed.

Lemma homogenize_succeeds_iff_no_collision_witness :
  ¬ is_Some (homogenize_lat_lon
               {| dims := [lit "lat"]; values := [];
                  coords := [(lit "lat", Numbers []);
                             (lit "latitude", Numbers [])] |}).
Proof.
  intros H%(proj1 (homogenize_succeeds_iff_no_collision _)).
  vm_compute in H. apply NoDup_cons in H as [Hn _]. apply Hn. by left.
Defined.

Lemma canonical_name_not_synonym (name : str) :
  ¬ is_synonym (canonical_name name).
Proof.
  unfold canonical_name. repeat case_decide.
  - unfold is_synonym. apply (proj1 (bool_decide_eq_false _)).
    vm_compute. reflexivity.
  - unfold is_synonym. apply (proj1 (bool_decide_eq_false _)).
    vm_compute. reflexivity.
  - unfold is_synonym. apply (proj1 (bool_decide_eq_false _)).
    vm_compute. reflexivity.
  - unfold is_synonym. tauto.
Qed.

Lemma build_rename_dict_canonical (ds : DataArray) :
  Forall (λ name, ¬ is_synonym name) (coords ds).*1 →
  build_rename_dict ds = ∅.
Proof.
  intros Hnames. apply map_eq. intros name. unfold build_rename_dict.
  rewrite foldl_rename_step_lookup, decide_False; [done|].
  intros [Hin Hsyn]. rewrite Forall_forall in Hnames. by apply (Hnames name).
Qed.

Lemma rename_empty (ds : DataArray) :
  NoDup (coords ds).*1 → rename ∅ ds = Some ds.
Proof.
  intros Hnd. unfold rename.
  assert (Hid : ∀ l : list str,
            (λ k : str, default k ((∅ : gmap str str) !! k)) <$> l = l).
  { intros l. rewrite <-(list_fmap_id l) at 2. apply list_fmap_ext.
    intros i k _. by rewrite lookup_empty. }
  rewrite Hid, decide_True by done. destruct ds as [d c v]. simpl.
  f_equal. f_equal; [apply Hid|].
  rewrite <-(list_fmap_id c) at 2. apply list_fmap_ext.
  intros i [k x] _. unfold prod_map. simpl. by rewrite lookup_empty.
Qed.

(** X15.  Renaming is idempotent: what [homogenize_lat_lon] returns it
returns unchanged when applied again, since no canonical name is itself
a synonym. *)
Theorem homogenize_idempotent (ds ds' : DataArray) :
  homogenize_lat_lon ds = Some ds' → homogenize_lat_lon ds' = Some ds'.
Proof.
  unfold homogenize_lat_lon at 1. unfold rename.
  rewrite renamed_names. case_decide as Hnd; [|done]. intros [= <-].
  set (ds' := {| dims := _ |}).
  assert (Hnames : (coords ds').*1 = canonical_name <$> (coords ds).*1).
  { subst ds'. simpl. rewrite <-renamed_names, <-!list_fmap_compose.
    apply list_fmap_ext. by intros i [k x] _. }
  unfold homogenize_lat_lon. rewrite build_rename_dict_canonical.
  - apply rename_empty. by rewrite Hnames.
  - rewrite Hnames. apply Forall_fmap, Forall_forall. intros name _.
    apply canonical_name_not_synonym.
Qed.

Lemma homogenize_idempotent_witness :
  homogenize_lat_lon sample_named = Some sample_named.
Proof.
  apply (homogenize_idempotent sample_data sample_named).
  vm_compute. reflexivity.
Defined.

(** *** The longitude formula *)

(** X16.  On a grid longitude (a multiple of [2^-43] degrees between -540
and 540) the formula [(lon + 180) % 360 - 180], computed on doubles with
every operation rounded, moves the longitude by a whole number of turns
into the range from -180 (included) to 180 (excluded). *)
Theorem wrap_longitude_whole_turns (x : f64) :
  exact_longitude x = true →
  ∃ (a b : Qc) (k : Z),
    x = Fin a ∧ wrap_longitude x = Fin b
    ∧ (this b == this a - 360 * inject_Z k)%Q
    ∧ (-180 <= this b)%Q ∧ (this b < 180)%Q.
Proof.
  intros Hx.
  destruct (wrap_longitude_exact_grid x Hx)
    as (a & b & -> & Hb & Hexact & Hlo & Hhi & _).
  exists a, b, (Qfloor (this (a + Q2Qc (inject_Z 180))%Qc / 360)).
  split; [done|]. split; [done|]. split; [|done].
  rewrite wrap_exact_Fin in Hexact.
  apply RegionFacts.Fin_inj in Hexact. subst b.
  rewrite Qc_this_plus, Qc_this_opp, !Qc_this_Q2Qc. unfold py_mod.
  pose proof (Qc_this_plus a (Q2Qc (inject_Z 180))) as Hsum.
  pose proof (Qc_this_Q2Qc (inject_Z 180)) as Hc.
  set (kq := inject_Z (Qfloor _)). clearbody kq.
  set (s := this (a + Q2Qc (inject_Z 180))%Qc) in *. clearbody s.
  set (c := this (Q2Qc (inject_Z 180))) in *. clearbody c.
  change (inject_Z 180) with (180 # 1)%Q in *. clear Hlo Hhi Hb. lra.
Qed.

Lemma wrap_longitude_whole_turns_witness :
  ∃ (a b : Qc) (k : Z),
    F.of_Z 270 = Fin a ∧ wrap_longitude (F.of_Z 270) = Fin b
    ∧ (this b == this a - 360 * inject_Z k)%Q
    ∧ (-180 <= this b)%Q ∧ (this b < 180)%Q.
Proof.
  apply (wrap_longitude_whole_turns (F.of_Z 270)). reflexivity.
Defined.

(** X17.  When the longitudes of a dataset are grid longitudes, the
longitude shift returns it with the longitudes in ascending order, each
of them in the range from -180 to 180 (180 excluded). *)
Theorem shifted_longitudes_ascending_in_range (data d1 : DataArray)
    (lons : list f64) :
  lookup_coord new_lon (coords data) = Some (Numbers lons) →
  Forall (λ x, exact_longitude x = true) lons →
  shift_longitude data = Some d1 →
  ∃ lons1,
    lookup_coord new_lon (coords d1) = Some (Numbers lons1)
    ∧ Sorted (λ x y, sort_le x y) lons1
    ∧ Forall (λ x, F.leb (F.of_Z (-180)) x = true
                   ∧ F.ltb x (F.of_Z 180) = true) lons1.
Proof.
  intros Hc Hgrid
    (lons0 & lons1 & axis & Hc0 & Hc1 & Hw & Hs & _)%shift_longitude_result.
  assert (lons0 = lons) as -> by congruence.
  exists lons1. split; [done|]. split; [done|].
  eapply Forall_impl; [exact Hw|]. intros x (y & Hy & ->).
  rewrite Forall_forall in Hgrid.
  destruct (wrap_longitude_exact_grid y (Hgrid y Hy))
    as (a & b & _ & -> & _ & Hlo & Hhi & _).
  split.
  - cbn [F.leb F.ltb F.of_Z]. unfold F.Qc_ltb.
    rewrite bool_decide_eq_false_2; [done|]. apply Qcle_not_lt.
    unfold Qcle. by rewrite Qc_this_Q2Qc.
  - cbn [F.ltb F.of_Z]. unfold F.Qc_ltb.
    rewrite bool_decide_eq_true_2; [done|].
    unfold Qclt. by rewrite Qc_this_Q2Qc.
Qed.

Lemma shifted_longitudes_ascending_in_range_witness :
  ∃ lons1,
    lookup_coord new_lon (coords sample_shifted) = Some (Numbers lons1)
    ∧ Sorted (λ x y, sort_le x y) lons1
    ∧ Forall (λ x, F.leb (F.of_Z (-180)) x = true
                   ∧ F.ltb x (F.of_Z 180) = true) lons1.
Proof.
  apply (shifted_longitudes_ascending_in_range sample_named sample_shifted
           [F.of_Z 0; F.of_Z 90; F.of_Z 180; F.of_Z 270]).
  - reflexivity.
  - repeat constructor.
  - by_computation.
Defined.

Lemma argsort_perm (keys : list f64) :
  argsort keys ≡ₚ seq 0 (length keys).
Proof.
  unfold argsort, sort_keys. rewrite sort_perm.
  by rewrite snd_zip by (by rewrite length_seq).
Qed.

(** X18.  The shift reorders, it neither drops nor invents columns: one
rearrangement of the positions [0 .. n-1] is applied both to the wrapped
longitudes and to the values along the longitude axis, so every value
stays with its longitude; dimensions are kept. *)
Theorem shift_keeps_values_with_longitudes (data d1 : DataArray)
    (lons : list f64) :
  shift_longitude data = Some d1 →
  lookup_coord new_lon (coords data) = Some (Numbers lons) →
  ∃ (positions : list nat) (axis : nat),
    positions ≡ₚ seq 0 (length lons)
    ∧ dims data !! axis = Some new_lon
    ∧ dims d1 = dims data
    ∧ lookup_coord new_lon (coords d1)
      = Some (Numbers (take_along positions (wrap_longitude <$> lons)))
    ∧ values d1 = permute_axis axis positions (values data).
Proof.
  unfold shift_longitude, sortby. simpl. intros Hshift Hc.
  rewrite Hc in Hshift. simpl in Hshift.
  rewrite lookup_coord_assign in Hshift. simpl in Hshift.
  unfold axis_of at 1 in Hshift. simpl in Hshift.
  destruct (list_find _ (dims data)) as [[axis d]|] eqn:Hax;
    simpl in Hshift; [|done].
  injection Hshift as <-. simpl.
  apply list_find_Some in Hax as (Hd & -> & _).
  exists (argsort (wrap_longitude <$> lons)), axis.
  split; [|split; [done|split; [done|split; [|done]]]].
  - rewrite argsort_perm. by rewrite length_fmap.
  - apply lookup_coord_assign.
Qed.

Lemma shift_keeps_values_with_longitudes_witness :
  ∃ (positions : list nat) (axis : nat),
    positions ≡ₚ seq 0 (length [F.of_Z 0; F.of_Z 90; F.of_Z 180; F.of_Z 270])
    ∧ dims sample_named !! axis = Some new_lon
    ∧ dims sample_shifted = dims sample_named
    ∧ lookup_coord new_lon (coords sample_shifted)
      = Some (Numbers (take_along positions
                         (wrap_longitude <$> [F.of_Z 0; F.of_Z 90;
                                              F.of_Z 180; F.of_Z 270])))
    ∧ values sample_shifted = permute_axis axis positions (values sample_named).
Proof.
  apply (shift_keeps_values_with_longitudes sample_named sample_shifted).
  - by_computation.
  - reflexivity.
Defined.

Lemma lookup_coord_None (name : str) (cs : list (str * coord)) :
  name ∉ cs.*1 → lookup_coord name cs = None.
Proof.
  induction cs as [|[n c] cs IH]; [done|].
  rewrite fmap_cons, not_elem_of_cons. simpl. intros [Hne Hin].
  rewrite decide_False by done. by apply IH.
Qed.

(** X19.  The longitude shift looks the coordinate up under the name
[longitude] only: on a dataset without a coordinate of that name (a
model file with [lon], say) [align_data] raises unless the renaming is
asked for as well, with or without the conversion to Celsius. *)
Theorem shift_without_longitude_raises (data : DataArray) (celsius : bool) :
  new_lon ∉ (coords data).*1 →
  align_data data celsius true false = None.
Proof.
  intros Hin. unfold align_data, shift_longitude.
  assert (Hc : coords (if celsius then to_celsius data else data)
               = coords data) by by destruct celsius.
  cbn [mbind option_bind]. rewrite Hc, lookup_coord_None; done.
Qed.

Lemma shift_without_longitude_raises_witness :
  align_data sample_data true true false = None.
Proof.
  apply (shift_without_longitude_raises sample_data true).
  apply (proj1 (bool_decide_eq_false _)). vm_compute. reflexivity.
Defined.

End AlignMore.

Module TemperatureIndexMore.
Import Frame TemperatureIndex TemperatureIndexFacts DateRange.
Local Open Scope Z_scope.

(** *** The date range of a file name *)

Lemma mtch_Repeat_length (c : Re.cclass) (n : nat) (ds s : str) caps k :
  length ds = n → Forall (λ a, Re.cmatch c a = true) ds →
  Re.mtch (Re.Repeat n (Re.Lit c)) (ds ++ s) caps k = k s caps.
Proof. intros <-. apply ReFacts.mtch_Repeat_class. Qed.

Lemma match_date_range (start_date end_date rest : str) :
  length start_date = 8%nat → Forall (λ a, Re.is_digit a = true) start_date →
  length end_date = 8%nat → Forall (λ a, Re.is_digit a = true) end_date →
  Re.match_here Re.date_range_pattern
    (lit "_" ++ start_date ++ lit "-" ++ end_date ++ rest)
  = Some [start_date; end_date].
Proof.
  intros Hls Hs Hle He. unfold Re.match_here, Re.date_range_pattern.
  cbn [Re.mtch]. rewrite ReFacts.mtch_Str. cbn [Re.mtch].
  rewrite (mtch_Repeat_length Re.CDigit 8 start_date) by done.
  rewrite ReFacts.mtch_Str. cbn [Re.mtch].
  rewrite (mtch_Repeat_length Re.CDigit 8 end_date) by done.
  rewrite (ReFacts.take_consumed start_date (lit "-" ++ end_date ++ rest)).
  by rewrite (ReFacts.take_consumed end_date rest).
Qed.

Lemma match_date_range_none (s : str) :
  match s with
  | a :: b :: _ => bool_decide (a = FileName.underscore) && Re.is_digit b
  | _ => false
  end = false →
  Re.match_here Re.date_range_pattern s = None.
Proof.
  unfold Re.match_here, Re.date_range_pattern. cbn [Re.mtch].
  destruct s as [|a [|b s]]; [done| |].
  - intros _. simpl. by destruct (bool_decide _).
  - intros H. simpl. change "_"%char with FileName.underscore.
    destruct (bool_decide (a = FileName.underscore)); [|done].
    simpl in H. by rewrite H.
Qed.

Lemma search_date_range_prefix (prefix rest : str) :
  has_underscore_digit prefix = false →
  Re.search Re.date_range_pattern (prefix ++ FileName.underscore :: rest)
  = Re.search Re.date_range_pattern (FileName.underscore :: rest).
Proof.
  induction prefix as [|a p IH]; [done|]. intros Hp.
  cbn [has_underscore_digit] in Hp.
  apply orb_false_iff in Hp as [Ha Hp].
  cbn [app]. rewrite ReFacts.search_skip; [by apply IH|].
  apply match_date_range_none.
  destruct p as [|b p]; cbn [app]; [|exact Ha].
  by rewrite andb_false_r.
Qed.

Lemma search_date_range_none (s : str) :
  has_underscore_digit s = false →
  Re.search Re.date_range_pattern s = None.
Proof.
  induction s as [|a s IH]; [done|]. intros Hs.
  cbn [has_underscore_digit] in Hs.
  apply orb_false_iff in Hs as [Ha Hs].
  rewrite ReFacts.search_skip; [by apply IH|].
  apply match_date_range_none. by destruct s.
Qed.

(** X20.  The years a file covers run from the year of its start date to
the year of its end date, both included.  The dates are the first place
of the name where an underscore is followed by eight digits, a hyphen
and eight digits; in a name whose earlier underscores are not followed
by a digit these are the two dates of the convention. *)
Theorem year_range_start_to_end (prefix start_date end_date rest : str) :
  has_underscore_digit prefix = false →
  length start_date = 8%nat → Forall (λ a, Re.is_digit a = true) start_date →
  length end_date = 8%nat → Forall (λ a, Re.is_digit a = true) end_date →
  ∃ range,
    year_range (prefix ++ lit "_" ++ start_date ++ lit "-" ++ end_date ++ rest)
    = Some range
    ∧ ∀ year, year ∈ range
              ↔ int_of_digits (take 4 start_date) ≤ year
                ≤ int_of_digits (take 4 end_date).
Proof.
  intros Hp Hls Hs Hle He. unfold year_range.
  change (lit "_" ++ start_date ++ lit "-" ++ end_date ++ rest)
    with (FileName.underscore :: start_date ++ lit "-" ++ end_date ++ rest).
  rewrite search_date_range_prefix by done.
  rewrite (ReFacts.search_here _ _ [start_date; end_date])
    by (by apply match_date_range).
  eexists. split; [reflexivity|].
  intros year. rewrite elem_of_seqZ. lia.
Qed.

Lemma year_range_start_to_end_witness :
  ∃ range,
    year_range (lit "tasmax_day_ACCESS-CM2_ssp126_r1i1p1f1_gn" ++ lit "_"
                  ++ lit "20150101" ++ lit "-" ++ lit "21001231" ++ lit ".nc")
    = Some range
    ∧ ∀ year, year ∈ range
              ↔ int_of_digits (take 4 (lit "20150101")) ≤ year
                ≤ int_of_digits (take 4 (lit "21001231")).
Proof.
  apply (year_range_start_to_end
           (lit "tasmax_day_ACCESS-CM2_ssp126_r1i1p1f1_gn")
           (lit "20150101") (lit "21001231") (lit ".nc")).
  - reflexivity.
  - reflexivity.
  - by repeat constructor.
  - reflexivity.
  - by repeat constructor.
Defined.

Section more.
Variable interp : Field2D → list f64 → list f64 → Field2D.
Variable interp_nearest : Field3D → list f64 → list f64 → Field3D.
Variable sel_nearest : Field3D → Z → Field2D.
Variable mean_time : Field3D → Field2D.
Variable files : Files.

Local Abbreviation index_year := (index_year interp interp_nearest sel_nearest
                          mean_time files).
Local Abbreviation temperature_index := (temperature_index interp interp_nearest
                                 sel_nearest mean_time files).

(** X21.  A file name without a date range (no underscore followed by a
digit) makes [temperature_index] raise, whatever the years asked for:
the pattern finds nothing and [.group(1)] is taken of [None]. *)
Theorem name_without_dates_raises (years : list Z) (final_data : DataFrame)
    (file : str) :
  has_underscore_digit file = false →
  temperature_index years final_data file = None.
Proof.
  intros Hfile. unfold TemperatureIndex.temperature_index, year_range.
  rewrite search_date_range_none by done.
  destruct (p95_file files); simpl; [|done].
  destruct (open_model file (model_dir files)); simpl; [|done].
  by destruct (Align.align_data _ true true true).
Qed.

(** *** The loop over the years *)

Lemma for_each_filter {S A} (body : S → A → option S) (P : A → Prop)
    `{!∀ x, Decision (P x)} (l : list A) : ∀ state : S,
  (∀ s x, ¬ P x → body s x = Some s) →
  for_each body state l = for_each body state (filter P l).
Proof.
  induction l as [|x l IH]; intros state Hskip; [done|].
  rewrite filter_cons. destruct (decide (P x)) as [HP|HP]; simpl.
  - destruct (body state x) as [state'|]; simpl; [|done]. by apply IH.
  - rewrite (Hskip state x HP). simpl. by apply IH.
Qed.

Lemma for_each_raises {S A} (body : S → A → option S) (x : A) (l : list A) :
  ∀ state : S,
  x ∈ l → (∀ s, body s x = None) → for_each body state l = None.
Proof.
  induction l as [|a l IH]; intros state Hin Hx; [by apply elem_of_nil in Hin|].
  apply elem_of_cons in Hin as [<-|Hin]; simpl.
  - by rewrite Hx.
  - destruct (body state a) as [state'|]; simpl; [|done]. by apply IH.
Qed.

Lemma last_nonempty {A} (l : list A) : l ≠ [] → is_Some (last l).
Proof.
  intros Hl. destruct (last l) eqn:E; [done|].
  by apply last_None in E.
Qed.

(** X22.  Requested years that the file does not cover add nothing to the
table: the call returns the table it returns for the covered years
alone (as long as one of them remains to be asked for). *)
Theorem uncovered_years_add_nothing (years : list Z) (final_data : DataFrame)
    (file : str) (range : list Z) :
  year_range file = Some range →
  filter (λ year, year ∈ range) years ≠ [] →
  fst <$> temperature_index years final_data file
  = fst <$> temperature_index (filter (λ year, year ∈ range) years)
              final_data file.
Proof.
  intros Hrange Hne. unfold TemperatureIndex.temperature_index.
  destruct (p95_file files) as [p95|]; simpl; [|done].
  destruct (open_model file (model_dir files)) as [raw|]; simpl; [|done].
  destruct (Align.align_data _ true true true) as [tas_max|]; simpl; [|done].
  rewrite Hrange. simpl.
  rewrite (for_each_filter _ (λ year, year ∈ range) years).
  2:{ intros s year Hout. by apply index_year_outside. }
  destruct (for_each _ _ (filter _ years)) as [state|]; simpl; [|done].
  destruct (last_nonempty _ Hne) as [y ->].
  destruct (last_nonempty years) as [y' ->]; [|done].
  intros ->. by destruct Hne.
Qed.

Lemma index_year_without_population (tas_max : Align.DataArray)
    (range : list Z) (file : str) (state : DataFrame * Field2D) (year : Z) :
  year ∈ range →
  pop_file files = None ∨ greg_file files = None →
  index_year tas_max range file state year = None.
Proof.
  intros Hin Hfiles. unfold TemperatureIndex.index_year.
  destruct state as [final_data p95_hist]. rewrite decide_True by done.
  destruct (time_steps tas_max); simpl; [|done].
  destruct (coordinate Align.new_lon tas_max); simpl; [|done].
  destruct (coordinate Align.new_lat tas_max); simpl; [|done].
  unfold pop_and_regions.
  destruct Hfiles as [->| ->]; [done|].
  by destruct (pop_file files).
Qed.

(** X23.  When the population file or the region file is missing, a
request that names a covered year raises; the files are opened only
when a year is processed. *)
Theorem covered_year_needs_population (years : list Z)
    (final_data : DataFrame) (file : str) (range : list Z) (year : Z) :
  year_range file = Some range →
  year ∈ years → year ∈ range →
  pop_file files = None ∨ greg_file files = None →
  temperature_index years final_data file = None.
Proof.
  intros Hrange Hyear Hin Hfiles. unfold TemperatureIndex.temperature_index.
  destruct (p95_file files) as [p95|]; simpl; [|done].
  destruct (open_model file (model_dir files)) as [raw|]; simpl; [|done].
  destruct (Align.align_data _ true true true) as [tas_max|]; simpl; [|done].
  rewrite Hrange. simpl.
  rewrite (for_each_raises _ year); [done..|].
  intros s. by apply index_year_without_population.
Qed.

End more.

Lemma name_without_dates_raises_witness :
  temperature_index Sample.same_grid Sample.same_grid_3d
    (λ f _, Sample.first_step f) Sample.first_step Sample.sample_files
    [2025] empty_regions_frame (lit "tasmax_day_ACCESS-CM2_ssp126_r1i1p1f1.nc")
  = None.
Proof.
  apply (name_without_dates_raises Sample.same_grid Sample.same_grid_3d
           (λ f _, Sample.first_step f) Sample.first_step Sample.sample_files
           [2025] empty_regions_frame
           (lit "tasmax_day_ACCESS-CM2_ssp126_r1i1p1f1.nc")).
  reflexivity.
Defined.

Lemma uncovered_years_add_nothing_witness :
  fst <$> temperature_index Sample.same_grid Sample.same_grid_3d
            (λ f _, Sample.first_step f) Sample.first_step Sample.sample_files
            [1999; 2025; 2200] empty_regions_frame Region.sample_file
  = fst <$> temperature_index Sample.same_grid Sample.same_grid_3d
              (λ f _, Sample.first_step f) Sample.first_step
              Sample.sample_files
              (filter (λ year, year ∈ seqZ 2015 86) [1999; 2025; 2200])
              empty_regions_frame Region.sample_file.
Proof.
  apply (uncovered_years_add_nothing Sample.same_grid Sample.same_grid_3d
           (λ f _, Sample.first_step f) Sample.first_step Sample.sample_files
           [1999; 2025; 2200] empty_regions_frame Region.sample_file
           (seqZ 2015 86)).
  - vm_compute. reflexivity.
  - vm_compute. discriminate.
Defined.

Lemma covered_year_needs_population_witness :
  temperature_index Sample.same_grid Sample.same_grid_3d
    (λ f _, Sample.first_step f) Sample.first_step
    {| p95_file := p95_file Sample.sample_files;
       model_dir := model_dir Sample.sample_files;
       pop_file := None;
       greg_file := greg_file Sample.sample_files;
       region_names := region_names Sample.sample_files |}
    [1999; 2025] empty_regions_frame Region.sample_file
  = None.
Proof.
  apply (covered_year_needs_population Sample.same_grid Sample.same_grid_3d
           (λ f _, Sample.first_step f) Sample.first_step _
           [1999; 2025] empty_regions_frame Region.sample_file
           (seqZ 2015 86) 2025).
  - vm_compute. reflexivity.
  - apply list_elem_of_In. simpl. tauto.
  - apply elem_of_seqZ. lia.
  - by left.
Defined.

End TemperatureIndexMore.

Module FrameMore.
Import Frame TemperatureIndex Regions.

Lemma lookup_column_app (name : str) (a b : list (str * list f64)) :
  lookup_column name (a ++ b)
  = match lookup_column name a with
    | Some c => Some c
    | None => lookup_column name b
    end.
Proof.
  induction a as [|[n c] a IH]; [done|]. simpl.
  by destruct (decide (n = name)).
Qed.

Lemma suffixed_not_key (value : str) : value ++ lit "_x" ≠ key_name.
Proof.
  intros H%(f_equal reverse). rewrite reverse_app in H.
  vm_compute in H. discriminate H.
Qed.

Lemma lookup_key_left (value : str) (keys left_keys : list f64)
    (cols : list (str * list f64)) :
  lookup_column key_name
    ((λ c, if decide (c.1 = key_name) then (c.1, keys)
           else (if decide (c.1 = value) then c.1 ++ lit "_x" else c.1,
                 pick left_keys c.2 <$> keys)) <$> cols)
  = if decide (key_name ∈ cols.*1) then Some keys else None.
Proof.
  induction cols as [|[n c] cols IH]; [done|].
  rewrite !fmap_cons. cbn [fst snd].
  destruct (decide (n = key_name)) as [->|Hn].
  - cbn [lookup_column fst]. rewrite decide_True by done.
    rewrite decide_True; [done|]. by left.
  - cbn [lookup_column]. rewrite decide_False.
    + rewrite IH. destruct (decide (key_name ∈ cols.*1)) as [Hin|Hin].
      * rewrite decide_True; [done|]. by right.
      * rewrite decide_False; [done|].
        intros [?|?]%elem_of_cons; [by apply Hn|done].
    + destruct (decide (n = value)) as [->|Hv]; [|done].
      apply suffixed_not_key.
Qed.

Lemma merge_outer_region_keys (left : DataFrame) (right : Region.RegionTable)
    (df : DataFrame) :
  merge_outer left right = Some df →
  region_keys df
  = outer_keys (region_keys left) (Region.region_rows right).*1
  ∧ Forall (λ c, length c.2 = length (region_keys df)) (columns df).
Proof.
  unfold merge_outer, region_keys.
  destruct (lookup_column key_name (columns left)) as [ks|] eqn:Hks; simpl.
  - intros [= <-]. simpl.
    assert (Hin : key_name ∈ column_names left)
      by (by eapply SummaryFacts.lookup_column_elem).
    rewrite lookup_column_app, lookup_key_left.
    unfold column_names in Hin. rewrite !decide_True by done. simpl.
    split; [done|].
    apply Forall_app. split.
    + apply Forall_fmap, Forall_forall. intros [n c] _. simpl.
      case_decide; simpl; [done|]. by rewrite length_fmap.
    + repeat constructor. simpl. by rewrite length_fmap.
  - destruct (decide (index_name left = Some key_name)) as [Hidx|Hidx];
      simpl; [|done].
    intros [= <-]. simpl.
    assert (Hin : key_name ∉ column_names left).
    { unfold column_names. intros Hin.
      revert Hks Hin. generalize (columns left).
      induction l as [|[n c] l IH]; simpl; [by intros _ ?%elem_of_nil|].
      destruct (decide (n = key_name)) as [->|Hn]; [done|].
      intros Hl [?|?]%elem_of_cons; [by apply Hn|by apply IH]. }
    rewrite lookup_column_app, lookup_key_left.
    unfold column_names in Hin. rewrite !decide_False by done. simpl.
    split; [done|].
    apply Forall_app. split.
    + apply Forall_fmap, Forall_forall. intros [n c] _. simpl.
      case_decide; simpl; [done|]. by rewrite length_fmap.
    + repeat constructor. simpl. by rewrite length_fmap.
Qed.

Lemma outer_keys_elem (l r : list f64) (k : f64) :
  k ∈ outer_keys l r ↔ k ∈ l ∨ k ∈ r.
Proof.
  unfold outer_keys.
  by rewrite merge_sort_Permutation, elem_of_remove_dups, elem_of_app.
Qed.

Lemma outer_keys_NoDup (l r : list f64) : NoDup (outer_keys l r).
Proof.
  unfold outer_keys. rewrite merge_sort_Permutation. apply NoDup_remove_dups.
Qed.

Lemma merge_outer_last_column (left : DataFrame)
    (right : Region.RegionTable) (df : DataFrame) :
  merge_outer left right = Some df →
  ∃ name,
    last (columns df)
    = Some (name,
            pick (Region.region_rows right).*1 (Region.region_rows right).*2
              <$> outer_keys (region_keys left) (Region.region_rows right).*1).
Proof.
  unfold merge_outer, region_keys.
  destruct (lookup_column key_name (columns left)) as [ks|]; simpl.
  - intros [= <-]. simpl. eexists. rewrite app_assoc. apply last_snoc.
  - destruct (decide (index_name left = Some key_name)) as [Hidx|Hidx];
      simpl; [|done].
    intros [= <-]. simpl. eexists. rewrite app_assoc. apply last_snoc.
Qed.

Lemma pick_present (rows : list (f64 * f64)) (k v : f64) :
  NoDup rows.*1 → (k, v) ∈ rows → pick rows.*1 rows.*2 k = v.
Proof.
  induction rows as [|[k' v'] rows IH]; intros Hnd Hin;
    [by apply elem_of_nil in Hin|].
  rewrite !fmap_cons in *. apply NoDup_cons in Hnd as [Hk' Hnd]. simpl.
  apply elem_of_cons in Hin as [[= -> ->]|Hin].
  - by rewrite decide_True.
  - rewrite decide_False; [by apply IH|].
    intros ->. apply Hk'. apply list_elem_of_fmap. by exists (k, v).
Qed.

Lemma pick_absent (keys vals : list f64) (k : f64) :
  k ∉ keys → pick keys vals k = NaN.
Proof.
  revert vals. induction keys as [|k' keys IH]; intros vals Hk; [done|].
  apply not_elem_of_cons in Hk as [Hne Hk].
  destruct vals as [|v vals]; [done|]. simpl.
  rewrite decide_False by done. by apply IH.
Qed.

(** X24.  Where neither side repeats a region, the outer merge of the
table with the column of one year keeps every region of either side,
each once; the merged table is rectangular (every column has one value
per region), and its last column is the column of the year: at the row
of a region it holds the value the year has for that region, and NaN
where the year has none. *)
Theorem merge_keeps_every_region (left : DataFrame)
    (right : Region.RegionTable) (df : DataFrame) :
  NoDup (region_keys left) →
  NoDup (Region.region_rows right).*1 →
  merge_outer left right = Some df →
  NoDup (region_keys df)
  ∧ (∀ k, k ∈ region_keys df
          ↔ k ∈ region_keys left ∨ k ∈ (Region.region_rows right).*1)
  ∧ Forall (λ c, length c.2 = length (region_keys df)) (columns df)
  ∧ ∃ name col,
      last (columns df) = Some (name, col)
      ∧ ∀ i k, region_keys df !! i = Some k →
          (∀ v, (k, v) ∈ Region.region_rows right → col !! i = Some v)
          ∧ (k ∉ (Region.region_rows right).*1 → col !! i = Some NaN).
Proof.
  intros _ Hright Hmerge.
  destruct (merge_outer_last_column _ _ _ Hmerge) as [name Hlast].
  apply merge_outer_region_keys in Hmerge as [Hkeys Hrect].
  split; [|split; [|split; [done|]]].
  - rewrite Hkeys. apply outer_keys_NoDup.
  - intros k. rewrite Hkeys. apply outer_keys_elem.
  - eexists _, _. split; [exact Hlast|].
    intros i k Hi. rewrite Hkeys in Hi.
    rewrite list_lookup_fmap, Hi. simpl. split.
    + intros v Hv. f_equal. by apply pick_present.
    + intros Hk. f_equal. by apply pick_absent.
Qed.

Lemma merge_keeps_every_region_witness :
  let right := Region.mkRegionTable (lit "2025_ACCESS-CM2_ssp126")
                 [(F.of_Z 1, F.of_Q (25 # 2)); (F.of_Z 28, NaN)] in
  ∃ df, merge_outer empty_regions_frame right = Some df
  ∧ NoDup (region_keys df)
  ∧ (∀ k, k ∈ region_keys df
          ↔ k ∈ region_keys empty_regions_frame
            ∨ k ∈ (Region.region_rows right).*1)
  ∧ Forall (λ c, length c.2 = length (region_keys df)) (columns df)
  ∧ ∃ name col,
      last (columns df) = Some (name, col)
      ∧ ∀ i k, region_keys df !! i = Some k →
          (∀ v, (k, v) ∈ Region.region_rows right → col !! i = Some v)
          ∧ (k ∉ (Region.region_rows right).*1 → col !! i = Some NaN).
Proof.
  intros right. eexists. split; [vm_compute; reflexivity|].
  apply (merge_keeps_every_region empty_regions_frame right).
  - apply (proj1 (bool_decide_eq_true _)). vm_compute. reflexivity.
  - apply (proj1 (bool_decide_eq_true _)). vm_compute. reflexivity.
  - vm_compute. reflexivity.
Defined.

Section more.
Variable interp : Field2D → list f64 → list f64 → Field2D.
Variable interp_nearest : Field3D → list f64 → list f64 → Field3D.
Variable sel_nearest : Field3D → Z → Field2D.
Variable mean_time : Field3D → Field2D.
Variable files : Files.

Local Abbreviation index_year := (index_year interp interp_nearest sel_nearest
                          mean_time files).
Local Abbreviation temperature_index := (temperature_index interp interp_nearest
                                 sel_nearest mean_time files).

Lemma for_each_invariant {S A} (P : S → Prop) (body : S → A → option S)
    (l : list A) : ∀ state state' : S,
  (∀ s x s', P s → body s x = Some s' → P s') →
  P state → for_each body state l = Some state' → P state'.
Proof.
  induction l as [|x l IH]; intros state state' Hstep HP; simpl.
  - by intros [= <-].
  - destruct (body state x) as [s1|] eqn:Hb; simpl; [|done].
    apply IH; [done|]. by eapply Hstep.
Qed.

Lemma index_year_keeps_regions (tas_max : Align.DataArray) (range : list Z)
    (file : str) (state state' : DataFrame * Field2D) (year : Z) (k : f64) :
  index_year tas_max range file state year = Some state' →
  k ∈ region_keys state.1 → k ∈ region_keys state'.1.
Proof.
  unfold TemperatureIndex.index_year. destruct state as [final_data p95_hist].
  case_decide; [|by intros [= <-]].
  destruct (time_steps tas_max); simpl; [|done].
  destruct (coordinate Align.new_lon tas_max); simpl; [|done].
  destruct (coordinate Align.new_lat tas_max); simpl; [|done].
  destruct (pop_and_regions _ _ _ _ _ _ _ _) as [[population regions]|];
    simpl; [|done].
  destruct (Region.get_region_values _ _ _ _ _) as [final_regions|];
    simpl; [|done].
  destruct (merge_outer final_data final_regions) as [merged|] eqn:Hm;
    simpl; [|done].
  intros [= <-] Hk. simpl.
  apply merge_outer_region_keys in Hm as [-> _].
  apply outer_keys_elem. by left.
Qed.

(** X25.  [temperature_index] never loses a region: every region of the
table it is given is a region of the table it returns, whatever the
model grid covers. *)
Theorem temperature_index_keeps_regions (years : list Z)
    (final_data final_data' : DataFrame) (file : str) (year : Z) (k : f64) :
  temperature_index years final_data file = Some (final_data', year) →
  k ∈ region_keys final_data → k ∈ region_keys final_data'.
Proof.
  unfold TemperatureIndex.temperature_index.
  destruct (p95_file files) as [p95|]; simpl; [|done].
  destruct (open_model file (model_dir files)) as [raw|]; simpl; [|done].
  destruct (Align.align_data _ true true true) as [tas_max|]; simpl; [|done].
  destruct (year_range file) as [range|]; simpl; [|done].
  destruct (for_each _ _ years) as [state|] eqn:Hloop; simpl; [|done].
  destruct (last years); simpl; [|done]. intros [= <- _] Hk.
  revert Hloop.
  apply (for_each_invariant (λ s, k ∈ region_keys s.1)); [|done].
  intros s x s' Hs Hstep. by eapply index_year_keeps_regions.
Qed.

End more.

Lemma temperature_index_keeps_regions_witness :
  ∃ final_data',
    temperature_index Sample.same_grid Sample.same_grid_3d
      (λ f _, Sample.first_step f) Sample.first_step Sample.sample_files
      [2025] empty_regions_frame Region.sample_file
    = Some (final_data', 2025)
    ∧ F.of_Z 27 ∈ region_keys final_data'.
Proof.
  eexists. split; [vm_compute; reflexivity|].
  apply (temperature_index_keeps_regions Sample.same_grid Sample.same_grid_3d
           (λ f _, Sample.first_step f) Sample.first_step Sample.sample_files
           [2025] empty_regions_frame _ Region.sample_file 2025 (F.of_Z 27)).
  - vm_compute. reflexivity.
  - apply list_elem_of_In. vm_compute. tauto.
Defined.

End FrameMore.

Module SummaryMore.
Import Frame TemperatureIndex Summary.

Lemma mean_single (x : f64) : mean [x] = x.
Proof.
  destruct x as [q| | |]; try (vm_compute; reflexivity).
  unfold mean. rewrite filter_cons_True by done. rewrite filter_nil.
  unfold Region.pd_sum. rewrite filter_cons_True by done. rewrite filter_nil.
  unfold count. simpl. f_equal. rewrite Qcplus_0_l. unfold Qcdiv.
  assert (H1 : (/ Q2Qc (inject_Z (Z.of_nat 1)))%Qc = 1%Qc)
    by (apply Qc_is_canon; reflexivity).
  rewrite H1. apply Qcmult_1_r.
Qed.

Section more.
Variable fsqrt : f64 → f64.
Variable interp : Field2D → list f64 → list f64 → Field2D.
Variable interp_nearest : Field3D → list f64 → list f64 → Field3D.
Variable sel_nearest : Field3D → Z → Field2D.
Variable mean_time : Field3D → Field2D.
Variable files : Files.

Lemma std_single (x : f64) : std fsqrt [x] = NaN.
Proof.
  unfold std. destruct (decide (F.isnan x = false)) as [Hx|Hx].
  - by rewrite filter_cons_True.
  - by rewrite filter_cons_False.
Qed.

(** X26.  A group made of a single column (one model only for a year and
scenario) has that column's values as its mean, missing values
included, and no standard deviation: the std column is NaN in every
row. *)
Theorem single_model_group (c : str * list f64) (rows : nat) :
  length c.2 = rows →
  reduce_rows mean rows [c] = c.2
  ∧ reduce_rows (std fsqrt) rows [c] = replicate rows NaN.
Proof.
  intros <-. unfold reduce_rows. split.
  - rewrite <-(AlignFacts.take_along_seq c.2) at 2.
    unfold Align.take_along. apply list_fmap_ext. intros i j _. simpl.
    apply mean_single.
  - generalize 0%nat. induction (length c.2) as [|n IH]; intros start; [done|].
    simpl. rewrite std_single. f_equal. apply IH.
Qed.

Lemma temperature_index_uncovered (years : list Z) (final_data : DataFrame)
    (file : str) :
  (∀ range, year_range file = Some range →
            Forall (λ year, year ∉ range) years) →
  fst <$> temperature_index interp interp_nearest sel_nearest mean_time files
            years final_data file = None
  ∨ fst <$> temperature_index interp interp_nearest sel_nearest mean_time
              files years final_data file = Some final_data.
Proof.
  intros Hout. unfold temperature_index.
  destruct (p95_file files) as [p95|]; simpl; [|by left].
  destruct (open_model file (model_dir files)) as [raw|]; simpl; [|by left].
  destruct (Align.align_data _ true true true) as [tas_max|]; simpl;
    [|by left].
  destruct (year_range file) as [range|]; simpl; [|by left].
  rewrite TemperatureIndexFacts.for_each_outside by (by apply Hout). simpl.
  destruct (last years); simpl; [by right|by left].
Qed.

(** X27.  When none of the files named [tasmax_day_*.nc] covers a
requested year (in particular when the directory has no such file),
[temperature_index_all_models] raises: the table of all models has no
column then, and the summary looks for the column
[nan_nan_model-mean]. *)
Theorem no_covered_year_raises (years : list Z) :
  (∀ name range, name ∈ (model_dir files).*1 → glob_match name = true →
                 year_range name = Some range →
                 Forall (λ year, year ∉ range) years) →
  temperature_index_all_models fsqrt interp interp_nearest sel_nearest
    mean_time files years = None.
Proof.
  intros Hout. unfold temperature_index_all_models.
  assert (Hloop : ∀ names : list str,
            Forall (λ name, ∀ range, year_range name = Some range →
                              Forall (λ year, year ∉ range) years) names →
            for_each (λ models_data file,
                        fst <$> temperature_index interp interp_nearest
                                  sel_nearest mean_time files years
                                  models_data file)
              empty_regions_frame names = None
            ∨ for_each (λ models_data file,
                          fst <$> temperature_index interp interp_nearest
                                    sel_nearest mean_time files years
                                    models_data file)
                empty_regions_frame names = Some empty_regions_frame).
  { induction 1 as [|name names Hname _ IH]; [by right|].
    cbn [for_each].
    destruct (temperature_index_uncovered years empty_regions_frame name
                Hname) as [-> | ->]; [by left|exact IH]. }
  destruct (Hloop (filter (λ n, glob_match n) (model_dir files).*1))
    as [-> | ->]; [|done..].
  apply Forall_forall. intros name [Hglob Hin]%list_elem_of_filter range.
  apply Hout; [done|]. by apply Is_true_true.
Qed.

Lemma unique_from_spec (l : list str) : ∀ seen : list str,
  NoDup (unique_from seen l)
  ∧ ∀ x, x ∈ unique_from seen l → x ∉ seen.
Proof.
  induction l as [|x l IH]; intros seen; simpl.
  - split; [constructor|]. by intros x ?%elem_of_nil.
  - destruct (decide (x ∈ seen)) as [Hx|Hx]; [apply IH|].
    destruct (IH (x :: seen)) as [Hnd Hout]. split.
    + constructor; [|done]. intros Hin. apply (Hout x Hin). by left.
    + intros y [->|Hy]%elem_of_cons; [done|].
      intros Hs. apply (Hout y Hy). by right.
Qed.

Lemma group_columns_NoDup (reduce : list f64 → f64) (suffix : str)
    (models_data : DataFrame) :
  NoDup (group_columns reduce suffix models_data).*1.
Proof.
  rewrite SummaryFacts.group_columns_names.
  apply NoDup_fmap_2; [|apply unique_from_spec].
  intros g g' Heq. by apply app_inv_tail in Heq.
Qed.

Lemma mean_name_not_std (g g' : str) :
  g ++ lit "_model-mean" ≠ g' ++ lit "_model-std".
Proof.
  intros H%(f_equal reverse). rewrite !reverse_app in H.
  vm_compute (reverse (lit "_model-mean")) in H.
  vm_compute (reverse (lit "_model-std")) in H.
  discriminate H.
Qed.

(** X28.  No two columns of the summary share a name: every pair of year
and scenario has one mean column and one std column. *)
Theorem summary_columns_distinct (models_data : DataFrame)
    (table : SummaryTable) :
  summarize fsqrt files models_data = Some table →
  NoDup (st_columns table).*1.
Proof.
  unfold summarize, set_index. simpl.
  destruct (lookup_column _ _) as [idx|]; simpl; [|done].
  destruct (mapM to_int idx) as [ids|]; simpl; [|done].
  destruct (region_names files) as [names|]; simpl; [|done].
  intros [= <-]. rewrite SummaryFacts.merge_names_columns.
  eapply sublist_NoDup; [|apply fmap_sublist, sublist_filter].
  rewrite fmap_app. apply NoDup_app. split; [apply group_columns_NoDup|].
  split; [|apply group_columns_NoDup].
  intros name Hmean Hstd.
  rewrite SummaryFacts.group_columns_names in Hmean, Hstd.
  apply list_elem_of_fmap in Hmean as (g & -> & _).
  apply list_elem_of_fmap in Hstd as (g' & Heq & _).
  by apply mean_name_not_std in Heq.
Qed.

End more.

Lemma single_model_group_witness :
  reduce_rows mean 3 [(lit "IMAGE_region", [F.of_Z 1; NaN; F.of_Z 3])]
  = [F.of_Z 1; NaN; F.of_Z 3]
  ∧ reduce_rows (std Sample.sqrt_10) 3
      [(lit "IMAGE_region", [F.of_Z 1; NaN; F.of_Z 3])]
    = replicate 3 NaN.
Proof.
  apply (single_model_group Sample.sqrt_10
           (lit "IMAGE_region", [F.of_Z 1; NaN; F.of_Z 3]) 3).
  reflexivity.
Defined.

Lemma no_covered_year_raises_witness :
  temperature_index_all_models Sample.sqrt_10 Sample.same_grid
    Sample.same_grid_3d (λ f _, Sample.first_step f) Sample.first_step
    Sample.sample_files [1999; 2101] = None.
Proof.
  apply (no_covered_year_raises Sample.sqrt_10 Sample.same_grid
           Sample.same_grid_3d (λ f _, Sample.first_step f) Sample.first_step
           Sample.sample_files [1999; 2101]).
  intros name range Hname Hglob Hrange.
  apply list_elem_of_In in Hname. simpl in Hname.
  destruct Hname as [<-|[<-|[]]].
  - vm_compute in Hrange. injection Hrange as <-.
    apply Forall_forall. intros year Hyear.
    apply list_elem_of_In in Hyear. simpl in Hyear.
    destruct Hyear as [<-|[<-|[]]];
      apply (proj1 (bool_decide_eq_false _)); vm_compute; reflexivity.
  - vm_compute in Hglob. discriminate Hglob.
Defined.

Lemma summary_columns_distinct_witness :
  let models_data :=
    default empty_regions_frame
      (fst <$> temperature_index Sample.same_grid Sample.same_grid_3d
                 (λ f _, Sample.first_step f) Sample.first_step
                 Sample.sample_files [2025] empty_regions_frame
                 Region.sample_file) in
  ∃ table,
    summarize Sample.sqrt_10 Sample.sample_files models_data = Some table
    ∧ NoDup (st_columns table).*1.
Proof.
  intros models_data. eexists. split; [vm_compute; reflexivity|].
  apply (summary_columns_distinct Sample.sqrt_10 Sample.sample_files
           models_data).
  vm_compute. reflexivity.
Defined.

End SummaryMore.
